(** * Harmonia Shortcuts: a shallow embedding of the governance core

  The development follows the TypeScript sources of the extension:

  - [src/types/keybinding.ts]   identities and key normalisation,
  - [src/types/snapshot.ts]     governance state, decisions, snapshots,
  - [src/services/keybindingsFileService.ts]  the keybindings.json protocol,
  - [src/services/snapshotService.ts]         the bounded snapshot history,
  - [src/services/governanceService.ts]       the decision store,
  - [src/services/conflictService.ts]         conflict detection,
  - [src/services/keybindingParser.ts] and the import loop of
    [src/providers/auditPanelProvider.ts], as far as they feed the store.

  Conventions.  A JavaScript string is a [string]: a sequence of code
  units, here restricted to the code units below 256.  JavaScript numbers
  that hold integers (time stamps, hashes) are [Z], with the 32-bit
  wrap-around of the bit operators written out.  An optional parameter or
  field is an [option]; [None] is [undefined].  Methods that read or write
  the host (the file, the extension's global state, the clock) are
  computations in the monad [M] over [World]; a thrown exception is the
  outcome [Throw]. *)

From Stdlib Require Import ZArith Ascii String List Lia Permutation Sorted.
From Stdlib Require Import DecimalString HexadecimalString.
From stdpp Require Import gmap strings list sorting.
From Equations Require Import Equations.

Open Scope string_scope.
Open Scope Z_scope.
Open Scope list_scope.

Set Warnings "-register-all,-clear-no-such-hyp".

(* ===================================================================== *)
(** * JavaScript strings                                                  *)
(* ===================================================================== *)

Module JsString.

Abbreviation chars := list_ascii_of_string.
Abbreviation str := string_of_list_ascii.

Definition code (c : ascii) : Z := Z.of_N (N_of_ascii c).
Definition chr (n : Z) : ascii := ascii_of_N (Z.to_N n).

(** The double quote, the backslash and the line feed as characters. *)
Definition dquote : ascii := chr 34.
Definition backslash : ascii := chr 92.
Definition newline : ascii := chr 10.

(** Source texts that contain double quotes are written with the
    apostrophe in their place; [js] puts the double quotes back. *)
Definition js (s : string) : string :=
  str (map (fun c => if Ascii.eqb c "'"%char then dquote else c) (chars s)).

(** [String.prototype.toLowerCase] on the code units below 256: the
    upper-case letters are A-Z and the Latin-1 capitals 192-222 except the
    multiplication sign 215. *)
Definition lower_char (c : ascii) : ascii :=
  let n := code c in
  if ((65 <=? n) && (n <=? 90)) || ((192 <=? n) && (n <=? 222) && negb (n =? 215))
  then chr (n + 32) else c.

Definition toLowerCase (s : string) : string := str (map lower_char (chars s)).

(** White space and line terminators, as [trim] and the regular
    expression class [\s] see them (code units below 256). *)
Definition is_space (c : ascii) : bool :=
  let n := code c in
  ((9 <=? n) && (n <=? 13)) || (n =? 32) || (n =? 160).

Fixpoint dropWhile {A} (p : A -> bool) (l : list A) : list A :=
  match l with
  | [] => []
  | x :: l' => if p x then dropWhile p l' else l
  end.

Definition trim_chars (l : list ascii) : list ascii :=
  rev (dropWhile is_space (rev (dropWhile is_space l))).

Definition trim (s : string) : string := str (trim_chars (chars s)).

(** [s.split(c)] for a one-character separator. *)
Fixpoint split1 (sep : ascii) (cur s : list ascii) : list (list ascii) :=
  match s with
  | [] => [rev cur]
  | c :: s' =>
      if Ascii.eqb c sep then rev cur :: split1 sep [] s'
      else split1 sep (c :: cur) s'
  end.

Definition split_char (sep : ascii) (s : string) : list string :=
  map str (split1 sep [] (chars s)).

(** [s.split(ab)] for a two-character separator: leftmost occurrences,
    not overlapping. *)
Fixpoint split2 (a b : ascii) (cur s : list ascii) : list (list ascii) :=
  match s with
  | [] => [rev cur]
  | c :: s' =>
      match s' with
      | d :: s'' =>
          if Ascii.eqb c a && Ascii.eqb d b then rev cur :: split2 a b [] s''
          else split2 a b (c :: cur) s'
      | [] => [rev (c :: cur)]
      end
  end.

Definition split_str2 (a b : ascii) (s : string) : list string :=
  map str (split2 a b [] (chars s)).

(** One attempt of the regular expression [\s*&&\s*] at the head of [s]:
    the rest of the text after the match, when it matches there. *)
Definition match_and (s : list ascii) : option (list ascii) :=
  match dropWhile is_space s with
  | c :: d :: r =>
      if Ascii.eqb c "&"%char && Ascii.eqb d "&"%char
      then Some (dropWhile is_space r) else None
  | _ => None
  end.

(** [s.split(/\s*&&\s*/)]: the positions are tried from left to right;
    the text between two matches is a part.  A match consumes at least
    two characters, so [fuel] = length of the text is enough. *)
Fixpoint split_and_loop (fuel : nat) (cur s : list ascii) : list (list ascii) :=
  match s with
  | [] => [rev cur]
  | c :: s' =>
      match match_and s, fuel with
      | Some r, S fuel' => rev cur :: split_and_loop fuel' [] r
      | Some r, O => [rev cur]
      | None, S fuel' => split_and_loop fuel' (c :: cur) s'
      | None, O => [rev cur]
      end
  end.

Definition split_and (s : string) : list string :=
  map str (split_and_loop (length (chars s)) [] (chars s)).

Definition startsWith (s : string) (c : ascii) : bool :=
  match s with
  | String d _ => Ascii.eqb d c
  | EmptyString => false
  end.

(** [s.includes(ab)] for a two-character needle. *)
Fixpoint includes2 (a b : ascii) (s : list ascii) : bool :=
  match s with
  | c :: s' =>
      match s' with
      | d :: _ => (Ascii.eqb c a && Ascii.eqb d b) || includes2 a b s'
      | [] => false
      end
  | [] => false
  end.

(** [s.substring(1)]. *)
Definition substring1 (s : string) : string :=
  match s with
  | String _ r => r
  | EmptyString => EmptyString
  end.

(** [s.substring(0, n)]. *)
Definition substring0 (n : nat) (s : string) : string :=
  str (firstn n (chars s)).

Definition padStart (n : nat) (c : ascii) (s : string) : string :=
  str (repeat c (n - String.length s)%nat ++ chars s).

(** [parts.join(sep)]. *)
Fixpoint join (sep : string) (parts : list string) : string :=
  match parts with
  | [] => ""
  | [p] => p
  | p :: ps => p +:+ sep +:+ join sep ps
  end.

(** [Array.prototype.sort] is stable; [sort_by le] is the stable insertion
    sort for a comparison that answers [le a b] when [a] may stay before
    [b]. *)
Fixpoint insert_by {A} (le : A -> A -> bool) (x : A) (l : list A) : list A :=
  match l with
  | [] => [x]
  | y :: l' => if le x y then x :: l else y :: insert_by le x l'
  end.

Definition sort_by {A} (le : A -> A -> bool) (l : list A) : list A :=
  fold_right (insert_by le) [] l.

(** [n.toString(16)] and [String(n)] for an integer. *)
Definition toString16 (n : Z) : string :=
  HexadecimalString.NilZero.string_of_uint (N.to_hex_uint (Z.to_N n)).

Definition toString10 (n : Z) : string :=
  DecimalString.NilZero.string_of_int (Z.to_int n).

(** Truthiness of an optional string: [undefined] and [''] are falsy. *)
Definition truthy (s : option string) : bool :=
  match s with
  | Some (String _ _) => true
  | _ => false
  end.

End JsString.

Import JsString.

(* ===================================================================== *)
(** * JSON values and the JSON builtins                                   *)
(* ===================================================================== *)

(** A value as [JSON.parse] returns it.  An object is the list of its own
    properties in enumeration order, with distinct names. *)
Inductive json : Type :=
| JNull
| JBool (b : bool)
| JNum (n : Z)
| JStr (s : string)
| JArr (items : list json)
| JObj (props : list (string * json)).

(** [Map.prototype.get] and [Map.prototype.set] on an insertion-ordered
    map, kept as the list of its entries: [set] on a present key replaces
    the value in place, [set] on a new key appends the entry.  Property
    definition on an object follows the same discipline. *)
Module JsMap.

Fixpoint get {V} (k : string) (m : list (string * V)) : option V :=
  match m with
  | [] => None
  | (k', v) :: m' => if String.eqb k' k then Some v else get k m'
  end.

Fixpoint set {V} (k : string) (v : V) (m : list (string * V)) : list (string * V) :=
  match m with
  | [] => [(k, v)]
  | (k', v') :: m' =>
      if String.eqb k' k then (k', v) :: m' else (k', v') :: set k v m'
  end.

End JsMap.

(** The two builtins the services call.  [JSON_parse] answers [None] where
    the builtin throws a SyntaxError; [JSON_stringify v] is
    [JSON.stringify(v, null, 2)]. *)
Class JsonBuiltins : Type := {
  JSON_parse : string -> option json;
  JSON_stringify : json -> string
}.

(** A reference implementation of the builtins, used to run the services
    on concrete texts.  It covers the JSON texts whose numbers are integer
    literals, whose [\u] escapes stay below 256 and whose objects have no
    integer-like property names; on a text outside of this fragment it
    answers [None], where the builtin may accept. *)
Module RefJson.

Definition hex_digit (n : Z) : ascii :=
  if n <? 10 then chr (48 + n) else chr (87 + n).

Definition quote_char (c : ascii) : list ascii :=
  let n := code c in
  if n =? 34 then [backslash; dquote]
  else if n =? 92 then [backslash; backslash]
  else if n =? 8 then [backslash; "b"%char]
  else if n =? 9 then [backslash; "t"%char]
  else if n =? 10 then [backslash; "n"%char]
  else if n =? 12 then [backslash; "f"%char]
  else if n =? 13 then [backslash; "r"%char]
  else if n <? 32 then
    [backslash; "u"%char; "0"%char; "0"%char; hex_digit (n / 16); hex_digit (n mod 16)]
  else [c].

Definition quote (s : string) : string :=
  str (dquote :: flat_map quote_char (chars s) ++ [dquote]).

Definition nl : string := str [newline].

(** [stringify_at ind v]: the text of [v] when it starts at indentation
    [ind]; nested levels are indented by two more spaces. *)
Fixpoint stringify_at (ind : string) (v : json) : string :=
  match v with
  | JNull => "null"
  | JBool true => "true"
  | JBool false => "false"
  | JNum n => toString10 n
  | JStr s => quote s
  | JArr [] => "[]"
  | JArr items =>
      let ind' := ind +:+ "  " in
      "[" +:+ nl +:+ ind' +:+
      join ("," +:+ nl +:+ ind') (map (stringify_at ind') items) +:+
      nl +:+ ind +:+ "]"
  | JObj [] => "{}"
  | JObj props =>
      let ind' := ind +:+ "  " in
      "{" +:+ nl +:+ ind' +:+
      join ("," +:+ nl +:+ ind')
        (map (fun kv => quote (fst kv) +:+ ": " +:+ stringify_at ind' (snd kv)) props) +:+
      nl +:+ ind +:+ "}"
  end.

Definition stringify (v : json) : string := stringify_at "" v.

(** JSON white space: space, tab, line feed, carriage return. *)
Definition is_ws (c : ascii) : bool :=
  let n := code c in (n =? 32) || (n =? 9) || (n =? 10) || (n =? 13).

Definition is_digit (c : ascii) : bool :=
  let n := code c in (48 <=? n) && (n <=? 57).

Definition hex_value (c : ascii) : option Z :=
  let n := code c in
  if (48 <=? n) && (n <=? 57) then Some (n - 48)
  else if (97 <=? n) && (n <=? 102) then Some (n - 87)
  else if (65 <=? n) && (n <=? 70) then Some (n - 55)
  else None.

(** The characters of a string literal after its opening quote: the
    decoded string and the text after the closing quote. *)
Fixpoint parse_string (acc s : list ascii) : option (string * list ascii) :=
  match s with
  | [] => None
  | c :: s' =>
      if Ascii.eqb c dquote then Some (str (rev acc), s')
      else if Ascii.eqb c backslash then
        match s' with
        | e :: s'' =>
            let simple (d : ascii) := parse_string (d :: acc) s'' in
            if Ascii.eqb e dquote then simple dquote
            else if Ascii.eqb e backslash then simple backslash
            else if Ascii.eqb e "/"%char then simple "/"%char
            else if Ascii.eqb e "b"%char then simple (chr 8)
            else if Ascii.eqb e "f"%char then simple (chr 12)
            else if Ascii.eqb e "n"%char then simple (chr 10)
            else if Ascii.eqb e "r"%char then simple (chr 13)
            else if Ascii.eqb e "t"%char then simple (chr 9)
            else if Ascii.eqb e "u"%char then
              match s'' with
              | h1 :: h2 :: h3 :: h4 :: s3 =>
                  match hex_value h1, hex_value h2, hex_value h3, hex_value h4 with
                  | Some 0, Some 0, Some a, Some b =>
                      parse_string (chr (16 * a + b) :: acc) s3
                  | _, _, _, _ => None
                  end
              | _ => None
              end
            else None
        | [] => None
        end
      else if code c <? 32 then None
      else parse_string (c :: acc) s'
  end.

Fixpoint parse_digits (acc : Z) (s : list ascii) : Z * list ascii :=
  match s with
  | c :: s' =>
      if is_digit c then parse_digits (10 * acc + (code c - 48)) s' else (acc, s)
  | [] => (acc, s)
  end.

(** An integer literal; a fraction or an exponent is outside the
    fragment. *)
Definition parse_number (s : list ascii) : option (Z * list ascii) :=
  let '(neg, s1) :=
    match s with
    | c :: r => if Ascii.eqb c "-"%char then (true, r) else (false, s)
    | [] => (false, s)
    end in
  match s1 with
  | c :: r =>
      if is_digit c then
        let '(n, rest) :=
          if Ascii.eqb c "0"%char then (0, r) else parse_digits 0 s1 in
        match rest with
        | d :: _ =>
            if Ascii.eqb d "."%char || Ascii.eqb d "e"%char || Ascii.eqb d "E"%char
            then None else Some (if neg then - n else n, rest)
        | [] => Some (if neg then - n else n, rest)
        end
      else None
  | [] => None
  end.

Fixpoint expect (word s : list ascii) : option (list ascii) :=
  match word, s with
  | [], _ => Some s
  | w :: word', c :: s' => if Ascii.eqb w c then expect word' s' else None
  | _ :: _, [] => None
  end.

(** Recursive descent.  [parse_value] reads one value, [parse_items] the
    rest of an array after one of its items, [parse_props] the rest of an
    object after one of its properties. *)
Fixpoint parse_value (fuel : nat) (s : list ascii) : option (json * list ascii) :=
  match fuel with
  | O => None
  | S fuel' =>
      match dropWhile is_ws s with
      | [] => None
      | c :: r =>
          if Ascii.eqb c "n"%char then
            option_map (fun r' => (JNull, r')) (expect (chars "ull") r)
          else if Ascii.eqb c "t"%char then
            option_map (fun r' => (JBool true, r')) (expect (chars "rue") r)
          else if Ascii.eqb c "f"%char then
            option_map (fun r' => (JBool false, r')) (expect (chars "alse") r)
          else if Ascii.eqb c dquote then
            option_map (fun sr => (JStr (fst sr), snd sr)) (parse_string [] r)
          else if Ascii.eqb c "["%char then
            match dropWhile is_ws r with
            | d :: r' =>
                if Ascii.eqb d "]"%char then Some (JArr [], r')
                else
                  match parse_value fuel' r with
                  | Some (v, r1) =>
                      option_map (fun ir => (JArr (v :: fst ir), snd ir))
                                 (parse_items fuel' r1)
                  | None => None
                  end
            | [] => None
            end
          else if Ascii.eqb c "{"%char then
            match dropWhile is_ws r with
            | d :: r' =>
                if Ascii.eqb d "}"%char then Some (JObj [], r')
                else
                  if Ascii.eqb d dquote then
                    match parse_string [] r' with
                    | Some (k, r1) =>
                        match dropWhile is_ws r1 with
                        | e :: r2 =>
                            if Ascii.eqb e ":"%char then
                              match parse_value fuel' r2 with
                              | Some (v, r3) =>
                                  option_map
                                    (fun pr => (JObj (fold_left (fun m kv => JsMap.set (fst kv) (snd kv) m)
                                                                (fst pr) [(k, v)]), snd pr))
                                    (parse_props fuel' r3)
                              | None => None
                              end
                            else None
                        | [] => None
                        end
                    | None => None
                    end
                  else None
            | [] => None
            end
          else
            option_map (fun nr => (JNum (fst nr), snd nr)) (parse_number (c :: r))
      end
  end
with parse_items (fuel : nat) (s : list ascii) : option (list json * list ascii) :=
  match fuel with
  | O => None
  | S fuel' =>
      match dropWhile is_ws s with
      | c :: r =>
          if Ascii.eqb c "]"%char then Some ([], r)
          else if Ascii.eqb c ","%char then
            match parse_value fuel' r with
            | Some (v, r1) =>
                option_map (fun ir => (v :: fst ir, snd ir)) (parse_items fuel' r1)
            | None => None
            end
          else None
      | [] => None
      end
  end
with parse_props (fuel : nat) (s : list ascii) : option (list (string * json) * list ascii) :=
  match fuel with
  | O => None
  | S fuel' =>
      match dropWhile is_ws s with
      | c :: r =>
          if Ascii.eqb c "}"%char then Some ([], r)
          else if Ascii.eqb c ","%char then
            match dropWhile is_ws r with
            | d :: r' =>
                if Ascii.eqb d dquote then
                  match parse_string [] r' with
                  | Some (k, r1) =>
                      match dropWhile is_ws r1 with
                      | e :: r2 =>
                          if Ascii.eqb e ":"%char then
                            match parse_value fuel' r2 with
                            | Some (v, r3) =>
                                option_map (fun pr => ((k, v) :: fst pr, snd pr))
                                           (parse_props fuel' r3)
                            | None => None
                            end
                          else None
                      | [] => None
                      end
                  | None => None
                  end
                else None
            | [] => None
            end
          else None
      | [] => None
      end
  end.

(** The whole text is one value, white space around it allowed. *)
Definition parse (text : string) : option json :=
  let s := chars text in
  match parse_value (2 * length s + 2) s with
  | Some (v, r) =>
      match dropWhile is_ws r with
      | [] => Some v
      | _ :: _ => None
      end
  | None => None
  end.

#[local] Instance builtins : JsonBuiltins :=
  {| JSON_parse := parse; JSON_stringify := stringify |}.

End RefJson.

(* ===================================================================== *)
(** * src/types/keybinding.ts                                             *)
(* ===================================================================== *)

Inductive KeybindingSource : Type := User | Extension | Default.

Inductive GovernanceStatus : Type :=
  Pending | Approved | Deactivated | Remapped | Skipped.

#[global] Instance KeybindingSource_eq_dec : EqDecision KeybindingSource.
Proof. solve_decision. Defined.

#[global] Instance GovernanceStatus_eq_dec : EqDecision GovernanceStatus.
Proof. solve_decision. Defined.

Module Keybinding.
Record t : Type := mk {
  id : string;
  key : string;
  command : string;
  when : option string;
  source : KeybindingSource;
  extensionId : option string;
  extensionName : option string;
  mac : option string;
  win : option string;
  linux : option string;
  args : option json
}.
End Keybinding.

Module KeybindingConflict.
Record t : Type := mk {
  key : string;
  bindings : list Keybinding.t;
  involvesUserBinding : bool
}.
End KeybindingConflict.

(** [ToInt32]: what the bit operators [<<] and [&] make of an integer. *)
Definition to_int32 (z : Z) : Z := (z + 2 ^ 31) mod 2 ^ 32 - 2 ^ 31.

(** One round of the loop of [generateKeybindingId]:
    [hash = ((hash << 5) - hash) + char; hash = hash & hash]. *)
Definition hash_step (hash : Z) (c : ascii) : Z :=
  let sum := to_int32 (Z.shiftl (to_int32 hash) 5) - hash + code c in
  Z.land (to_int32 sum) (to_int32 sum).

Definition hash_string (input : string) : Z :=
  fold_left hash_step (chars input) 0.

(** The template [`${key}|${command}|${when ?? ''}`]. *)
Definition id_input (key command : string) (when : option string) : string :=
  key +:+ "|" +:+ command +:+ "|" +:+ default "" when.

Definition generateKeybindingId (key command : string) (when : option string) : string :=
  let hash := hash_string (id_input key command when) in
  substring0 16 (padStart 8 "0"%char (toString16 (Z.abs hash))).

Definition normalizeKey (key : string) : string :=
  join "+" (sort_by String.leb (map trim (split_char "+"%char (toLowerCase key)))).

Definition isNegationCommand (command : string) : bool := startsWith command "-"%char.

Definition getBaseCommand (command : string) : string :=
  if startsWith command "-"%char then substring1 command else command.

(* ===================================================================== *)
(** * src/types/snapshot.ts                                               *)
(* ===================================================================== *)

Module GovernanceDecision.
Record t : Type := mk {
  keybindingId : string;
  status : GovernanceStatus;
  originalKey : option string;
  remappedKey : option string;
  decidedAt : Z;
  extensionId : option string
}.
End GovernanceDecision.

Module GovernanceState.
Record t : Type := mk {
  version : Z;
  decisions : gmap string GovernanceDecision.t;
  extensionVersions : gmap string string;
  initialAuditComplete : bool;
  lastUpdated : Z
}.
End GovernanceState.

Module Snapshot.
Record t : Type := mk {
  id : string;
  name : string;
  createdAt : Z;
  keybindingsContent : string;
  governanceState : GovernanceState.t
}.
End Snapshot.

(* ===================================================================== *)
(** * The host and the monad of the services                              *)
(* ===================================================================== *)

Inductive Platform : Type := Darwin | Win32 | Linux | OtherPlatform.

(** A raw keybinding of an extension's package.json. *)
Module RawExtensionKeybinding.
Record t : Type := mk {
  key : string;
  command : string;
  when : option string;
  mac : option string;
  win : option string;
  linux : option string;
  args : option json
}.
End RawExtensionKeybinding.

(** An installed extension as [vscode.extensions] shows it: [keybindings]
    is [packageJSON.contributes.keybindings] (a lone object counts as the
    list of one), [None] when it is missing. *)
Module InstalledExtension.
Record t : Type := mk {
  id : string;
  displayName : option string;
  version : option string;
  keybindings : option (list RawExtensionKeybinding.t)
}.
End InstalledExtension.

(** Everything the services read and write.
    - [fileContent]: the text of keybindings.json, [None] when it cannot be
      read;
    - [snapshots]: the array stored under [SNAPSHOTS_KEY] in the global
      state (a missing entry reads as the empty array);
    - [state]: the field [state] of the [GovernanceService], which
      [saveState] also stores under [GOVERNANCE_STATE_KEY];
    - [clock], [clockReads]: the value of the n-th call of [Date.now()] and
      the number of calls made so far;
    - [random], [randomReads]: the same for the text
      [Math.random().toString(36).substring(2, 8)];
    - [extensions], [platform]: [vscode.extensions.all] and
      [process.platform]. *)
Module World.
Record t : Type := mk {
  fileContent : option string;
  snapshots : list Snapshot.t;
  state : GovernanceState.t;
  clock : nat -> Z;
  clockReads : nat;
  random : nat -> string;
  randomReads : nat;
  extensions : list InstalledExtension.t;
  platform : Platform
}.

Definition set_fileContent (c : option string) (w : t) : t :=
  mk c (snapshots w) (state w) (clock w) (clockReads w) (random w) (randomReads w)
     (extensions w) (platform w).

Definition set_snapshots (s : list Snapshot.t) (w : t) : t :=
  mk (fileContent w) s (state w) (clock w) (clockReads w) (random w) (randomReads w)
     (extensions w) (platform w).

Definition set_state (g : GovernanceState.t) (w : t) : t :=
  mk (fileContent w) (snapshots w) g (clock w) (clockReads w) (random w) (randomReads w)
     (extensions w) (platform w).

Definition set_clockReads (n : nat) (w : t) : t :=
  mk (fileContent w) (snapshots w) (state w) (clock w) n (random w) (randomReads w)
     (extensions w) (platform w).

Definition set_randomReads (n : nat) (w : t) : t :=
  mk (fileContent w) (snapshots w) (state w) (clock w) (clockReads w) (random w) n
     (extensions w) (platform w).
End World.

Inductive Exn : Type := SyntaxError | TypeError.

Inductive Outcome (A : Type) : Type :=
| Val (a : A)
| Throw (e : Exn).
Arguments Val {A} a.
Arguments Throw {A} e.

(** A method: from the world before the call to its outcome and the
    world after it.  What was written before an exception stays written. *)
Definition M (A : Type) : Type := World.t -> Outcome A * World.t.

Definition ret {A} (a : A) : M A := fun w => (Val a, w).

Definition bind {A B} (m : M A) (k : A -> M B) : M B :=
  fun w =>
    match m w with
    | (Val a, w') => k a w'
    | (Throw e, w') => (Throw e, w')
    end.

Definition throw {A} (e : Exn) : M A := fun w => (Throw e, w).

Definition gets {A} (f : World.t -> A) : M A := fun w => (Val (f w), w).

Definition modify (f : World.t -> World.t) : M unit := fun w => (Val tt, f w).

(** A computation that touches no world: the callback of [findIndex] or
    [filter], which may throw. *)
Definition lift {A} (o : Outcome A) : M A := fun w => (o, w).

Declare Scope monad_scope.
Delimit Scope monad_scope with monad.
Notation "x <- m ;; k" := (bind m (fun x => k))
  (at level 100, m at next level, right associativity) : monad_scope.
Notation "m ;;; k" := (bind m (fun _ => k))
  (at level 100, right associativity) : monad_scope.
Open Scope monad_scope.

(** [for (const x of l) { body }] with the loop state [a]. *)
Fixpoint forM {A B} (l : list B) (body : A -> B -> M A) (a : A) : M A :=
  match l with
  | [] => ret a
  | x :: l' => a' <- body a x ;; forM l' body a'
  end.

(** [Date.now()]. *)
Definition Date_now : M Z :=
  fun w => (Val (World.clock w (World.clockReads w)),
            World.set_clockReads (S (World.clockReads w)) w).

(** [Math.random().toString(36).substring(2, 8)]. *)
Definition Math_random_base36 : M string :=
  fun w => (Val (World.random w (World.randomReads w)),
            World.set_randomReads (S (World.randomReads w)) w).

Definition createEmptyGovernanceState : M GovernanceState.t :=
  now <- Date_now ;;
  ret (GovernanceState.mk 1 ∅ ∅ false now).

Definition generateSnapshotId : M string :=
  now <- Date_now ;;
  r <- Math_random_base36 ;;
  ret ("snapshot-" +:+ toString10 now +:+ "-" +:+ r).

(* ===================================================================== *)
(** * src/services/keybindingsFileService.ts                              *)
(* ===================================================================== *)

(** The entries of keybindings.json are the values [JSON.parse] returns;
    the interface [UserKeybindingEntry] declares them to be objects with
    the properties [key], [command], [when?] and [args?]. *)

(** [kb.name]: [None] is [undefined]; reading a property of [null] throws
    a TypeError. *)
Definition getProp (name : string) (kb : json) : Outcome (option json) :=
  match kb with
  | JNull => Throw TypeError
  | JObj props => Val (JsMap.get name props)
  | _ => Val None
  end.

(** [v === s] for a string [s]. *)
Definition strict_eq_str (v : option json) (s : string) : bool :=
  match v with
  | Some (JStr t) => String.eqb t s
  | _ => false
  end.

(** [!v]. *)
Definition falsy (v : option json) : bool :=
  match v with
  | None | Some JNull | Some (JBool false) | Some (JNum 0) | Some (JStr "") => true
  | Some _ => false
  end.

(** [Array.prototype.findIndex] with a callback that may throw; [None] is
    the answer -1. *)
Fixpoint findIndexFrom {A} (p : A -> Outcome bool) (l : list A) (i : nat)
  : Outcome (option nat) :=
  match l with
  | [] => Val None
  | x :: l' =>
      match p x with
      | Throw e => Throw e
      | Val true => Val (Some i)
      | Val false => findIndexFrom p l' (S i)
      end
  end.

Definition findIndex {A} (p : A -> Outcome bool) (l : list A) : Outcome (option nat) :=
  findIndexFrom p l 0.

(** [Array.prototype.filter] with a callback that may throw. *)
Fixpoint filterO {A} (p : A -> Outcome bool) (l : list A) : Outcome (list A) :=
  match l with
  | [] => Val []
  | x :: l' =>
      match p x with
      | Throw e => Throw e
      | Val b =>
          match filterO p l' with
          | Throw e => Throw e
          | Val r => Val (if b then x :: r else r)
          end
      end
  end.

(** The state of the loop of [stripJsonComments]. *)
Module Strip.
Record t : Type := mk {
  result : list ascii;          (* in reverse *)
  inString : bool;
  inLineComment : bool;
  inBlockComment : bool
}.
End Strip.

(** The body of the loop at [char = content[i]], [nextChar = content[i+1]]
    and [prevChar = content[i-1]]: the new state, and whether [i++] ran. *)
Definition strip_step (st : Strip.t) (prevChar : option ascii) (char : ascii)
  (nextChar : option ascii) : Strip.t * bool :=
  let same (o : option ascii) (c : ascii) :=
    match o with Some d => Ascii.eqb d c | None => false end in
  let '(Strip.mk result inString inLineComment inBlockComment) := st in
  if inString then
    (Strip.mk (char :: result)
              (negb (Ascii.eqb char dquote && negb (same prevChar backslash)))
              inLineComment inBlockComment, false)
  else if inLineComment then
    if Ascii.eqb char newline
    then (Strip.mk (char :: result) inString false inBlockComment, false)
    else (st, false)
  else if inBlockComment then
    if Ascii.eqb char "*"%char && same nextChar "/"%char
    then (Strip.mk result inString inLineComment false, true)
    else (st, false)
  else if Ascii.eqb char dquote then
    (Strip.mk (char :: result) true inLineComment inBlockComment, false)
  else if Ascii.eqb char "/"%char && same nextChar "/"%char then
    (Strip.mk result inString true inBlockComment, true)
  else if Ascii.eqb char "/"%char && same nextChar "*"%char then
    (Strip.mk result inString inLineComment true, true)
  else
    (Strip.mk (char :: result) inString inLineComment inBlockComment, false).

(** The loop over the rest of the content, from index [i] on. *)
Fixpoint strip_loop (st : Strip.t) (prevChar : option ascii) (rest : list ascii)
  : list ascii :=
  match rest with
  | [] => rev (Strip.result st)
  | char :: rest' =>
      let '(st', skip) := strip_step st prevChar char (head rest') in
      if skip then
        match rest' with
        | nextChar :: rest'' => strip_loop st' (Some nextChar) rest''
        | [] => rev (Strip.result st')
        end
      else strip_loop st' (Some char) rest'
  end.

Definition stripJsonComments (content : string) : string :=
  str (strip_loop (Strip.mk [] false false false) None (chars content)).

(** One entry of an export file, with the properties the loop reads, each
    a string when present. *)
Module ImportedShortcut.
Record t : Type := mk {
  key : option string;
  command : option string;
  when : option string;
  status : option string;
  remappedKey : option string;
  extensionId : option string;
  extensionName : option string
}.
End ImportedShortcut.

Section Services.
Context `{JsonBuiltins}.

(** [try { ... } catch { return [] }]; the message on the console is not
    modelled. *)
Definition parseKeybindings (content : string) : list json :=
  match JSON_parse (stripJsonComments content) with
  | Some (JArr parsed) => parsed
  | Some _ => []
  | None => []
  end.

Definition readRaw : M string :=
  gets (fun w => default "[]" (World.fileContent w)).

Definition read : M (list json) :=
  content <- readRaw ;;
  ret (parseKeybindings content).

Definition write (keybindings : list json) : M unit :=
  modify (World.set_fileContent (Some (JSON_stringify (JArr keybindings)))).

Definition addEntry (entry : json) : M unit :=
  keybindings <- read ;;
  write (keybindings ++ [entry]).

(** The object literal [{ key, command }] with [when] added when it is
    truthy. *)
Definition makeEntry (key command : string) (when : option string) : json :=
  JObj ([("key", JStr key); ("command", JStr command)] ++
        (if truthy when then [("when", JStr (default "" when))] else [])).

Definition deactivateKeybinding (key command : string) (when : option string) : M unit :=
  addEntry (makeEntry key ("-" +:+ command) when).

(** The callback of [findIndex] in [restoreKeybinding]. *)
Definition matchesNegation (key negatedCommand : string) (when : option string)
  (kb : json) : Outcome bool :=
  match getProp "key" kb, getProp "command" kb, getProp "when" kb with
  | Val k, Val c, Val w =>
      let keyMatches := strict_eq_str k key in
      let commandMatches := strict_eq_str c negatedCommand in
      let whenMatches :=
        if truthy when then strict_eq_str w (default "" when) else falsy w in
      Val (keyMatches && commandMatches && whenMatches)
  | Throw e, _, _ => Throw e
  | _, Throw e, _ => Throw e
  | _, _, Throw e => Throw e
  end.

Definition restoreKeybinding (key command : string) (when : option string) : M bool :=
  keybindings <- read ;;
  let negatedCommand := "-" +:+ command in
  index <- lift (findIndex (matchesNegation key negatedCommand when) keybindings) ;;
  match index with
  | None => ret false
  | Some i =>
      write (delete i keybindings) ;;;
      ret true
  end.

(** The callback of [filter] in [remapKeybinding]: keep the entries that
    are not related to the command. *)
Definition unrelatedTo (command negatedCommand : string) (kb : json) : Outcome bool :=
  match getProp "command" kb with
  | Val c =>
      let isNegation := strict_eq_str c negatedCommand in
      let isPositive := strict_eq_str c command in
      Val (negb isNegation && negb isPositive)
  | Throw e => Throw e
  end.

Definition remapKeybinding (originalKey newKey command : string) (when : option string)
  : M unit :=
  keybindings <- read ;;
  let negatedCommand := "-" +:+ command in
  keybindings <- lift (filterO (unrelatedTo command negatedCommand) keybindings) ;;
  let negationEntry := makeEntry originalKey negatedCommand when in
  let newEntry := makeEntry newKey command when in
  write (keybindings ++ [negationEntry; newEntry]).

Definition removeRemapEntries (command : string) : M bool :=
  keybindings <- read ;;
  let negatedCommand := "-" +:+ command in
  let originalLength := length keybindings in
  filtered <- lift (filterO (unrelatedTo command negatedCommand) keybindings) ;;
  if (length filtered <? originalLength)%nat
  then write filtered ;;; ret true
  else ret false.

(* --------------------------------------------------------------------- *)
(** ** src/services/snapshotService.ts                                    *)
(* --------------------------------------------------------------------- *)

Definition MAX_SNAPSHOTS : nat := 10.

Definition isBase (s : Snapshot.t) : Prop := Snapshot.name s = "Base Snapshot".

(** [globalState.get] hands out the stored array itself, which [sort]
    then orders in place: newest first, ties in their stored order. *)
Definition getSnapshots : M (list Snapshot.t) :=
  fun w =>
    let sorted :=
      sort_by (fun a b => Snapshot.createdAt b <=? Snapshot.createdAt a)
              (World.snapshots w) in
    (Val sorted, World.set_snapshots sorted w).

Definition saveSnapshot (snapshot : Snapshot.t) : M unit :=
  snapshots <- getSnapshots ;;
  let base := list_find isBase snapshots in
  let baseSnapshot : option Snapshot.t := snd <$> base in
  let snapshots :=
    match base with
    | Some (baseIndex, _) => delete baseIndex snapshots
    | None => snapshots
    end in
  let snapshots := snapshot :: snapshots in
  let limit := (MAX_SNAPSHOTS - (if baseSnapshot is Some _ then 1 else 0))%nat in
  let snapshots :=
    if (limit <? length snapshots)%nat then take limit snapshots else snapshots in
  let snapshots :=
    match baseSnapshot with
    | Some b => snapshots ++ [b]
    | None => snapshots
    end in
  modify (World.set_snapshots snapshots).

Definition createSnapshot (name : string) (governanceState : GovernanceState.t)
  : M Snapshot.t :=
  keybindingsContent <- readRaw ;;
  id <- generateSnapshotId ;;
  createdAt <- Date_now ;;
  let snapshot := Snapshot.mk id name createdAt keybindingsContent governanceState in
  saveSnapshot snapshot ;;;
  ret snapshot.

Definition createBaseSnapshot (governanceState : GovernanceState.t) : M Snapshot.t :=
  existingSnapshots <- getSnapshots ;;
  match list_find isBase existingSnapshots with
  | Some (_, baseSnapshot) => ret baseSnapshot
  | None => createSnapshot "Base Snapshot" governanceState
  end.

Definition restoreSnapshot (snapshotId : string) : M (option GovernanceState.t) :=
  snapshots <- getSnapshots ;;
  match list_find (fun s => Snapshot.id s = snapshotId) snapshots with
  | None => ret None
  | Some (_, snapshot) =>
      match JSON_parse (Snapshot.keybindingsContent snapshot) with
      | None => throw SyntaxError
      | Some parsed =>
          write (match parsed with JArr items => items | _ => [] end) ;;;
          ret (Some (Snapshot.governanceState snapshot))
      end
  end.

Definition deleteSnapshot (snapshotId : string) : M bool :=
  snapshots <- getSnapshots ;;
  match list_find (fun s => Snapshot.id s = snapshotId) snapshots with
  | None => ret false
  | Some (index, _) =>
      modify (World.set_snapshots (delete index snapshots)) ;;;
      ret true
  end.

(* --------------------------------------------------------------------- *)
(** ** src/services/keybindingParser.ts, src/utils/platform.ts            *)
(* --------------------------------------------------------------------- *)

(** [a || b] on an optional string and a string. *)
Definition or_else (a : option string) (b : string) : string :=
  if truthy a then default "" a else b.

Definition getPlatformKey (platform : Platform) (raw : RawExtensionKeybinding.t) : string :=
  match platform with
  | Darwin => or_else (RawExtensionKeybinding.mac raw) (RawExtensionKeybinding.key raw)
  | Win32 => or_else (RawExtensionKeybinding.win raw) (RawExtensionKeybinding.key raw)
  | Linux => or_else (RawExtensionKeybinding.linux raw) (RawExtensionKeybinding.key raw)
  | OtherPlatform => RawExtensionKeybinding.key raw
  end.

(** The object literal that both [getExtensionKeybindings] and
    [getKeybindingsForExtension] map over the raw bindings. *)
Definition extensionBinding (platform : Platform) (extension : InstalledExtension.t)
  (raw : RawExtensionKeybinding.t) : Keybinding.t :=
  let key := getPlatformKey platform raw in
  Keybinding.mk
    (generateKeybindingId key (RawExtensionKeybinding.command raw)
                          (RawExtensionKeybinding.when raw))
    key
    (RawExtensionKeybinding.command raw)
    (RawExtensionKeybinding.when raw)
    Extension
    (Some (InstalledExtension.id extension))
    (Some (or_else (InstalledExtension.displayName extension)
                   (InstalledExtension.id extension)))
    (RawExtensionKeybinding.mac raw)
    (RawExtensionKeybinding.win raw)
    (RawExtensionKeybinding.linux raw)
    (RawExtensionKeybinding.args raw).

(** [vscode.extensions.getExtension(extensionId)], taken as the first
    installed extension with this id. *)
Definition getExtension (extensionId : string) (w : World.t)
  : option InstalledExtension.t :=
  snd <$> list_find (fun e => InstalledExtension.id e = extensionId) (World.extensions w).

Definition keybindingsForExtension (extensionId : string) (w : World.t)
  : list Keybinding.t :=
  match getExtension extensionId w with
  | None => []
  | Some extension =>
      match InstalledExtension.keybindings extension with
      | None => []
      | Some rawBindings => map (extensionBinding (World.platform w) extension) rawBindings
      end
  end.

Definition getKeybindingsForExtension (extensionId : string) : M (list Keybinding.t) :=
  gets (keybindingsForExtension extensionId).

(* --------------------------------------------------------------------- *)
(** ** src/services/governanceService.ts                                  *)
(* --------------------------------------------------------------------- *)

Definition with_decisions (f : gmap string GovernanceDecision.t -> gmap string GovernanceDecision.t)
  (g : GovernanceState.t) : GovernanceState.t :=
  GovernanceState.mk (GovernanceState.version g) (f (GovernanceState.decisions g))
    (GovernanceState.extensionVersions g) (GovernanceState.initialAuditComplete g)
    (GovernanceState.lastUpdated g).

Definition with_lastUpdated (t : Z) (g : GovernanceState.t) : GovernanceState.t :=
  GovernanceState.mk (GovernanceState.version g) (GovernanceState.decisions g)
    (GovernanceState.extensionVersions g) (GovernanceState.initialAuditComplete g) t.

Definition modify_state (f : GovernanceState.t -> GovernanceState.t) : M unit :=
  modify (fun w => World.set_state (f (World.state w)) w).

(** [saveState]: stamps the state, stores it and notifies the listeners
    (the notification is not modelled). *)
Definition saveState : M unit :=
  now <- Date_now ;;
  modify_state (with_lastUpdated now).


Definition setState (state : GovernanceState.t) : M unit :=
  modify (World.set_state state) ;;;
  saveState.

Definition getDecision (keybindingId : string) : M (option GovernanceDecision.t) :=
  gets (fun w => GovernanceState.decisions (World.state w) !! keybindingId).

(** [this.state.decisions[keybindingId]?.status ?? 'pending']. *)
Definition getStatus (keybindingId : string) : M GovernanceStatus :=
  gets (fun w =>
          match GovernanceState.decisions (World.state w) !! keybindingId with
          | Some decision => GovernanceDecision.status decision
          | None => Pending
          end).

(** The decision object of [recordDecision]: the literal, and the two
    keys assigned under [status === 'remapped' && remappedKey]. *)
Definition makeDecision (keybinding : Keybinding.t) (status : GovernanceStatus)
  (remappedKey : option string) (now : Z) : GovernanceDecision.t :=
  let remap := bool_decide (status = Remapped) && truthy remappedKey in
  GovernanceDecision.mk
    (Keybinding.id keybinding)
    status
    (if remap then Some (Keybinding.key keybinding) else None)
    (if remap then remappedKey else None)
    now
    (Keybinding.extensionId keybinding).

Definition recordDecision (keybinding : Keybinding.t) (status : GovernanceStatus)
  (remappedKey : option string) : M unit :=
  now <- Date_now ;;
  let decision := makeDecision keybinding status remappedKey now in
  modify_state (with_decisions (insert (Keybinding.id keybinding) decision)) ;;;
  saveState.

Inductive DecisionAction : Type := ActionDeactivate | ActionRemap.

Definition applyDecision (keybinding : Keybinding.t) (action : DecisionAction)
  (newKey : option string) : M unit :=
  match action with
  | ActionDeactivate =>
      deactivateKeybinding (Keybinding.key keybinding) (Keybinding.command keybinding)
                           (Keybinding.when keybinding) ;;;
      recordDecision keybinding Deactivated None
  | ActionRemap =>
      if truthy newKey then
        remapKeybinding (Keybinding.key keybinding) (default "" newKey)
                        (Keybinding.command keybinding) (Keybinding.when keybinding) ;;;
        recordDecision keybinding Remapped newKey
      else ret tt
  end.

Definition approveKeybinding (keybinding : Keybinding.t) : M unit :=
  recordDecision keybinding Approved None.

Definition unapproveKeybinding (keybinding : Keybinding.t) : M unit :=
  modify_state (with_decisions (delete (Keybinding.id keybinding))) ;;;
  saveState.

Definition skipKeybinding (keybinding : Keybinding.t) : M unit :=
  recordDecision keybinding Skipped None.

Definition GovernanceService_restoreKeybinding (keybinding : Keybinding.t) : M unit :=
  restoreKeybinding (Keybinding.key keybinding) (Keybinding.command keybinding)
                    (Keybinding.when keybinding) ;;;
  recordDecision keybinding Pending None.

Definition restoreRemappedKeybinding (keybinding : Keybinding.t) : M unit :=
  removeRemapEntries (Keybinding.command keybinding) ;;;
  recordDecision keybinding Pending None.

(** The four batch operations share one loop over the bindings of the
    extension; its body acts on a binding whose status is [wanted], and
    counts it. *)
Definition batchBody (wanted : GovernanceStatus) (act : Keybinding.t -> M unit)
  (count : nat) (kb : Keybinding.t) : M nat :=
  status <- getStatus (Keybinding.id kb) ;;
  if bool_decide (status = wanted)
  then act kb ;;; ret (S count)
  else ret count.

Definition batchFromExtension (extensionId : string) (wanted : GovernanceStatus)
  (act : Keybinding.t -> M unit) : M nat :=
  keybindings <- getKeybindingsForExtension extensionId ;;
  forM keybindings (batchBody wanted act) O.

Definition approveAllFromExtension (extensionId : string) : M nat :=
  batchFromExtension extensionId Pending approveKeybinding.

Definition unapproveAllFromExtension (extensionId : string) : M nat :=
  batchFromExtension extensionId Approved unapproveKeybinding.

Definition deactivateAllFromExtension (extensionId : string) : M nat :=
  batchFromExtension extensionId Pending
                     (fun kb => applyDecision kb ActionDeactivate None).

Definition restoreAllFromExtension (extensionId : string) : M nat :=
  batchFromExtension extensionId Deactivated GovernanceService_restoreKeybinding.

(* --------------------------------------------------------------------- *)
(** ** The import loop of src/providers/auditPanelProvider.ts             *)
(* --------------------------------------------------------------------- *)

(** The panel's own copy of the identity function: no [padStart]. *)
Definition Panel_generateKeybindingId (key command : string) (when : option string)
  : string :=
  let hash := hash_string (id_input key command when) in
  substring0 16 (toString16 (Z.abs hash)).

(** The keybinding object the loop builds from an entry of the file. *)
Definition importedBinding (shortcut : ImportedShortcut.t) : Keybinding.t :=
  let key := default "" (ImportedShortcut.key shortcut) in
  let command := default "" (ImportedShortcut.command shortcut) in
  Keybinding.mk
    (Panel_generateKeybindingId key command (ImportedShortcut.when shortcut))
    key command (ImportedShortcut.when shortcut) Extension
    (ImportedShortcut.extensionId shortcut)
    (ImportedShortcut.extensionName shortcut)
    None None None None.

(** The loop over the shortcuts of the file: the numbers of applied and
    of skipped entries. *)
Definition importShortcuts (shortcuts : list ImportedShortcut.t) : M (nat * nat) :=
  forM shortcuts
       (fun counts shortcut =>
          let '(appliedCount, skippedCount) := counts in
          if negb (truthy (ImportedShortcut.key shortcut))
             || negb (truthy (ImportedShortcut.command shortcut))
             || negb (truthy (ImportedShortcut.status shortcut))
          then ret (appliedCount, S skippedCount)
          else
            let status := default "" (ImportedShortcut.status shortcut) in
            let kb := importedBinding shortcut in
            if String.eqb status "deactivated" then
              applyDecision kb ActionDeactivate None ;;;
              ret (S appliedCount, skippedCount)
            else if String.eqb status "remapped"
                    && truthy (ImportedShortcut.remappedKey shortcut) then
              applyDecision kb ActionRemap (ImportedShortcut.remappedKey shortcut) ;;;
              ret (S appliedCount, skippedCount)
            else if String.eqb status "approved" then
              approveKeybinding kb ;;;
              ret (S appliedCount, skippedCount)
            else if String.eqb status "skipped" then
              skipKeybinding kb ;;;
              ret (S appliedCount, skippedCount)
            else if String.eqb status "pending" then
              ret (S appliedCount, skippedCount)
            else ret (appliedCount, S skippedCount))
       (O, O).

End Services.

(* ===================================================================== *)
(** * src/services/conflictService.ts                                     *)
(* ===================================================================== *)

(** One part of a when clause, added to the map of conditions. *)
Definition addCondition (conditions : list (string * bool)) (part : string)
  : list (string * bool) :=
  let trimmed := trim part in
  if startsWith trimmed "!"%char then
    JsMap.set (substring1 trimmed) false conditions
  else if includes2 "="%char "="%char (chars trimmed) then
    match map trim (split_str2 "="%char "="%char trimmed) with
    | key :: value :: _ => JsMap.set key (String.eqb value "true") conditions
    | _ => conditions
    end
  else JsMap.set trimmed true conditions.

Definition parseWhenConditions (when : string) : list (string * bool) :=
  fold_left addCondition (split_and when) [].

Definition contextsOverlap (when1 when2 : option string) : bool :=
  if negb (truthy when1) && negb (truthy when2) then true
  else if negb (truthy when1) || negb (truthy when2) then true
  else
    let conditions1 := parseWhenConditions (default "" when1) in
    let conditions2 := parseWhenConditions (default "" when2) in
    forallb (fun kv =>
               match JsMap.get (fst kv) conditions2 with
               | Some otherValue => Bool.eqb otherValue (snd kv)
               | None => true
               end)
            conditions1.

(** The inner loop of [groupByContext] for the seed [bindings[i]], over
    the indices [js]: the group and the set of processed indices. *)
Definition absorb (bindings : list Keybinding.t) (seed : Keybinding.t)
  (st : list Keybinding.t * gset nat) (j : nat) : list Keybinding.t * gset nat :=
  let '(group, processed) := st in
  if decide (j ∈ processed) then st
  else
    match bindings !! j with
    | Some bj =>
        if contextsOverlap (Keybinding.when seed) (Keybinding.when bj)
        then (group ++ [bj], {[j]} ∪ processed)
        else st
    | None => st
    end.

(** The body of the outer loop at index [i]. *)
Definition seedAt (bindings : list Keybinding.t)
  (st : list (list Keybinding.t) * gset nat) (i : nat)
  : list (list Keybinding.t) * gset nat :=
  let '(groups, processed) := st in
  if decide (i ∈ processed) then st
  else
    match bindings !! i with
    | Some bi =>
        let n := length bindings in
        let '(group, processed') :=
          fold_left (absorb bindings bi) (seq (S i) (n - S i)) ([bi], {[i]} ∪ processed) in
        (groups ++ [group], processed')
    | None => st
    end.

Definition groupByContext (bindings : list Keybinding.t) : list (list Keybinding.t) :=
  fst (fold_left (seedAt bindings) (seq 0 (length bindings)) ([], ∅)).

(** The first loop of [detectConflicts]: one more binding in the map from
    normalized keys to the bindings that have them. *)
Definition addToKeyMap (keyMap : list (string * list Keybinding.t)) (binding : Keybinding.t)
  : list (string * list Keybinding.t) :=
  let normalizedKey := normalizeKey (Keybinding.key binding) in
  let existing := default [] (JsMap.get normalizedKey keyMap) in
  JsMap.set normalizedKey (existing ++ [binding]) keyMap.

Definition isUserBinding (b : Keybinding.t) : bool :=
  bool_decide (Keybinding.source b = User).

(** The conflict pushed for a group; a group has its seed at index 0. *)
Definition conflictOf (group : list Keybinding.t) : KeybindingConflict.t :=
  KeybindingConflict.mk
    (match group with b :: _ => Keybinding.key b | [] => "" end)
    group
    (existsb isUserBinding group).

Definition conflictsOfBucket (bindings : list Keybinding.t) : list KeybindingConflict.t :=
  if (1 <? length bindings)%nat then
    map conflictOf
        (List.filter (fun group => (1 <? length group)%nat) (groupByContext bindings))
  else [].

Definition detectConflicts (userBindings extensionBindings : list Keybinding.t)
  : list KeybindingConflict.t :=
  let allBindings := userBindings ++ extensionBindings in
  let keyMap := fold_left addToKeyMap allBindings [] in
  flat_map (fun entry => conflictsOfBucket (snd entry)) keyMap.

(* --------------------------------------------------------------------- *)
(** ** The construction as the specification words it                     *)
(* --------------------------------------------------------------------- *)

(** Seed on the first element that is left, absorb every remaining
    element related to the seed, and go on with the others. *)
Equations? clusterBy {A} (related : A -> A -> bool) (l : list A) : list (list A)
  by wf (length l) lt :=
clusterBy related [] := [];
clusterBy related (seed :: rest) :=
  (seed :: List.filter (related seed) rest)
    :: clusterBy related (List.filter (fun x => negb (related seed x)) rest).
Proof. simpl. pose proof (List.filter_length_le (fun x => negb (related seed x)) rest). lia. Qed.

Definition sameNormalizedKey (a b : Keybinding.t) : bool :=
  String.eqb (normalizeKey (Keybinding.key a)) (normalizeKey (Keybinding.key b)).

Definition overlapping (a b : Keybinding.t) : bool :=
  contextsOverlap (Keybinding.when a) (Keybinding.when b).

(** Buckets by normalized key over all bindings, user bindings first;
    in each bucket of two or more the groups seeded in bucket order; of
    these, the groups of two or more. *)
Definition detectConflicts_spec (userBindings extensionBindings : list Keybinding.t)
  : list KeybindingConflict.t :=
  flat_map
    (fun bucket =>
       if (2 <=? length bucket)%nat then
         map conflictOf
             (List.filter (fun group => (2 <=? length group)%nat)
                          (clusterBy overlapping bucket))
       else [])
    (clusterBy sameNormalizedKey (userBindings ++ extensionBindings)).

(* ===================================================================== *)
(** * More of the services                                                *)
(* ===================================================================== *)

(* --------------------------------------------------------------------- *)
(** ** src/services/snapshotService.ts: lookup and renaming               *)
(* --------------------------------------------------------------------- *)

Definition getSnapshot (snapshotId : string) : M (option Snapshot.t) :=
  snapshots <- getSnapshots ;;
  ret (snd <$> list_find (fun s => Snapshot.id s = snapshotId) snapshots).

(** [snapshot.name = newName] on an element of the stored array. *)
Definition withName (newName : string) (snapshot : Snapshot.t) : Snapshot.t :=
  Snapshot.mk (Snapshot.id snapshot) newName (Snapshot.createdAt snapshot)
              (Snapshot.keybindingsContent snapshot) (Snapshot.governanceState snapshot).

Definition renameSnapshot (snapshotId newName : string) : M bool :=
  snapshots <- getSnapshots ;;
  match list_find (fun s => Snapshot.id s = snapshotId) snapshots with
  | None => ret false
  | Some (index, snapshot) =>
      modify (World.set_snapshots (<[index := withName newName snapshot]> snapshots)) ;;;
      ret true
  end.

(* --------------------------------------------------------------------- *)
(** ** src/commands/snapshot.ts: the restore command                      *)
(* --------------------------------------------------------------------- *)

Section SnapshotCommands.
Context `{JsonBuiltins}.

(** [restoreSnapshot] of the commands, once the user has picked
    [selectedId] from the list and confirmed; the messages are not
    modelled, the answer says whether the restore is reported as done. *)
Definition restoreSnapshotCommand (selectedId : string) : M bool :=
  snapshots <- getSnapshots ;;
  if (length snapshots =? 0)%nat then ret false
  else
    restoredState <- restoreSnapshot selectedId ;;
    match restoredState with
    | Some restored =>
        setState restored ;;;
        getSnapshot selectedId ;;;
        ret true
    | None => ret false
    end.

End SnapshotCommands.

(* --------------------------------------------------------------------- *)
(** ** src/services/keybindingParser.ts: all extensions                   *)
(* --------------------------------------------------------------------- *)

Module ExtensionKeybindings.
Record t : Type := mk {
  id : string;
  name : string;
  version : string;
  keybindings : list Keybinding.t
}.
End ExtensionKeybindings.

(** One turn of the loop of [getExtensionKeybindings]: nothing is pushed
    for an extension without keybindings or with an empty array. *)
Definition extensionGroup (platform : Platform) (extension : InstalledExtension.t)
  : option ExtensionKeybindings.t :=
  match InstalledExtension.keybindings extension with
  | None => None
  | Some [] => None
  | Some rawBindings =>
      Some (ExtensionKeybindings.mk
              (InstalledExtension.id extension)
              (or_else (InstalledExtension.displayName extension)
                       (InstalledExtension.id extension))
              (or_else (InstalledExtension.version extension) "0.0.0")
              (map (extensionBinding platform extension) rawBindings))
  end.

Definition getExtensionKeybindings : M (list ExtensionKeybindings.t) :=
  gets (fun w => omap (extensionGroup (World.platform w)) (World.extensions w)).

Definition getAllExtensionKeybindings : M (list Keybinding.t) :=
  extensionBindings <- getExtensionKeybindings ;;
  ret (flat_map ExtensionKeybindings.keybindings extensionBindings).

(** The object [versions] as the list of its entries, in the order of
    [Object.entries] (extension ids are no array indices, so this is the
    order of insertion). *)
Definition addVersion (versions : list (string * string)) (extension : InstalledExtension.t)
  : list (string * string) :=
  if InstalledExtension.keybindings extension is Some _
  then JsMap.set (InstalledExtension.id extension)
                 (or_else (InstalledExtension.version extension) "0.0.0") versions
  else versions.

Definition getExtensionVersions : M (list (string * string)) :=
  gets (fun w => fold_left addVersion (World.extensions w) []).

(* --------------------------------------------------------------------- *)
(** ** src/services/governanceService.ts: the rest of the state           *)
(* --------------------------------------------------------------------- *)



Definition isFirstRun : M bool :=
  gets (fun w => negb (GovernanceState.initialAuditComplete (World.state w))).


(** [Array.prototype.filter] with a callback that reads the world. *)
Fixpoint filterM {A} (p : A -> M bool) (l : list A) : M (list A) :=
  match l with
  | [] => ret []
  | x :: l' =>
      keep <- p x ;;
      rest <- filterM p l' ;;
      ret (if keep then x :: rest else rest)
  end.

Definition isPending (kb : Keybinding.t) : M bool :=
  status <- getStatus (Keybinding.id kb) ;;
  ret (bool_decide (status = Pending)).

Definition getPendingKeybindings (keybindings : list Keybinding.t) : M (list Keybinding.t) :=
  filterM isPending keybindings.


(** One turn of the loop of [getNewOrUpdatedExtensions]: what is pushed
    for an entry of the current versions; the boolean is [isNew]. *)
Definition versionChange (stored : gmap string string) (entry : string * string)
  : list (string * bool) :=
  let '(extensionId, version) := entry in
  let storedVersion := stored !! extensionId in
  if negb (truthy storedVersion) then [(extensionId, true)]
  else if negb (String.eqb (default "" storedVersion) version) then [(extensionId, false)]
  else [].

Definition getNewOrUpdatedExtensions : M (list (string * bool)) :=
  currentVersions <- getExtensionVersions ;;
  stored <- gets (fun w => GovernanceState.extensionVersions (World.state w)) ;;
  ret (flat_map (versionChange stored) currentVersions).

Definition getNewKeybindings : M (list Keybinding.t) :=
  allExtensionBindings <- getAllExtensionKeybindings ;;
  filterM isPending allExtensionBindings.

Definition resetAllDecisions : M unit :=
  empty <- createEmptyGovernanceState ;;
  modify (World.set_state empty) ;;;
  saveState.

(* --------------------------------------------------------------------- *)
(** ** src/services/extensionWatcher.ts                                   *)
(* --------------------------------------------------------------------- *)

Module NewShortcutsNotification.
Record t : Type := mk {
  extensionId : string;
  extensionName : string;
  newCount : nat;
  keybindingIds : list string
}.
End NewShortcutsNotification.




(* --------------------------------------------------------------------- *)
(** ** src/extension.ts: activation                                       *)
(* --------------------------------------------------------------------- *)



Module Statistics.
Record t : Type := mk {
  total : nat;
  pending : nat;
  approved : nat;
  deactivated : nat;
  remapped : nat;
  skipped : nat
}.
End Statistics.

Definition countStatus (status : GovernanceStatus) (decisions : list GovernanceDecision.t)
  : nat :=
  length (List.filter (fun d => bool_decide (GovernanceDecision.status d = status)) decisions).

(** [Object.values(this.state.decisions)]; only lengths are taken, so
    the order of the values does not matter. *)
Definition getStatistics : M Statistics.t :=
  gets (fun w =>
          let decisions := snd <$> map_to_list (GovernanceState.decisions (World.state w)) in
          Statistics.mk (length decisions) 0
                        (countStatus Approved decisions)
                        (countStatus Deactivated decisions)
                        (countStatus Remapped decisions)
                        (countStatus Skipped decisions)).

Section Cleanup.
Context `{JsonBuiltins}.

(** The body of the loop of [cleanupKeybindingsFile]; the answers of the
    file service are not looked at. *)
Definition cleanupBody (cleanedCount : nat) (kb : Keybinding.t) : M nat :=
  decision <- getDecision (Keybinding.id kb) ;;
  match GovernanceDecision.status <$> decision with
  | Some Deactivated =>
      restoreKeybinding (Keybinding.key kb) (Keybinding.command kb) (Keybinding.when kb) ;;;
      ret (S cleanedCount)
  | Some Remapped =>
      removeRemapEntries (Keybinding.command kb) ;;;
      ret (S cleanedCount)
  | _ => ret cleanedCount
  end.

Definition cleanupKeybindingsFile : M nat :=
  allExtBindings <- getAllExtensionKeybindings ;;
  forM allExtBindings cleanupBody O.

Definition prepareForUninstall : M nat :=
  cleanedCount <- cleanupKeybindingsFile ;;
  resetAllDecisions ;;;
  ret cleanedCount.

End Cleanup.

(* --------------------------------------------------------------------- *)
(** ** src/services/conflictService.ts: queries on the conflicts          *)
(* --------------------------------------------------------------------- *)

Definition getConflictsForBinding (binding : Keybinding.t)
  (allConflicts : list KeybindingConflict.t) : list KeybindingConflict.t :=
  List.filter
    (fun conflict =>
       existsb (fun b => String.eqb (Keybinding.id b) (Keybinding.id binding))
               (KeybindingConflict.bindings conflict))
    allConflicts.

Definition getConflictingKeys (conflicts : list KeybindingConflict.t) : gset string :=
  list_to_set (map (fun c => normalizeKey (KeybindingConflict.key c)) conflicts).

Definition hasConflict (key : string) (conflicts : list KeybindingConflict.t) : bool :=
  let normalized := normalizeKey key in
  existsb (fun c => String.eqb (normalizeKey (KeybindingConflict.key c)) normalized) conflicts.

(* --------------------------------------------------------------------- *)
(** ** src/providers/auditPanelProvider.ts: conflicts and lookups         *)
(* --------------------------------------------------------------------- *)

(** The callback of the filter [activeExtension]. *)
Definition isActive (kb : Keybinding.t) : M bool :=
  status <- getStatus (Keybinding.id kb) ;;
  ret (negb (bool_decide (status = Deactivated)) && negb (bool_decide (status = Remapped))).

Definition hasExtensionBinding (c : KeybindingConflict.t) : bool :=
  existsb (fun b => bool_decide (Keybinding.source b = Extension))
          (KeybindingConflict.bindings c).

(** The conflicts of [getAuditData], from the user bindings and the
    extension bindings the parser returned. *)
Definition getAuditData_conflicts (user extension : list Keybinding.t)
  : M (list KeybindingConflict.t) :=
  activeExtension <- filterM isActive extension ;;
  let allConflicts := detectConflicts user activeExtension in
  ret (List.filter hasExtensionBinding allConflicts).

Definition findKeybindingById (keybindingId : string) : M (option Keybinding.t) :=
  allBindings <- getAllExtensionKeybindings ;;
  ret (find (fun k => String.eqb (Keybinding.id k) keybindingId) allBindings).

Definition findKeybinding (keybindingId extensionId : string) : M (option Keybinding.t) :=
  keybindings <- getKeybindingsForExtension extensionId ;;
  ret (find (fun k => String.eqb (Keybinding.id k) keybindingId) keybindings).

Section Panel.
Context `{JsonBuiltins}.

(** The loops of the message [deactivateAllConflicting], after the user
    has confirmed. *)
Definition deactivateConflicting (conflicts : list KeybindingConflict.t) : M unit :=
  forM conflicts
       (fun _ conflict =>
          forM (KeybindingConflict.bindings conflict)
               (fun _ binding =>
                  if bool_decide (Keybinding.source binding = Extension)
                  then applyDecision binding ActionDeactivate None
                  else ret tt)
               tt)
       tt.

Definition deactivateAllConflicting (user extension : list Keybinding.t) : M unit :=
  activeExtension <- filterM isActive extension ;;
  let conflicts := detectConflicts user activeExtension in
  deactivateConflicting conflicts.

End Panel.

(* ===================================================================== *)
(** * Vocabulary of the properties                                        *)
(* ===================================================================== *)

(** The relation between the status and the two keys of a decision. *)
Definition decision_wf (d : GovernanceDecision.t) : Prop :=
  GovernanceDecision.status d = Remapped
  <-> is_Some (GovernanceDecision.originalKey d)
      /\ is_Some (GovernanceDecision.remappedKey d).

Definition decisions_wf (decisions : gmap string GovernanceDecision.t) : Prop :=
  map_Forall (fun _ d => decision_wf d) decisions.

(** [keeps P m]: the method [m] keeps the property [P] of the decisions
    map, whatever its outcome. *)
Definition keeps {A} (P : gmap string GovernanceDecision.t -> Prop) (m : M A) : Prop :=
  forall w, P (GovernanceState.decisions (World.state w)) ->
            P (GovernanceState.decisions (World.state (snd (m w)))).

(** [frames m]: the method [m] does not touch the governance state. *)
Definition frames {A} (m : M A) : Prop :=
  forall w, World.state (snd (m w)) = World.state w.

(** The number of snapshots of the history that are not the Base. *)
Definition nonBaseCount (snapshots : list Snapshot.t) : nat :=
  length (filter (fun s => ~ isBase s) snapshots).

(** A sequence of snapshot creations, each with its name and the
    governance state it captures. *)
Definition createSnapshots (requests : list (string * GovernanceState.t)) : M unit :=
  forM requests (fun _ r => createSnapshot (fst r) (snd r) ;;; ret tt) tt.

(** The list that [saveSnapshot] stores, from the sorted history. *)
Definition savedHistory (snapshot : Snapshot.t) (sorted : list Snapshot.t)
  : list Snapshot.t :=
  match list_find isBase sorted with
  | Some (baseIndex, base) =>
      take (MAX_SNAPSHOTS - 1) (snapshot :: delete baseIndex sorted) ++ [base]
  | None => take MAX_SNAPSHOTS (snapshot :: sorted)
  end.

Definition newestFirst (a b : Snapshot.t) : bool :=
  Snapshot.createdAt b <=? Snapshot.createdAt a.

(** The bindings at the indices [js] that are not yet processed, in the
    order of [js]. *)
Fixpoint remaining (bindings : list Keybinding.t) (js : list nat) (processed : gset nat)
  : list Keybinding.t :=
  match js with
  | [] => []
  | j :: js' =>
      if decide (j ∈ processed) then remaining bindings js' processed
      else
        match bindings !! j with
        | Some b => b :: remaining bindings js' processed
        | None => remaining bindings js' processed
        end
  end.

(** The normalized key of a binding; a bucket under the key of its first
    binding; what a bucket of the key map becomes when the bindings [l]
    are added; a binding whose normalized key the map does not have. *)
Definition keyOf (b : Keybinding.t) : string := normalizeKey (Keybinding.key b).

Definition labelled (bucket : list Keybinding.t) : string * list Keybinding.t :=
  (match bucket with b :: _ => keyOf b | [] => "" end, bucket).

Definition hasKey (k : string) (b : Keybinding.t) : bool := String.eqb k (keyOf b).

Definition extendBucket (l : list Keybinding.t) (entry : string * list Keybinding.t)
  : string * list Keybinding.t :=
  (fst entry, snd entry ++ List.filter (hasKey (fst entry)) l).

Definition isFresh (keyMap : list (string * list Keybinding.t)) (b : Keybinding.t) : bool :=
  match JsMap.get (keyOf b) keyMap with None => true | Some _ => false end.

(** Comment stripping as the specification words it: line and block
    comments outside string literals are dropped, string literals are
    copied as they are.  A string literal ends at the first quote that is
    not escaped; a backslash escapes the character after it. *)
Inductive LexMode : Type := InCode | InStringLiteral | InLine | InBlock.

Fixpoint strip_ref (mode : LexMode) (rest : list ascii) : list ascii :=
  match rest with
  | [] => []
  | c :: rest' =>
      match mode with
      | InCode =>
          if Ascii.eqb c dquote then c :: strip_ref InStringLiteral rest'
          else
            match rest' with
            | d :: rest'' =>
                if Ascii.eqb c "/"%char && Ascii.eqb d "/"%char then strip_ref InLine rest''
                else if Ascii.eqb c "/"%char && Ascii.eqb d "*"%char
                     then strip_ref InBlock rest''
                     else c :: strip_ref InCode rest'
            | [] => [c]
            end
      | InStringLiteral =>
          if Ascii.eqb c dquote then c :: strip_ref InCode rest'
          else if Ascii.eqb c backslash then
            match rest' with
            | d :: rest'' => c :: d :: strip_ref InStringLiteral rest''
            | [] => [c]
            end
          else c :: strip_ref InStringLiteral rest'
      | InLine =>
          if Ascii.eqb c newline then c :: strip_ref InCode rest'
          else strip_ref InLine rest'
      | InBlock =>
          match rest' with
          | d :: rest'' =>
              if Ascii.eqb c "*"%char && Ascii.eqb d "/"%char then strip_ref InCode rest''
              else strip_ref InBlock rest'
          | [] => []
          end
      end
  end.

Definition stripJsonComments_ref (content : string) : string :=
  str (strip_ref InCode (chars content)).

(** The state of the loop of [stripJsonComments] in a mode, with the
    text kept so far. *)
Definition stateOf (mode : LexMode) (result : list ascii) : Strip.t :=
  match mode with
  | InCode => Strip.mk result false false false
  | InStringLiteral => Strip.mk result true false false
  | InLine => Strip.mk result false true false
  | InBlock => Strip.mk result false false true
  end.

Definition noBackslash (text : list ascii) : bool :=
  forallb (fun c => negb (Ascii.eqb c backslash)) text.

(** Recognise the state of the loop in a goal. *)
Ltac fold_stateOf :=
  match goal with
  | |- context [Strip.mk ?r false false false] =>
      change (Strip.mk r false false false) with (stateOf InCode r)
  | |- context [Strip.mk ?r true false false] =>
      change (Strip.mk r true false false) with (stateOf InStringLiteral r)
  | |- context [Strip.mk ?r false true false] =>
      change (Strip.mk r false true false) with (stateOf InLine r)
  | |- context [Strip.mk ?r false false true] =>
      change (Strip.mk r false false true) with (stateOf InBlock r)
  end.

(** The same binding under another source. *)
Definition withSource (source : KeybindingSource) (kb : Keybinding.t) : Keybinding.t :=
  Keybinding.mk (Keybinding.id kb) (Keybinding.key kb) (Keybinding.command kb)
    (Keybinding.when kb) source (Keybinding.extensionId kb) (Keybinding.extensionName kb)
    (Keybinding.mac kb) (Keybinding.win kb) (Keybinding.linux kb) (Keybinding.args kb).

(** A check of the source put in front of an action on a binding. *)
Definition withSourceCheck {A} (act : Keybinding.t -> M A) (kb : Keybinding.t) : M A :=
  if bool_decide (Keybinding.source kb = Extension) then act kb else throw TypeError.

(** Entries as the interface [UserKeybindingEntry] types them are
    objects; [noNull] says that no element of the list is [null]. *)
Definition isNull (kb : json) : bool :=
  match kb with JNull => true | _ => false end.

Definition noNull (keybindings : list json) : bool :=
  forallb (fun kb => negb (isNull kb)) keybindings.

(** The property [name] of an element that is not [null]. *)
Definition propOf (name : string) (kb : json) : option json :=
  match kb with JObj props => JsMap.get name props | _ => None end.

(** The command of the entry is the string [command]. *)
Definition commandIs (command : string) (kb : json) : bool :=
  strict_eq_str (propOf "command" kb) command.

(** The entry refers neither to [command] nor to its negation. *)
Definition unrelated (command : string) (kb : json) : bool :=
  negb (commandIs ("-" +:+ command) kb) && negb (commandIs command kb).

(** The test of [restoreKeybinding] on an element that is not [null]. *)
Definition negationMatch (key negatedCommand : string) (when : option string)
  (kb : json) : bool :=
  strict_eq_str (propOf "key" kb) key
  && strict_eq_str (propOf "command" kb) negatedCommand
  && (if truthy when then strict_eq_str (propOf "when" kb) (default "" when)
      else falsy (propOf "when" kb)).

(** Remove every entry whose command is [command] or its negation, then
    append a negation entry for the original key and a positive entry
    for the new key. *)
Definition remapped (originalKey newKey command : string) (when : option string)
  (keybindings : list json) : list json :=
  List.filter (unrelated command) keybindings
  ++ [makeEntry originalKey ("-" +:+ command) when; makeEntry newKey command when].

Section Calls.
Context `{JsonBuiltins}.

(** The operations of the governance service that write decisions, as
    the panel and the import reach them. *)
Inductive Call : Type :=
| CallApprove (kb : Keybinding.t)
| CallUnapprove (kb : Keybinding.t)
| CallSkip (kb : Keybinding.t)
| CallApplyDecision (kb : Keybinding.t) (action : DecisionAction) (newKey : option string)
| CallRestore (kb : Keybinding.t)
| CallRestoreRemapped (kb : Keybinding.t)
| CallApproveAll (extensionId : string)
| CallUnapproveAll (extensionId : string)
| CallDeactivateAll (extensionId : string)
| CallRestoreAll (extensionId : string)
| CallImport (shortcuts : list ImportedShortcut.t).

Definition runCall (c : Call) : M unit :=
  match c with
  | CallApprove kb => approveKeybinding kb
  | CallUnapprove kb => unapproveKeybinding kb
  | CallSkip kb => skipKeybinding kb
  | CallApplyDecision kb action newKey => applyDecision kb action newKey
  | CallRestore kb => GovernanceService_restoreKeybinding kb
  | CallRestoreRemapped kb => restoreRemappedKeybinding kb
  | CallApproveAll e => approveAllFromExtension e ;;; ret tt
  | CallUnapproveAll e => unapproveAllFromExtension e ;;; ret tt
  | CallDeactivateAll e => deactivateAllFromExtension e ;;; ret tt
  | CallRestoreAll e => restoreAllFromExtension e ;;; ret tt
  | CallImport shortcuts => importShortcuts shortcuts ;;; ret tt
  end.

(** A sequence of calls; a call that throws does not stop the next. *)
Fixpoint runCalls (calls : list Call) (w : World.t) : World.t :=
  match calls with
  | [] => w
  | c :: calls' => runCalls calls' (snd (runCall c w))
  end.


(** The configuration list of a world: what [read] returns in it. *)
Definition readEntries (w : World.t) : list json :=
  parseKeybindings (default "[]" (World.fileContent w)).

End Calls.

(** A small world to run the services in: no file, no snapshots, the
    empty governance state, a clock that counts its readings. *)
Definition emptyState : GovernanceState.t := GovernanceState.mk 1 ∅ ∅ false 0.

Definition world0 : World.t :=
  World.mk None [] emptyState (fun n => 1000 + Z.of_nat n) 0 (fun _ => "k3x9qa") 0 [] Linux.

(** A history that holds the Base snapshot only, and twelve requests. *)
Definition baseOnly : list Snapshot.t :=
  [Snapshot.mk "snapshot-900-aaaaaa" "Base Snapshot" 900 "[]" emptyState].

Definition worldWithBase : World.t := World.set_snapshots baseOnly world0.

Definition twelveRequests : list (string * GovernanceState.t) :=
  map (fun name => (name, emptyState))
      ["s1"; "s2"; "s3"; "s4"; "s5"; "s6"; "s7"; "s8"; "s9"; "s10"; "s11"; "s12"].

(** A history of two snapshots: one taken of a file on one line, and the
    Base taken of the file as the editor first creates it. *)
Definition compactSnapshot : Snapshot.t :=
  Snapshot.mk "snapshot-950-bbbbbb" "Before cleanup" 950
              (js "[{'key':'a','command':'b'}]") emptyState.

Definition commentedSnapshot : Snapshot.t :=
  Snapshot.mk "snapshot-900-aaaaaa" "Base Snapshot" 900
              (js "// Place your key bindings in this file to override the defaults
[
]") emptyState.

Definition worldWithSnapshots : World.t :=
  World.set_snapshots [compactSnapshot; commentedSnapshot] world0.

(** Two files with a binding for the backslash key, written in JSON as
    two backslashes: one with a comment after the array, one without any
    comment and with two slashes inside a later string. *)
Definition backslashKeyFile : string :=
  js "[{'key':'ctrl+\\','command':'x'}] // toggle".

Definition backslashKeyArray : string :=
  js "[{'key':'ctrl+\\','command':'x'}] ".

Definition backslashUrlFile : string :=
  js "[{'key':'ctrl+\\','command':'open','args':'http://host/'}]".

Definition worldWithFile (text : string) : World.t :=
  World.set_fileContent (Some text) world0.

(** A keybindings.json with a comment, an entry of the user and the two
    entries of an earlier remap of [ext.run]. *)
Definition remapExampleFile : string :=
  js "// Place your key bindings in this file to override the defaults
[
  { 'key': 'ctrl+k', 'command': 'editor.fold' },
  { 'key': 'ctrl+r', 'command': '-ext.run', 'when': 'editorTextFocus' },
  { 'key': 'ctrl+l', 'command': 'ext.run', 'when': 'editorTextFocus' }
]".

(** A keybindings.json in which the user has removed the command [c]
    from the key [a] and then bound it again. *)
Definition rebindExampleFile : string :=
  js "[{'key':'a','command':'-c'},{'key':'a','command':'c'}]".

(** A binding of the user and a binding of an extension on one key. *)
Definition userBinding (key command : string) (when : option string) : Keybinding.t :=
  Keybinding.mk (generateKeybindingId key command when) key command when User
                None None None None None None.

Definition extBinding (key command : string) (when : option string) : Keybinding.t :=
  Keybinding.mk (generateKeybindingId key command when) key command when Extension
                (Some "publisher.ext") (Some "Ext") None None None None.

(** A text without a slash has no comment. *)
Definition noSlash (text : list ascii) : bool :=
  forallb (fun c => negb (Ascii.eqb c "/"%char)) text.

(** The index of the first element that passes a test. *)
Fixpoint firstIndex {A} (p : A -> bool) (l : list A) : option nat :=
  match l with
  | [] => None
  | x :: l' => if p x then Some O else S <$> firstIndex p l'
  end.

(** A keybindings.json whose first element is [null]. *)
Definition nullEntryFile : string :=
  js "[null, {'key':'ctrl+r','command':'ext.run'}]".

(** The id that [generateSnapshotId] gives in a world. *)
Definition nextSnapshotId (w : World.t) : string :=
  "snapshot-" +:+ toString10 (World.clock w (World.clockReads w)) +:+ "-"
  +:+ World.random w (World.randomReads w).

(** The snapshot that [createSnapshot] builds in a world. *)
Definition nextSnapshot (name : string) (governanceState : GovernanceState.t) (w : World.t)
  : Snapshot.t :=
  Snapshot.mk (nextSnapshotId w) name (World.clock w (S (World.clockReads w)))
              (default "[]" (World.fileContent w)) governanceState.

(** Newest first. *)
Definition notOlder (a b : Snapshot.t) : Prop :=
  Snapshot.createdAt b <= Snapshot.createdAt a.

(** The status that [getStatus] answers in a world. *)
Definition statusOf (w : World.t) (keybindingId : string) : GovernanceStatus :=
  match GovernanceState.decisions (World.state w) !! keybindingId with
  | Some decision => GovernanceDecision.status decision
  | None => Pending
  end.

Definition pendingIn (w : World.t) (kb : Keybinding.t) : bool :=
  bool_decide (statusOf w (Keybinding.id kb) = Pending).

(** The bindings whose decision is one that has left entries in the
    file. *)
Definition hasFileEntries (w : World.t) (kb : Keybinding.t) : bool :=
  bool_decide (statusOf w (Keybinding.id kb) = Deactivated)
  || bool_decide (statusOf w (Keybinding.id kb) = Remapped).

(** The state that [createEmptyGovernanceState] builds, stamped. *)
Definition freshState (lastUpdated : Z) : GovernanceState.t :=
  GovernanceState.mk 1 ∅ ∅ false lastUpdated.

(** An installed extension with two keybindings, and a world that has
    it, with the file of the remap example. *)
Definition sampleExtension : InstalledExtension.t :=
  InstalledExtension.mk "publisher.ext" (Some "Ext") (Some "1.2.0")
    (Some [RawExtensionKeybinding.mk "ctrl+r" "ext.run" (Some "editorTextFocus")
                                     None None None None;
           RawExtensionKeybinding.mk "ctrl+k" "ext.fold" None (Some "cmd+k") None None None]).

Definition worldWithExtension : World.t :=
  World.mk (Some remapExampleFile) [] emptyState (fun n => 1000 + Z.of_nat n) 0
           (fun _ => "k3x9qa") 0 [sampleExtension] Linux.

(** Decide an equation between two given statuses in a goal. *)
Ltac decide_status :=
  repeat match goal with
  | |- context [@bool_decide (?a = ?b) ?d] =>
      lazymatch a with
      | Pending => idtac | Approved => idtac | Deactivated => idtac
      | Remapped => idtac | Skipped => idtac
      end;
      let v := eval vm_compute in (@bool_decide (a = b) d) in
      change (@bool_decide (a = b) d) with v
  end.

(** The list that [getAllExtensionKeybindings] answers in a world. *)
Definition allExtensionBindings (w : World.t) : list Keybinding.t :=
  flat_map ExtensionKeybindings.keybindings
           (omap (extensionGroup (World.platform w)) (World.extensions w)).

(** Two maps of conditions agree: no condition of the first has another
    value in the second. *)
Definition agrees (conditions1 conditions2 : list (string * bool)) : bool :=
  forallb (fun kv =>
             match JsMap.get (fst kv) conditions2 with
             | Some otherValue => Bool.eqb otherValue (snd kv)
             | None => true
             end)
          conditions1.

(** The test of the filter [activeExtension] in a world. *)
Definition activeIn (w : World.t) (kb : Keybinding.t) : bool :=
  negb (bool_decide (statusOf w (Keybinding.id kb) = Deactivated))
  && negb (bool_decide (statusOf w (Keybinding.id kb) = Remapped)).

(** The hexadecimal text of the hash that both identity functions start
    from. *)
Definition hashHex (key command : string) (when : option string) : string :=
  toString16 (Z.abs (hash_string (id_input key command when))).

(** An approved entry of an export file. *)
Definition approvedShortcut (key command : string) (when extensionId : option string)
  : ImportedShortcut.t :=
  ImportedShortcut.mk (Some key) (Some command) when (Some "approved") None extensionId None.

(** A binding with the source extension; a list in which no binding of
    another source comes after one; the identities that the loops of
    [deactivateAllConflicting] deactivate; the bindings that take part in
    the detection after them. *)
Definition isExt (b : Keybinding.t) : bool :=
  bool_decide (Keybinding.source b = Extension).

Fixpoint extensionsLast (l : list Keybinding.t) : bool :=
  match l with
  | [] => true
  | x :: l' => if isExt x then forallb isExt l' else extensionsLast l'
  end.

Definition conflictingIds (conflicts : list KeybindingConflict.t) : list string :=
  map Keybinding.id
      (List.filter isExt (concat (map KeybindingConflict.bindings conflicts))).

Definition keptAfter (ids : list string) (b : Keybinding.t) : bool :=
  negb (isExt b) || negb (bool_decide (Keybinding.id b ∈ ids)).

(** A part of a key that has no plus sign; the characters of the parts
    joined by plus signs. *)
Definition noPlus (part : string) : bool :=
  forallb (fun c => negb (Ascii.eqb c "+"%char)) (chars part).

Fixpoint joinChars (parts : list (list ascii)) : list ascii :=
  match parts with
  | [] => []
  | [p] => p
  | p :: ps => p ++ "+"%char :: joinChars ps
  end.

(* ===================================================================== *)
(** * Properties                                                          *)
(* ===================================================================== *)

(* --------------------------------------------------------------------- *)
(** ** Identities                                                         *)
(* --------------------------------------------------------------------- *)

Lemma append_assoc (a b c : string) : (a +:+ b) +:+ c = a +:+ (b +:+ c).
Proof.
  induction a as [|x a IH]; [reflexivity|].
  change (String x ((a +:+ b) +:+ c) = String x (a +:+ (b +:+ c))).
  now rewrite IH.
Qed.

Lemma id_input_absent_empty (key command : string) :
  id_input key command None = id_input key command (Some "").
Proof. reflexivity. Qed.

Lemma id_input_shift_bar (a b c : string) (when : option string) :
  id_input (a +:+ "|" +:+ b) c when = id_input a (b +:+ "|" +:+ c) when.
Proof. unfold id_input. now rewrite !append_assoc. Qed.

(** C10.  The identity of a binding does not determine the binding: an
    absent context and the empty context give the same identity for every
    key and command; a part of the key that follows a bar can move to the
    front of the command without changing the identity; so there are two
    different triples with one identity. *)
Theorem generateKeybindingId_not_injective :
  (forall key command : string,
      generateKeybindingId key command None = generateKeybindingId key command (Some "")
      /\ (None : option string) <> Some "")
  /\ (forall (a b c : string) (when : option string),
         generateKeybindingId (a +:+ "|" +:+ b) c when
         = generateKeybindingId a (b +:+ "|" +:+ c) when)
  /\ (exists k1 c1 k2 c2 : string,
         (k1, c1) <> (k2, c2)
         /\ generateKeybindingId k1 c1 None = generateKeybindingId k2 c2 None).
Proof.
  split; [|split].
  - intros key command. split; [|discriminate].
    unfold generateKeybindingId. now rewrite id_input_absent_empty.
  - intros a b c when. unfold generateKeybindingId. now rewrite id_input_shift_bar.
  - exists "a|b", "c", "a", "b|c". split; [discriminate | reflexivity].
Qed.

(* --------------------------------------------------------------------- *)
(** ** The decision store                                                 *)
(* --------------------------------------------------------------------- *)

(** C8.  With no decision recorded for an identity, [getStatus] answers
    pending and returns the world as it was: the governance state is not
    touched and no entry appears for the identity. *)
Theorem getStatus_default_pending (w : World.t) (keybindingId : string) :
  GovernanceState.decisions (World.state w) !! keybindingId = None ->
  getStatus keybindingId w = (Val Pending, w)
  /\ GovernanceState.decisions (World.state (snd (getStatus keybindingId w))) !! keybindingId
     = None.
Proof.
  intros Hnone. unfold getStatus, gets. rewrite Hnone. simpl. auto.
Qed.

Lemma getStatus_default_pending_witness :
  getStatus "00c0ffee" world0 = (Val Pending, world0)
  /\ GovernanceState.decisions (World.state (snd (getStatus "00c0ffee" world0))) !! "00c0ffee"
     = None.
Proof. apply getStatus_default_pending. reflexivity. Defined.

(* --------------------------------------------------------------------- *)
(** ** What a method does to the decisions                                *)
(* --------------------------------------------------------------------- *)

Lemma frames_keeps {A} P (m : M A) : frames m -> keeps P m.
Proof. intros Hm w HP. now rewrite Hm. Qed.

Lemma frames_ret {A} (a : A) : frames (ret a).
Proof. now intros w. Qed.

Lemma frames_throw {A} (e : Exn) : frames (@throw A e).
Proof. now intros w. Qed.

Lemma frames_lift {A} (o : Outcome A) : frames (lift o).
Proof. now intros w. Qed.

Lemma frames_gets {A} (f : World.t -> A) : frames (gets f).
Proof. now intros w. Qed.

Lemma frames_bind {A B} (m : M A) (k : A -> M B) :
  frames m -> (forall a, frames (k a)) -> frames (bind m k).
Proof.
  intros Hm Hk w. unfold bind. specialize (Hm w).
  destruct (m w) as [[a|e] w']; simpl in *; [|assumption].
  now rewrite Hk.
Qed.

Lemma keeps_bind {A B} P (m : M A) (k : A -> M B) :
  keeps P m -> (forall a, keeps P (k a)) -> keeps P (bind m k).
Proof.
  intros Hm Hk w HP. unfold bind. specialize (Hm w HP).
  destruct (m w) as [[a|e] w']; simpl in *; [|assumption].
  now apply Hk.
Qed.

Lemma keeps_forM {A B} P (l : list B) (body : A -> B -> M A) :
  (forall a x, keeps P (body a x)) -> forall a, keeps P (forM l body a).
Proof.
  intros Hbody. induction l as [|x l IH]; intros a; simpl.
  - apply frames_keeps, frames_ret.
  - apply keeps_bind; auto.
Qed.

Lemma frames_Date_now : frames Date_now.
Proof. now intros w. Qed.

Lemma frames_write `{JsonBuiltins} l : frames (write l).
Proof. now intros w. Qed.

Lemma frames_read `{JsonBuiltins} : frames read.
Proof. now intros w. Qed.

Create HintDb frames.
#[local] Hint Resolve frames_ret frames_throw frames_lift frames_gets frames_Date_now
  frames_write frames_read : frames.
#[local] Hint Extern 2 (frames (bind _ _)) => apply frames_bind; [|intros ?] : frames.
#[local] Hint Extern 3 (frames (match ?x with _ => _ end)) => destruct x : frames.

Lemma frames_deactivateKeybinding `{JsonBuiltins} key command when :
  frames (deactivateKeybinding key command when).
Proof. unfold deactivateKeybinding, addEntry. auto with frames. Qed.

Lemma frames_restoreKeybinding `{JsonBuiltins} key command when :
  frames (restoreKeybinding key command when).
Proof. unfold restoreKeybinding. auto with frames. Qed.

Lemma frames_remapKeybinding `{JsonBuiltins} originalKey newKey command when :
  frames (remapKeybinding originalKey newKey command when).
Proof. unfold remapKeybinding. auto with frames. Qed.

Lemma frames_removeRemapEntries `{JsonBuiltins} command :
  frames (removeRemapEntries command).
Proof. unfold removeRemapEntries. auto 7 with frames. Qed.

Lemma frames_getStatus id : frames (getStatus id).
Proof. apply frames_gets. Qed.

Lemma frames_getKeybindingsForExtension e : frames (getKeybindingsForExtension e).
Proof. apply frames_gets. Qed.

#[local] Hint Resolve frames_deactivateKeybinding frames_restoreKeybinding
  frames_remapKeybinding frames_removeRemapEntries frames_getStatus
  frames_getKeybindingsForExtension : frames.

(** What [recordDecision] returns and leaves behind. *)
Lemma recordDecision_run kb status remappedKey w :
  recordDecision kb status remappedKey w
  = (Val tt,
     World.set_state
       (with_lastUpdated (World.clock w (S (World.clockReads w)))
          (with_decisions
             (insert (Keybinding.id kb)
                     (makeDecision kb status remappedKey (World.clock w (World.clockReads w))))
             (World.state w)))
       (World.set_clockReads (S (S (World.clockReads w))) w)).
Proof. reflexivity. Qed.

Lemma unapproveKeybinding_run kb w :
  unapproveKeybinding kb w
  = (Val tt,
     World.set_state
       (with_lastUpdated (World.clock w (World.clockReads w))
          (with_decisions (delete (Keybinding.id kb)) (World.state w)))
       (World.set_clockReads (S (World.clockReads w)) w)).
Proof. reflexivity. Qed.

Lemma makeDecision_wf kb status remappedKey now :
  decision_wf (makeDecision kb status remappedKey now)
  <-> (status = Remapped -> truthy remappedKey = true).
Proof.
  unfold decision_wf, makeDecision.
  destruct status, remappedKey as [[|c r]|]; cbn.
  all: rewrite <- ?not_eq_None_Some.
  all: intuition (try discriminate; try congruence).
Qed.

Lemma decisions_wf_insert D id d :
  decisions_wf D -> decision_wf d -> decisions_wf (<[id := d]> D).
Proof. intros HD Hd. now apply map_Forall_insert_2. Qed.

Lemma decisions_wf_delete D (id : string) :
  decisions_wf D -> decisions_wf (delete id D).
Proof. intros HD. now apply map_Forall_delete. Qed.

Lemma keeps_recordDecision kb status remappedKey :
  (status = Remapped -> truthy remappedKey = true) ->
  keeps decisions_wf (recordDecision kb status remappedKey).
Proof.
  intros Hk w HP. rewrite recordDecision_run. simpl.
  apply decisions_wf_insert; [assumption|]. now apply makeDecision_wf.
Qed.

Lemma keeps_unapproveKeybinding kb : keeps decisions_wf (unapproveKeybinding kb).
Proof.
  intros w HP. rewrite unapproveKeybinding_run. simpl. now apply decisions_wf_delete.
Qed.

Section KeepsWf.
Context `{JsonBuiltins}.

Lemma keeps_applyDecision kb action newKey :
  keeps decisions_wf (applyDecision kb action newKey).
Proof.
  destruct action; simpl.
  - apply keeps_bind; [apply frames_keeps; auto with frames|].
    intros _. apply keeps_recordDecision; (discriminate || (intros _; assumption)).
  - destruct (truthy newKey) eqn:Hk; [|apply frames_keeps, frames_ret].
    apply keeps_bind; [apply frames_keeps; auto with frames|].
    intros _. apply keeps_recordDecision; (discriminate || (intros _; assumption)).
Qed.

Lemma keeps_GovernanceService_restoreKeybinding kb :
  keeps decisions_wf (GovernanceService_restoreKeybinding kb).
Proof.
  apply keeps_bind; [apply frames_keeps; auto with frames|].
  intros _. apply keeps_recordDecision; (discriminate || (intros _; assumption)).
Qed.

Lemma keeps_restoreRemappedKeybinding kb :
  keeps decisions_wf (restoreRemappedKeybinding kb).
Proof.
  apply keeps_bind; [apply frames_keeps; auto with frames|].
  intros _. apply keeps_recordDecision; (discriminate || (intros _; assumption)).
Qed.

Lemma keeps_batchFromExtension e wanted act :
  (forall kb, keeps decisions_wf (act kb)) ->
  keeps decisions_wf (batchFromExtension e wanted act).
Proof.
  intros Hact. unfold batchFromExtension.
  apply keeps_bind; [apply frames_keeps; auto with frames|].
  intros kbs. apply keeps_forM. intros count kb. unfold batchBody.
  apply keeps_bind; [apply frames_keeps; auto with frames|].
  intros status. destruct (bool_decide (status = wanted)).
  - apply keeps_bind; [apply Hact|]. intros _. apply frames_keeps, frames_ret.
  - apply frames_keeps, frames_ret.
Qed.

Lemma keeps_importShortcuts shortcuts :
  keeps decisions_wf (importShortcuts shortcuts).
Proof.
  unfold importShortcuts. apply keeps_forM. intros [applied skipped] s.
  destruct (negb _ || negb _ || negb _); [apply frames_keeps, frames_ret|].
  repeat match goal with
         | |- keeps _ (if ?c then _ else _) => destruct c eqn:?
         end;
    try (apply frames_keeps, frames_ret);
    (apply keeps_bind; [|intros _; apply frames_keeps, frames_ret]).
  - apply keeps_applyDecision.
  - apply keeps_applyDecision.
  - unfold approveKeybinding. apply keeps_recordDecision. discriminate.
  - unfold skipKeybinding. apply keeps_recordDecision. discriminate.
Qed.

Lemma keeps_runCall c : keeps decisions_wf (runCall c).
Proof.
  assert (Hbatch : forall {A} (m : M A),
             keeps decisions_wf m -> keeps decisions_wf (m ;;; ret tt)).
  { intros A m Hm. apply keeps_bind; [assumption|].
    intros _. apply frames_keeps, frames_ret. }
  destruct c; cbn [runCall].
  - unfold approveKeybinding. apply keeps_recordDecision. discriminate.
  - apply keeps_unapproveKeybinding.
  - unfold skipKeybinding. apply keeps_recordDecision. discriminate.
  - apply keeps_applyDecision.
  - apply keeps_GovernanceService_restoreKeybinding.
  - apply keeps_restoreRemappedKeybinding.
  - apply Hbatch, keeps_batchFromExtension. intros kb.
    unfold approveKeybinding. apply keeps_recordDecision. discriminate.
  - apply Hbatch, keeps_batchFromExtension. apply keeps_unapproveKeybinding.
  - apply Hbatch, keeps_batchFromExtension. intros kb. apply keeps_applyDecision.
  - apply Hbatch, keeps_batchFromExtension.
    apply keeps_GovernanceService_restoreKeybinding.
  - apply Hbatch, keeps_importShortcuts.
Qed.

Lemma runCalls_wf calls w :
  decisions_wf (GovernanceState.decisions (World.state w)) ->
  decisions_wf (GovernanceState.decisions (World.state (runCalls calls w))).
Proof.
  revert w. induction calls as [|c calls IH]; intros w Hw; simpl; [assumption|].
  apply IH. now apply keeps_runCall.
Qed.

End KeepsWf.

(** C4, as stated, fails: [recordDecision] with the status remapped and
    no new key stores a remapped decision that has neither key. *)
Lemma recordDecision_remapped_without_keys :
  exists d,
    GovernanceState.decisions
      (World.state (snd (recordDecision (extBinding "ctrl+k" "bar" None) Remapped None world0)))
      !! Keybinding.id (extBinding "ctrl+k" "bar" None) = Some d
    /\ GovernanceDecision.status d = Remapped
    /\ GovernanceDecision.originalKey d = None
    /\ GovernanceDecision.remappedKey d = None
    /\ ~ decision_wf d.
Proof.
  eexists. split; [vm_compute; reflexivity|]. cbn.
  repeat split. intros [Hk _]. destruct (Hk eq_refl) as [[x Hx] _]. discriminate.
Qed.

(** C4, amended.  The decision that [recordDecision] stores under the
    identity of the binding has the status it was given; it has both keys
    or none; it has them exactly when the status is remapped and a
    non-empty new key was passed, and then the original key is the key of
    the binding and the remapped key is the key passed.  The operations
    built on [recordDecision] (approve, unapprove, skip, applyDecision,
    the two restores, the batch operations, the import) pass the status
    remapped only with a non-empty key: over any sequence of them, from
    decisions in which remapped goes with both keys, remapped still goes
    with both keys in every stored decision. *)
Theorem recordDecision_keys `{JsonBuiltins} (w : World.t) (calls : list Call)
  (kb : Keybinding.t) (status : GovernanceStatus) (remappedKey : option string) :
  decisions_wf (GovernanceState.decisions (World.state w)) ->
  (exists d,
      GovernanceState.decisions (World.state (snd (recordDecision kb status remappedKey w)))
        !! Keybinding.id kb = Some d
      /\ GovernanceDecision.status d = status
      /\ (is_Some (GovernanceDecision.originalKey d)
          <-> is_Some (GovernanceDecision.remappedKey d))
      /\ (is_Some (GovernanceDecision.originalKey d)
          <-> status = Remapped /\ truthy remappedKey = true)
      /\ (status = Remapped -> truthy remappedKey = true ->
          GovernanceDecision.originalKey d = Some (Keybinding.key kb)
          /\ GovernanceDecision.remappedKey d = remappedKey))
  /\ decisions_wf (GovernanceState.decisions (World.state (runCalls calls w))).
Proof.
  intros Hwf. split; [|now apply runCalls_wf].
  rewrite recordDecision_run. cbn.
  eexists. split; [apply lookup_insert_eq|].
  unfold makeDecision.
  destruct status, remappedKey as [[|c r]|]; cbn.
  all: rewrite <- ?not_eq_None_Some.
  all: intuition (try discriminate; try congruence).
Qed.

Lemma recordDecision_keys_witness :
  (exists d,
      GovernanceState.decisions
        (World.state (snd (recordDecision (extBinding "ctrl+k" "bar" None) Remapped
                                          (Some "ctrl+j") world0)))
        !! Keybinding.id (extBinding "ctrl+k" "bar" None) = Some d
      /\ GovernanceDecision.status d = Remapped
      /\ (is_Some (GovernanceDecision.originalKey d)
          <-> is_Some (GovernanceDecision.remappedKey d))
      /\ (is_Some (GovernanceDecision.originalKey d)
          <-> Remapped = Remapped /\ truthy (Some "ctrl+j") = true)
      /\ (Remapped = Remapped -> truthy (Some "ctrl+j") = true ->
          GovernanceDecision.originalKey d = Some "ctrl+k"
          /\ GovernanceDecision.remappedKey d = Some "ctrl+j"))
  /\ decisions_wf
       (GovernanceState.decisions
          (World.state
             (runCalls (H := RefJson.builtins)
                [CallApplyDecision (extBinding "ctrl+k" "bar" None) ActionRemap (Some "ctrl+j");
                 CallApprove (extBinding "ctrl+l" "baz" None)]
                world0))).
Proof.
  apply (recordDecision_keys (H := RefJson.builtins) world0).
  intros k d Hk. vm_compute in Hk. discriminate.
Defined.

(** C3, as stated, fails: [recordDecision] given a binding of the user
    returns normally and stores a decision under its identity. *)
Lemma recordDecision_accepts_user_binding :
  Keybinding.source (userBinding "ctrl+k" "foo" None) = User
  /\ fst (recordDecision (userBinding "ctrl+k" "foo" None) Approved None world0) = Val tt
  /\ is_Some
       (GovernanceState.decisions
          (World.state (snd (recordDecision (userBinding "ctrl+k" "foo" None) Approved None
                                            world0)))
          !! Keybinding.id (userBinding "ctrl+k" "foo" None)).
Proof.
  split; [reflexivity|]. split; [reflexivity|].
  eexists. vm_compute. reflexivity.
Qed.

Lemma keybindingsForExtension_source e w :
  Forall (fun kb => Keybinding.source kb = Extension) (keybindingsForExtension e w).
Proof.
  unfold keybindingsForExtension.
  destruct (getExtension e w) as [x|]; [|constructor].
  destruct (InstalledExtension.keybindings x) as [raws|]; [|constructor].
  apply Forall_forall. intros kb Hin. apply list_elem_of_In, in_map_iff in Hin.
  destruct Hin as [raw [<- _]]. reflexivity.
Qed.

Lemma forM_source_check {A} (l : list Keybinding.t)
  (body : (Keybinding.t -> M unit) -> A -> Keybinding.t -> M A) (act : Keybinding.t -> M unit) :
  (forall a kb w, Keybinding.source kb = Extension ->
                  body act a kb w = body (withSourceCheck act) a kb w) ->
  Forall (fun kb => Keybinding.source kb = Extension) l ->
  forall a w, forM l (body act) a w = forM l (body (withSourceCheck act)) a w.
Proof.
  intros Hbody Hl. induction Hl as [|kb l Hkb Hl IH]; intros a w; [reflexivity|].
  simpl. unfold bind. rewrite <- Hbody by assumption.
  destruct (body act a kb w) as [[a'|e] w']; [apply IH | reflexivity].
Qed.

(** C3, amended.  [recordDecision] does not look at the source of the
    binding: under any source it returns normally and leaves the same
    world, with a decision stored under the identity of the binding;
    nothing is rejected.  User bindings stay out of the decisions because
    of what the callers pass: the bindings that the batch operations act
    on come from [getKeybindingsForExtension] and all have the source
    extension, so that a check of the source in front of the action
    changes nothing; and the import builds its bindings with the source
    extension. *)
Theorem decisions_source_by_callers :
  (forall kb source status remappedKey w,
      recordDecision (withSource source kb) status remappedKey w
      = recordDecision kb status remappedKey w
      /\ fst (recordDecision kb status remappedKey w) = Val tt
      /\ is_Some (GovernanceState.decisions
                    (World.state (snd (recordDecision kb status remappedKey w)))
                    !! Keybinding.id kb))
  /\ (forall e w,
         Forall (fun kb => Keybinding.source kb = Extension) (keybindingsForExtension e w))
  /\ (forall e wanted act w,
         batchFromExtension e wanted act w
         = batchFromExtension e wanted (withSourceCheck act) w)
  /\ (forall shortcut, Keybinding.source (importedBinding shortcut) = Extension).
Proof.
  split; [|split; [|split]].
  - intros kb source status remappedKey w. split; [reflexivity|].
    rewrite recordDecision_run. cbn. split; [reflexivity|].
    eexists. apply lookup_insert_eq.
  - apply keybindingsForExtension_source.
  - intros e wanted act w. unfold batchFromExtension, getKeybindingsForExtension.
    change (forM (keybindingsForExtension e w) (batchBody wanted act) O w
            = forM (keybindingsForExtension e w) (batchBody wanted (withSourceCheck act)) O w).
    apply (forM_source_check _ (batchBody wanted)).
    + intros a kb w' Hkb. unfold batchBody, withSourceCheck.
      now rewrite bool_decide_eq_true_2.
    + apply keybindingsForExtension_source.
  - reflexivity.
Qed.

(* --------------------------------------------------------------------- *)
(** ** The keybindings.json protocol                                      *)
(* --------------------------------------------------------------------- *)

Lemma getProp_not_null name kb :
  isNull kb = false -> getProp name kb = Val (propOf name kb).
Proof. destruct kb; simpl; intros Hn; (discriminate || reflexivity). Qed.

Lemma unrelatedTo_not_null command kb :
  isNull kb = false ->
  unrelatedTo command ("-" +:+ command) kb = Val (unrelated command kb).
Proof.
  intros Hn. unfold unrelatedTo, unrelated, commandIs.
  now rewrite (getProp_not_null _ _ Hn).
Qed.

Lemma noNull_cons kb l : noNull (kb :: l) = true <-> isNull kb = false /\ noNull l = true.
Proof.
  unfold noNull. simpl. rewrite andb_true_iff, negb_true_iff. tauto.
Qed.

Lemma noNull_app l l' : noNull (l ++ l') = true <-> noNull l = true /\ noNull l' = true.
Proof. unfold noNull. rewrite forallb_app, andb_true_iff. tauto. Qed.

Lemma noNull_filter p l : noNull l = true -> noNull (List.filter p l) = true.
Proof.
  induction l as [|kb l IH]; [trivial|].
  rewrite noNull_cons. intros [Hkb Hl]. simpl.
  destruct (p kb); [rewrite noNull_cons|]; auto.
Qed.

Lemma filterO_unrelated command l :
  noNull l = true ->
  filterO (unrelatedTo command ("-" +:+ command)) l = Val (List.filter (unrelated command) l).
Proof.
  induction l as [|kb l IH]; [reflexivity|].
  rewrite noNull_cons. intros [Hkb Hl]. simpl.
  rewrite (unrelatedTo_not_null _ _ Hkb), (IH Hl).
  now destruct (unrelated command kb).
Qed.

Lemma makeEntry_not_null key command when : isNull (makeEntry key command when) = false.
Proof. reflexivity. Qed.

Lemma commandIs_makeEntry s key command when :
  commandIs s (makeEntry key command when) = String.eqb command s.
Proof. reflexivity. Qed.

Lemma negated_differs command : String.eqb ("-" +:+ command) command = false.
Proof.
  apply String.eqb_neq. intros Heq.
  change (String "-"%char command = command) in Heq.
  apply (f_equal String.length) in Heq. simpl in Heq. lia.
Qed.

Lemma noNull_remapped originalKey newKey command when l :
  noNull l = true -> noNull (remapped originalKey newKey command when l) = true.
Proof.
  intros Hl. unfold remapped. apply noNull_app. split; [now apply noNull_filter|reflexivity].
Qed.

Lemma filter_unrelated_idem command l :
  List.filter (unrelated command) (List.filter (unrelated command) l)
  = List.filter (unrelated command) l.
Proof.
  induction l as [|kb l IH]; [reflexivity|]. simpl.
  destruct (unrelated command kb) eqn:Hkb; simpl; [rewrite Hkb|]; now rewrite ?IH.
Qed.

Lemma filter_commandIs_unrelated s command l :
  s = command \/ s = "-" +:+ command ->
  List.filter (commandIs s) (List.filter (unrelated command) l) = [].
Proof.
  intros Hs. induction l as [|kb l IH]; [reflexivity|]. simpl.
  destruct (unrelated command kb) eqn:Hkb; [|assumption]. simpl.
  unfold unrelated in Hkb. apply andb_true_iff in Hkb. destruct Hkb as [Hn Hp].
  apply negb_true_iff in Hn, Hp.
  destruct Hs as [-> | ->]; [rewrite Hp | rewrite Hn]; assumption.
Qed.

(** After a remap the list has one negation entry and one positive entry
    for the command, whatever it held before. *)
Lemma remapped_exactly_one originalKey newKey command when l :
  List.filter (commandIs ("-" +:+ command)) (remapped originalKey newKey command when l)
  = [makeEntry originalKey ("-" +:+ command) when]
  /\ List.filter (commandIs command) (remapped originalKey newKey command when l)
     = [makeEntry newKey command when].
Proof.
  unfold remapped. rewrite !List.filter_app.
  rewrite !filter_commandIs_unrelated by auto. simpl.
  rewrite !commandIs_makeEntry, String.eqb_refl, negated_differs.
  rewrite String.eqb_sym, negated_differs, String.eqb_refl. auto.
Qed.

Lemma unrelated_negation key command when :
  unrelated command (makeEntry key ("-" +:+ command) when) = false.
Proof.
  unfold unrelated. now rewrite !commandIs_makeEntry, String.eqb_refl.
Qed.

Lemma unrelated_positive key command when :
  unrelated command (makeEntry key command when) = false.
Proof.
  unfold unrelated. rewrite !commandIs_makeEntry, String.eqb_refl. apply andb_false_r.
Qed.

(** A second remap of the same command undoes what the first appended. *)
Lemma remapped_remapped k1 n1 w1 k2 n2 w2 command l :
  remapped k2 n2 command w2 (remapped k1 n1 command w1 l) = remapped k2 n2 command w2 l.
Proof.
  unfold remapped at 1 2. rewrite List.filter_app, filter_unrelated_idem. simpl.
  rewrite unrelated_negation, unrelated_positive. now rewrite app_nil_r.
Qed.

Section FileProtocol.
Context `{JsonBuiltins}.

Lemma read_run w : read w = (Val (readEntries w), w).
Proof. reflexivity. Qed.


Lemma remapKeybinding_run originalKey newKey command when w :
  noNull (readEntries w) = true ->
  remapKeybinding originalKey newKey command when w
  = (Val tt,
     World.set_fileContent
       (Some (JSON_stringify (JArr (remapped originalKey newKey command when (readEntries w)))))
       w).
Proof.
  intros Hl. unfold remapKeybinding, bind. rewrite read_run.
  unfold lift. now rewrite (filterO_unrelated _ _ Hl).
Qed.

End FileProtocol.

Lemma makeEntry_explicit key command when :
  makeEntry key command when
  = JObj ([("key", JStr key); ("command", JStr command)]
          ++ match when with
             | Some (String a s) => [("when", JStr (String a s))]
             | _ => []
             end).
Proof. now destruct when as [[|a s]|]. Qed.

(** C5.  In a world whose configuration list has no null element, a remap
    returns normally and writes the list from which every entry with the
    command or its negation is removed and to which two entries are
    appended, in this order: the negation entry, an object with the
    original key as its key and the command with a minus sign in front as
    its command, and the positive entry, an object with the new key as
    its key and the command as its command; each has the context as its
    when property if a context that is not empty was given, and no such
    property otherwise.  After a second remap of the same command the
    list written has exactly one negation entry of the command, the one
    for the original key of that call, and exactly one positive entry of
    the command, the one for the new key of that call; and when the text
    of the first write reads back as the list written, the rest of the
    list is what the first call left of the initial list. *)
Theorem remapKeybinding_cleans_then_appends `{JsonBuiltins} (w : World.t)
  (originalKey newKey originalKey' newKey' command : string) (when when' : option string) :
  let context (c : option string) : list (string * json) :=
    match c with
    | Some (String a s) => [("when", JStr (String a s))]
    | _ => []
    end in
  let negation (key : string) (c : option string) : json :=
    JObj ([("key", JStr key); ("command", JStr ("-" +:+ command))] ++ context c) in
  let positive (key : string) (c : option string) : json :=
    JObj ([("key", JStr key); ("command", JStr command)] ++ context c) in
  let L := readEntries w in
  let L1 := List.filter (unrelated command) L
            ++ [negation originalKey when; positive newKey when] in
  let w1 := World.set_fileContent (Some (JSON_stringify (JArr L1))) w in
  let L2 := List.filter (unrelated command) (readEntries w1)
            ++ [negation originalKey' when'; positive newKey' when'] in
  noNull L = true ->
  noNull (readEntries w1) = true ->
  remapKeybinding originalKey newKey command when w = (Val tt, w1)
  /\ (remapKeybinding originalKey newKey command when ;;;
      remapKeybinding originalKey' newKey' command when') w
     = (Val tt, World.set_fileContent (Some (JSON_stringify (JArr L2))) w)
  /\ List.filter (commandIs ("-" +:+ command)) L2 = [negation originalKey' when']
  /\ List.filter (commandIs command) L2 = [positive newKey' when']
  /\ (readEntries w1 = L1 ->
      L2 = List.filter (unrelated command) L
           ++ [negation originalKey' when'; positive newKey' when']).
Proof.
  intros context negation positive.
  assert (Hneg : forall key c, negation key c = makeEntry key ("-" +:+ command) c)
    by (intros key c; symmetry; apply makeEntry_explicit).
  assert (Hpos : forall key c, positive key c = makeEntry key command c)
    by (intros key c; symmetry; apply makeEntry_explicit).
  cbv zeta. rewrite !Hneg, !Hpos. clear Hneg Hpos.
  set (L := readEntries w).
  set (L1 := List.filter (unrelated command) L
             ++ [makeEntry originalKey ("-" +:+ command) when;
                 makeEntry newKey command when]).
  set (w1 := World.set_fileContent (Some (JSON_stringify (JArr L1))) w).
  set (L2 := List.filter (unrelated command) (readEntries w1)
             ++ [makeEntry originalKey' ("-" +:+ command) when';
                 makeEntry newKey' command when']).
  intros HL Hw1.
  assert (Hfirst : remapKeybinding originalKey newKey command when w = (Val tt, w1))
    by now apply remapKeybinding_run.
  split; [assumption|]. split.
  - unfold bind. rewrite Hfirst. now rewrite remapKeybinding_run.
  - destruct (remapped_exactly_one originalKey' newKey' command when' (readEntries w1))
      as [Hneg Hpos].
    split; [exact Hneg|]. split; [exact Hpos|].
    intros Hback. subst L2. rewrite Hback.
    apply (remapped_remapped originalKey newKey when originalKey' newKey' when').
Qed.

Lemma remapKeybinding_cleans_then_appends_witness :
  (remapKeybinding (H := RefJson.builtins) "ctrl+r" "ctrl+alt+r" "ext.run" (Some "editorTextFocus") ;;;
   remapKeybinding (H := RefJson.builtins) "ctrl+r" "ctrl+alt+r" "ext.run" (Some "editorTextFocus"))
    (worldWithFile remapExampleFile)
  = (Val tt,
     World.set_fileContent
       (Some (RefJson.stringify
                (JArr [JObj [("key", JStr "ctrl+k"); ("command", JStr "editor.fold")];
                       JObj [("key", JStr "ctrl+r"); ("command", JStr "-ext.run");
                             ("when", JStr "editorTextFocus")];
                       JObj [("key", JStr "ctrl+alt+r"); ("command", JStr "ext.run");
                             ("when", JStr "editorTextFocus")]])))
       (worldWithFile remapExampleFile)).
Proof.
  destruct (remapKeybinding_cleans_then_appends (H := RefJson.builtins)
              (worldWithFile remapExampleFile)
              "ctrl+r" "ctrl+alt+r" "ctrl+r" "ctrl+alt+r" "ext.run"
              (Some "editorTextFocus") (Some "editorTextFocus"))
    as (_ & Htwice & _).
  - vm_compute. reflexivity.
  - vm_compute. reflexivity.
  - rewrite Htwice. vm_compute. reflexivity.
Defined.

Lemma matchesNegation_not_null key negatedCommand when kb :
  isNull kb = false ->
  matchesNegation key negatedCommand when kb = Val (negationMatch key negatedCommand when kb).
Proof.
  intros Hn. unfold matchesNegation, negationMatch.
  now rewrite !(getProp_not_null _ _ Hn).
Qed.








(* --------------------------------------------------------------------- *)
(** ** The snapshot history                                               *)
(* --------------------------------------------------------------------- *)

Lemma insert_by_perm {A} (le : A -> A -> bool) x l : insert_by le x l ≡ₚ x :: l.
Proof.
  induction l as [|y l IH]; simpl; [reflexivity|].
  destruct (le x y); [reflexivity|]. rewrite IH. apply Permutation_swap.
Qed.

Lemma sort_by_perm {A} (le : A -> A -> bool) l : sort_by le l ≡ₚ l.
Proof.
  induction l as [|x l IH]; simpl; [reflexivity|].
  rewrite insert_by_perm. now rewrite IH.
Qed.

Lemma getSnapshots_run w :
  getSnapshots w
  = (Val (sort_by newestFirst (World.snapshots w)),
     World.set_snapshots (sort_by newestFirst (World.snapshots w)) w).
Proof. reflexivity. Qed.

Lemma take_when_longer {A} (n : nat) (l : list A) :
  (if (n <? length l)%nat then take n l else l) = take n l.
Proof.
  destruct (Nat.ltb_spec n (length l)); [reflexivity|]. symmetry. now apply take_ge.
Qed.

Lemma saveSnapshot_run snapshot w :
  saveSnapshot snapshot w
  = (Val tt,
     World.set_snapshots (savedHistory snapshot (sort_by newestFirst (World.snapshots w))) w).
Proof.
  unfold saveSnapshot, bind. rewrite getSnapshots_run. unfold savedHistory.
  rewrite take_when_longer.
  destruct (list_find isBase (sort_by newestFirst (World.snapshots w))) as [[i b]|];
    reflexivity.
Qed.

Lemma createSnapshot_run name governanceState w :
  exists snapshot w',
    createSnapshot name governanceState w = (Val snapshot, w')
    /\ Snapshot.name snapshot = name
    /\ World.snapshots w'
       = savedHistory snapshot (sort_by newestFirst (World.snapshots w)).
Proof.
  eexists (Snapshot.mk _ name _ _ governanceState), _.
  unfold createSnapshot, bind, readRaw, gets, generateSnapshotId, bind,
    Date_now, Math_random_base36, ret.
  cbn [fst snd]. rewrite saveSnapshot_run. split; [reflexivity|]. split; reflexivity.
Qed.

Lemma all_nonBase_filter l :
  Forall (fun s => ~ isBase s) l ->
  filter isBase l = [] /\ filter (fun s => ~ isBase s) l = l.
Proof.
  induction 1 as [|x l Hx Hl [IH1 IH2]]; [split; reflexivity|].
  rewrite filter_cons_False by assumption. rewrite filter_cons_True by assumption.
  split; [assumption | now rewrite IH2].
Qed.

(** With one Base in the list, [findIndex] finds it, and what is left
    after the splice holds the other snapshots, none of them a Base. *)
Lemma find_the_base l b :
  filter isBase l = [b] ->
  exists i,
    list_find isBase l = Some (i, b)
    /\ Forall (fun s => ~ isBase s) (delete i l)
    /\ length (delete i l) = nonBaseCount l.
Proof.
  unfold nonBaseCount.
  induction l as [|x l IH]; [discriminate|].
  destruct (decide (isBase x)) as [Hx|Hx].
  - rewrite filter_cons_True by assumption. intros Heq. injection Heq as -> Hrest.
    exists 0%nat. cbn [list_find]. rewrite decide_True by assumption.
    assert (Hall : Forall (fun s => ~ isBase s) l).
    { apply Forall_forall. intros y Hy Hby.
      exact (filter_nil_not_elem_of _ _ y Hrest Hby Hy). }
    split; [reflexivity|]. split; [exact Hall|].
    rewrite filter_cons_False by tauto. cbn [delete list_delete].
    now rewrite (proj2 (all_nonBase_filter l Hall)).
  - rewrite filter_cons_False by assumption. intros Heq.
    destruct (IH Heq) as (i & Hfind & Hall & Hlen).
    exists (S i). cbn [list_find]. rewrite decide_False by assumption. rewrite Hfind.
    split; [reflexivity|]. cbn [delete list_delete]. split; [now constructor|].
    rewrite filter_cons_True by assumption. cbn [length]. f_equal. exact Hlen.
Qed.

(** One save into a history with one Base and a snapshot that is not
    named as the Base. *)
Lemma savedHistory_with_base snapshot sorted b :
  filter isBase sorted = [b] ->
  ~ isBase snapshot ->
  filter isBase (savedHistory snapshot sorted) = [b]
  /\ nonBaseCount (savedHistory snapshot sorted) = min 9 (S (nonBaseCount sorted))
  /\ length (savedHistory snapshot sorted) = S (nonBaseCount (savedHistory snapshot sorted)).
Proof.
  intros Hb Hs. destruct (find_the_base sorted b Hb) as (i & Hfind & Hall & Hlen).
  assert (Hbase : isBase b).
  { assert (Hin : b ∈ filter isBase sorted) by (rewrite Hb; apply list_elem_of_here).
    now apply list_elem_of_filter in Hin. }
  unfold savedHistory. rewrite Hfind.
  assert (Hkept : Forall (fun s => ~ isBase s)
                         (take (MAX_SNAPSHOTS - 1) (snapshot :: delete i sorted))).
  { apply Forall_take. now constructor. }
  destruct (all_nonBase_filter _ Hkept) as [Hnone Hself].
  unfold nonBaseCount. rewrite !filter_app, Hnone, Hself.
  rewrite filter_cons_True by assumption. rewrite filter_cons_False by tauto.
  rewrite !filter_nil, app_nil_r, length_app, length_take. cbn [length].
  rewrite Hlen. unfold MAX_SNAPSHOTS, nonBaseCount. split; [reflexivity|]. split; lia.
Qed.

Lemma sorted_base l b :
  filter isBase l = [b] -> filter isBase (sort_by newestFirst l) = [b].
Proof.
  intros Hb. symmetry. apply Permutation_singleton_l.
  rewrite <- Hb. now rewrite sort_by_perm.
Qed.

Lemma sorted_nonBaseCount l : nonBaseCount (sort_by newestFirst l) = nonBaseCount l.
Proof. unfold nonBaseCount. now rewrite sort_by_perm. Qed.

Lemma createSnapshots_cons r requests w :
  createSnapshots (r :: requests) w
  = createSnapshots requests (snd (createSnapshot (fst r) (snd r) w)).
Proof.
  destruct (createSnapshot_run (fst r) (snd r) w) as (snapshot & w' & Hrun & _).
  unfold createSnapshots. cbn [forM]. unfold bind at 1 2. rewrite Hrun. reflexivity.
Qed.

(** Any number of creations, none named as the Base, into a history with
    one Base. *)
Lemma createSnapshots_with_base requests : forall w b,
  filter isBase (World.snapshots w) = [b] ->
  Forall (fun r => fst r <> "Base Snapshot") requests ->
  filter isBase (World.snapshots (snd (createSnapshots requests w))) = [b]
  /\ (requests <> [] ->
      nonBaseCount (World.snapshots (snd (createSnapshots requests w)))
      = min 9 (nonBaseCount (World.snapshots w) + length requests)
      /\ length (World.snapshots (snd (createSnapshots requests w)))
         = S (nonBaseCount (World.snapshots (snd (createSnapshots requests w))))).
Proof.
  induction requests as [|r requests IH]; intros w b Hb Hnames.
  - split; [exact Hb | congruence].
  - apply Forall_cons in Hnames. destruct Hnames as [Hr Hnames].
    rewrite createSnapshots_cons.
    destruct (createSnapshot_run (fst r) (snd r) w) as (snapshot & w' & Hrun & Hname & Hhist).
    rewrite Hrun. cbn [snd].
    assert (Hs : ~ isBase snapshot) by (unfold isBase; congruence).
    destruct (savedHistory_with_base snapshot _ b (sorted_base _ _ Hb) Hs)
      as (Hb' & Hcount & Hlen).
    rewrite sorted_nonBaseCount in Hcount. rewrite <- Hhist in Hb', Hcount, Hlen.
    destruct (IH _ b Hb' Hnames) as [Hbase Hrest].
    split; [exact Hbase|]. intros _.
    destruct requests as [|r' requests'].
    + cbn [createSnapshots forM ret snd length]. split; [lia | exact Hlen].
    + destruct Hrest as [Hc Hl]; [discriminate|]. split; [|exact Hl].
      rewrite Hc, Hcount. cbn [length]. lia.
Qed.

(** Whatever the history holds, after a save it holds ten snapshots at
    most, the Base counted. *)
Lemma saveSnapshot_at_most_ten snapshot w :
  (length (World.snapshots (snd (saveSnapshot snapshot w))) <= MAX_SNAPSHOTS)%nat.
Proof.
  rewrite saveSnapshot_run. cbn [snd World.snapshots World.set_snapshots].
  unfold savedHistory, MAX_SNAPSHOTS.
  destruct (list_find isBase _) as [[i b]|].
  - rewrite length_app, length_take. cbn [length]. lia.
  - rewrite length_take. lia.
Qed.

(** C1, as stated, fails: after twelve named snapshots in a history that
    holds the Base snapshot, nine snapshots that are not the Base remain,
    ten snapshots in all. *)
Lemma twelve_snapshots_keep_nine :
  nonBaseCount (World.snapshots (snd (createSnapshots twelveRequests worldWithBase))) = 9%nat
  /\ length (World.snapshots (snd (createSnapshots twelveRequests worldWithBase))) = 10%nat
  /\ ~ (nonBaseCount (World.snapshots (snd (createSnapshots twelveRequests worldWithBase)))
        = 10%nat
        /\ length (World.snapshots (snd (createSnapshots twelveRequests worldWithBase)))
           = 11%nat).
Proof.
  assert (Hlen : length (World.snapshots (snd (createSnapshots twelveRequests worldWithBase)))
                 = 10%nat) by (vm_compute; reflexivity).
  split; [vm_compute; reflexivity|]. split; [exact Hlen|].
  intros [_ Heleven]. rewrite Hlen in Heleven. discriminate.
Qed.

(** One save: the newest stored snapshot named as the Base is set aside
    before the cut and put back after it, so it is in the history
    afterwards, with nine other snapshots at most.  The name of the
    snapshot that is saved plays no part. *)
Lemma saveSnapshot_keeps_newest_base snapshot w i b :
  list_find isBase (sort_by newestFirst (World.snapshots w)) = Some (i, b) ->
  b ∈ World.snapshots (snd (saveSnapshot snapshot w))
  /\ (nonBaseCount (World.snapshots (snd (saveSnapshot snapshot w))) <= 9)%nat
  /\ (length (World.snapshots (snd (saveSnapshot snapshot w))) <= 10)%nat.
Proof.
  intros Hfind. pose proof (saveSnapshot_at_most_ten snapshot w) as Hten.
  rewrite saveSnapshot_run in *. cbn [snd World.snapshots World.set_snapshots] in *.
  unfold savedHistory in *. rewrite Hfind in *. unfold MAX_SNAPSHOTS in *.
  apply list_find_Some in Hfind. destruct Hfind as [_ [Hb _]].
  split; [apply elem_of_app; right; apply list_elem_of_here|]. split; [|exact Hten].
  unfold nonBaseCount. rewrite filter_app, length_app.
  rewrite (filter_cons_False (fun s => ~ isBase s)) by (intros Hn; now apply Hn).
  rewrite filter_nil. cbn [length].
  pose proof (length_filter (fun s => ~ isBase s)
                (take (10 - 1) (snapshot :: delete i (sort_by newestFirst (World.snapshots w)))))
    as Hle.
  rewrite length_take in Hle. lia.
Qed.

(** The Base is known by its name alone.  A snapshot created under the
    name of the Base is the newest of that name from then on, and the one
    of the first run is kept like any other: after nine more creations it
    is gone. *)
Lemma same_name_takes_over :
  Forall (fun s => Snapshot.id s <> "snapshot-900-aaaaaa")
         (World.snapshots (snd (createSnapshots (("Base Snapshot", emptyState)
                                                   :: firstn 9 twelveRequests)
                                                worldWithBase)))
  /\ length (World.snapshots (snd (createSnapshots (("Base Snapshot", emptyState)
                                                      :: firstn 9 twelveRequests)
                                                   worldWithBase))) = 10%nat.
Proof.
  split; [|vm_compute; reflexivity].
  vm_compute. repeat (constructor; [discriminate|]). constructor.
Qed.

(** C1, amended.  The bound of ten is on the whole history, the Base
    included, and the Base is the snapshot that has its name.  From a
    history that holds one snapshot named as the Base, after one or more
    creations under other names: the Base is still there, and is still
    the only one; the snapshots that are not the Base number the smaller
    of nine and what the history held plus what was created, so never
    more than nine, ten with the Base; after twelve creations exactly
    nine of them remain, ten snapshots in all.  And for every single
    save, whatever the name of the snapshot saved: the newest stored
    snapshot named as the Base is in the history afterwards, with nine
    snapshots of other names at most, ten snapshots in all at most. *)
Theorem snapshot_history_bound (w : World.t) (b : Snapshot.t)
  (requests : list (string * GovernanceState.t)) :
  filter isBase (World.snapshots w) = [b] ->
  Forall (fun r => fst r <> "Base Snapshot") requests ->
  requests <> [] ->
  b ∈ World.snapshots (snd (createSnapshots requests w))
  /\ filter isBase (World.snapshots (snd (createSnapshots requests w))) = [b]
  /\ nonBaseCount (World.snapshots (snd (createSnapshots requests w)))
     = min 9 (nonBaseCount (World.snapshots w) + length requests)
  /\ (nonBaseCount (World.snapshots (snd (createSnapshots requests w))) <= 9)%nat
  /\ length (World.snapshots (snd (createSnapshots requests w)))
     = S (nonBaseCount (World.snapshots (snd (createSnapshots requests w))))
  /\ (length requests = 12%nat ->
      nonBaseCount (World.snapshots (snd (createSnapshots requests w))) = 9%nat
      /\ length (World.snapshots (snd (createSnapshots requests w))) = 10%nat)
  /\ (forall (w0 : World.t) (snapshot : Snapshot.t) (i : nat) (newestBase : Snapshot.t),
         list_find isBase (sort_by newestFirst (World.snapshots w0)) = Some (i, newestBase) ->
         newestBase ∈ World.snapshots (snd (saveSnapshot snapshot w0))
         /\ (nonBaseCount (World.snapshots (snd (saveSnapshot snapshot w0))) <= 9)%nat
         /\ (length (World.snapshots (snd (saveSnapshot snapshot w0))) <= 10)%nat).
Proof.
  intros Hb Hnames Hsome.
  destruct (createSnapshots_with_base requests w b Hb Hnames) as [Hbase Hcount].
  destruct (Hcount Hsome) as [Hc Hl].
  assert (Hin : b ∈ filter isBase (World.snapshots (snd (createSnapshots requests w))))
    by (rewrite Hbase; apply list_elem_of_here).
  apply list_elem_of_filter in Hin.
  split; [tauto|]. split; [exact Hbase|]. split; [exact Hc|].
  split; [lia|]. split; [exact Hl|]. split; [intros Htwelve; lia|].
  intros w0 snapshot i newestBase. apply saveSnapshot_keeps_newest_base.
Qed.

Lemma snapshot_history_bound_witness :
  nonBaseCount (World.snapshots (snd (createSnapshots twelveRequests worldWithBase))) = 9%nat
  /\ Snapshot.mk "snapshot-900-aaaaaa" "Base Snapshot" 900 "[]" emptyState
     ∈ World.snapshots (snd (createSnapshots twelveRequests worldWithBase)).
Proof.
  destruct (snapshot_history_bound worldWithBase
              (Snapshot.mk "snapshot-900-aaaaaa" "Base Snapshot" 900 "[]" emptyState)
              twelveRequests)
    as (Hin & _ & _ & _ & _ & Htwelve & _).
  - vm_compute. reflexivity.
  - unfold twelveRequests. cbn [map]. repeat (constructor; [discriminate|]). constructor.
  - discriminate.
  - split; [|exact Hin]. apply Htwelve. reflexivity.
Defined.

(** C2, as stated, fails: restoring a snapshot whose content is on one
    line writes the content parsed and printed again, on six lines, not
    the content as it was stored. *)
Lemma restoreSnapshot_not_verbatim :
  fst (restoreSnapshot (H := RefJson.builtins) "snapshot-950-bbbbbb" worldWithSnapshots)
  = Val (Some emptyState)
  /\ World.fileContent
       (snd (restoreSnapshot (H := RefJson.builtins) "snapshot-950-bbbbbb" worldWithSnapshots))
     = Some (js "[
  {
    'key': 'a',
    'command': 'b'
  }
]")
  /\ World.fileContent
       (snd (restoreSnapshot (H := RefJson.builtins) "snapshot-950-bbbbbb" worldWithSnapshots))
     <> Some (Snapshot.keybindingsContent compactSnapshot).
Proof.
  split; [vm_compute; reflexivity|]. split; [vm_compute; reflexivity|].
  intros Heq. vm_compute in Heq. discriminate.
Qed.

(** The content of a snapshot is the raw text of the file, and
    [restoreSnapshot] parses it with [JSON.parse], without the comment
    stripper of [parseKeybindings]: the snapshot of a file with a comment
    cannot be restored. *)
Lemma restoreSnapshot_throws_on_comment :
  restoreSnapshot (H := RefJson.builtins) "snapshot-900-aaaaaa" worldWithSnapshots
  = (Throw SyntaxError, worldWithSnapshots)
  /\ parseKeybindings (H := RefJson.builtins) (Snapshot.keybindingsContent commentedSnapshot)
     = [].
Proof. split; vm_compute; reflexivity. Qed.

(** C2, amended.  Restoring never touches the governance state.  For an
    id that no snapshot has, it answers undefined and leaves the file as
    it is.  For the id of a snapshot whose content [JSON.parse] accepts,
    it writes the value parsed and printed again by [JSON.stringify] with
    an indentation of two (the empty array when the value is not an
    array), and answers the governance state stored in the snapshot. *)
Theorem restoreSnapshot_spec `{JsonBuiltins} (w : World.t) (snapshotId : string) :
  World.state (snd (restoreSnapshot snapshotId w)) = World.state w
  /\ match list_find (fun s => Snapshot.id s = snapshotId)
                     (sort_by newestFirst (World.snapshots w)) with
     | None =>
         fst (restoreSnapshot snapshotId w) = Val None
         /\ World.fileContent (snd (restoreSnapshot snapshotId w)) = World.fileContent w
     | Some (_, snapshot) =>
         match JSON_parse (Snapshot.keybindingsContent snapshot) with
         | Some parsed =>
             fst (restoreSnapshot snapshotId w) = Val (Some (Snapshot.governanceState snapshot))
             /\ World.fileContent (snd (restoreSnapshot snapshotId w))
                = Some (JSON_stringify
                          (JArr (match parsed with JArr items => items | _ => [] end)))
         | None => True
         end
     end.
Proof.
  unfold restoreSnapshot, bind. rewrite getSnapshots_run.
  destruct (list_find _ _) as [[i snapshot]|]; [|split; [|split]; reflexivity].
  destruct (JSON_parse (Snapshot.keybindingsContent snapshot)) as [parsed|];
    [|split; [reflexivity | exact I]].
  split; [|split]; reflexivity.
Qed.

(* --------------------------------------------------------------------- *)
(** ** The comment stripper                                               *)
(* --------------------------------------------------------------------- *)

Lemma not_backslash c : Ascii.eqb c backslash = false -> Some c <> Some backslash.
Proof. intros Hc [= ->]. now rewrite Ascii.eqb_refl in Hc. Qed.

Lemma strip_loop_ref n : forall rest mode result prevChar,
  (length rest <= n)%nat ->
  noBackslash rest = true ->
  prevChar <> Some backslash ->
  strip_loop (stateOf mode result) prevChar rest = rev result ++ strip_ref mode rest.
Proof.
  induction n as [|n IH]; intros rest mode result prevChar Hlen Hnb Hprev.
  - destruct rest; [|cbn in Hlen; lia]. destruct mode; cbn; now rewrite app_nil_r.
  - destruct rest as [|c rest]; [destruct mode; cbn; now rewrite app_nil_r|].
    cbn [length] in Hlen. cbn [noBackslash forallb] in Hnb.
    apply andb_true_iff in Hnb. destruct Hnb as [Hc Hnb]. apply negb_true_iff in Hc.
    fold (noBackslash rest) in Hnb. pose proof (not_backslash c Hc) as Hc'.
    assert (Hstep : forall mode' result',
               strip_loop (stateOf mode' result') (Some c) rest
               = rev result' ++ strip_ref mode' rest)
      by (intros; apply IH; [lia | assumption | assumption]).
    assert (Hskip : forall mode' result' d rest',
               rest = d :: rest' ->
               strip_loop (stateOf mode' result') (Some d) rest'
               = rev result' ++ strip_ref mode' rest').
    { intros mode' result' d rest' ->. cbn [length] in Hlen.
      cbn [noBackslash forallb] in Hnb. apply andb_true_iff in Hnb.
      destruct Hnb as [Hd Hnb]. apply negb_true_iff in Hd.
      apply IH; [lia | assumption | now apply not_backslash]. }
    destruct mode; cbn [strip_loop strip_step stateOf strip_ref head].
    + destruct (Ascii.eqb c dquote).
      { fold_stateOf. rewrite Hstep. cbn [rev]. now rewrite <- app_assoc. }
      destruct rest as [|d rest'].
      { cbn [head andb]. rewrite !andb_false_r. cbn [strip_loop rev Strip.result]. reflexivity. }
      cbn [head]. destruct (Ascii.eqb c "/" && Ascii.eqb d "/").
      { fold_stateOf. now rewrite (Hskip InLine result d rest'). }
      destruct (Ascii.eqb c "/" && Ascii.eqb d "*").
      { fold_stateOf. now rewrite (Hskip InBlock result d rest'). }
      fold_stateOf. rewrite Hstep. cbn [rev]. now rewrite <- app_assoc.
    + rewrite Hc.
      assert (Hp : match prevChar with Some d => Ascii.eqb d backslash | None => false end
                   = false).
      { destruct prevChar as [d|]; [|reflexivity]. apply Ascii.eqb_neq. congruence. }
      rewrite Hp. cbn [negb]. rewrite andb_true_r.
      destruct (Ascii.eqb c dquote); cbn [negb].
      * fold_stateOf. rewrite Hstep. cbn [rev]. now rewrite <- app_assoc.
      * fold_stateOf. rewrite Hstep. cbn [rev]. now rewrite <- app_assoc.
    + destruct (Ascii.eqb c newline).
      * fold_stateOf. rewrite Hstep. cbn [rev]. now rewrite <- app_assoc.
      * fold_stateOf. now rewrite Hstep.
    + destruct rest as [|d rest'].
      { cbn [head]. rewrite andb_false_r. cbn [strip_loop Strip.result].
        now rewrite app_nil_r. }
      cbn [head]. destruct (Ascii.eqb c "*" && Ascii.eqb d "/").
      { fold_stateOf. now rewrite (Hskip InCode result d rest'). }
      fold_stateOf. now rewrite Hstep.
Qed.

(** X2.  On a text without backslash the stripper does what the
    specification says: it drops the comments outside string literals and
    copies the rest. *)
Lemma stripJsonComments_without_backslash content :
  noBackslash (chars content) = true ->
  stripJsonComments content = stripJsonComments_ref content.
Proof.
  intros Hnb. unfold stripJsonComments, stripJsonComments_ref. f_equal.
  now apply (strip_loop_ref (length (chars content)) (chars content) InCode []).
Qed.

(** C9.  The stripper takes a quote for the end of a string unless the
    character before it is a backslash; it does not see that this
    backslash may itself be escaped.  After a string that ends in an
    escaped backslash it is out of step with the strings of the text.
    In the first file the comment after the array stays, and the parse
    fails where the array alone parses to one entry; in the second file,
    which has no comment and is accepted by [JSON.parse] as it is, the
    text from the two slashes inside the last string on is cut off.  Both
    files are read as the empty list.  The stripping of the specification
    drops the comment of the first file and leaves the second as it is. *)
Theorem parseKeybindings_escaped_backslash :
  stripJsonComments backslashKeyFile = backslashKeyFile
  /\ stripJsonComments_ref backslashKeyFile = backslashKeyArray
  /\ parseKeybindings (H := RefJson.builtins) backslashKeyFile = []
  /\ parseKeybindings (H := RefJson.builtins) backslashKeyArray
     = [makeEntry "ctrl+\" "x" None]
  /\ stripJsonComments backslashUrlFile
     = js "[{'key':'ctrl+\\','command':'open','args':'http:"
  /\ stripJsonComments_ref backslashUrlFile = backslashUrlFile
  /\ RefJson.parse backslashUrlFile
     = Some (JArr [JObj [("key", JStr "ctrl+\"); ("command", JStr "open");
                         ("args", JStr "http://host/")]])
  /\ parseKeybindings (H := RefJson.builtins) backslashUrlFile = [].
Proof. repeat split; vm_compute; reflexivity. Qed.

(* --------------------------------------------------------------------- *)
(** ** Conflict detection                                                 *)
(* --------------------------------------------------------------------- *)

Section Grouping.
Variable bindings : list Keybinding.t.

Lemma remaining_cons_processed j js processed :
  j ∈ processed ->
  remaining bindings (j :: js) processed = remaining bindings js processed.
Proof. intros Hj. cbn [remaining]. now rewrite decide_True. Qed.

Lemma remaining_cons_missing j js processed :
  bindings !! j = None ->
  remaining bindings (j :: js) processed = remaining bindings js processed.
Proof. intros Hj. cbn [remaining]. rewrite Hj. now destruct (decide _). Qed.

Lemma remaining_cons_unprocessed j b js processed :
  j ∉ processed -> bindings !! j = Some b ->
  remaining bindings (j :: js) processed = b :: remaining bindings js processed.
Proof. intros Hj Hb. cbn [remaining]. rewrite Hb. now rewrite decide_False. Qed.

Lemma absorb_processed seed group processed j :
  j ∈ processed -> absorb bindings seed (group, processed) j = (group, processed).
Proof. intros Hj. unfold absorb. now rewrite decide_True. Qed.

Lemma absorb_missing seed group processed j :
  bindings !! j = None -> absorb bindings seed (group, processed) j = (group, processed).
Proof. intros Hj. unfold absorb. rewrite Hj. now destruct (decide _). Qed.

Lemma absorb_unprocessed seed group processed j b :
  j ∉ processed -> bindings !! j = Some b ->
  absorb bindings seed (group, processed) j
  = if overlapping seed b then (group ++ [b], {[j]} ∪ processed) else (group, processed).
Proof. intros Hj Hb. unfold absorb. rewrite Hb. now rewrite decide_False. Qed.

Lemma remaining_processed_elsewhere js j processed :
  j ∉ js ->
  remaining bindings js ({[j]} ∪ processed) = remaining bindings js processed.
Proof.
  induction js as [|k js IH]; intros Hj; [reflexivity|].
  apply not_elem_of_cons in Hj. destruct Hj as [Hjk Hj].
  destruct (decide (k ∈ processed)) as [Hk|Hk].
  - rewrite !remaining_cons_processed by set_solver. now apply IH.
  - destruct (bindings !! k) as [b|] eqn:Hb.
    + rewrite !(remaining_cons_unprocessed k b) by set_solver. f_equal. now apply IH.
    + rewrite !remaining_cons_missing by assumption. now apply IH.
Qed.

(** The inner loop over the indices [js]: the group takes the remaining
    bindings that overlap the seed, and these are processed after it. *)
Lemma absorb_fold seed js : forall group processed,
  NoDup js ->
  fst (fold_left (absorb bindings seed) js (group, processed))
  = group ++ List.filter (overlapping seed) (remaining bindings js processed)
  /\ remaining bindings js (snd (fold_left (absorb bindings seed) js (group, processed)))
     = List.filter (fun b => negb (overlapping seed b)) (remaining bindings js processed)
  /\ processed ⊆ snd (fold_left (absorb bindings seed) js (group, processed))
  /\ (forall j, j ∈ snd (fold_left (absorb bindings seed) js (group, processed)) ->
                j ∈ processed \/ j ∈ js).
Proof.
  induction js as [|j js IH]; intros group processed Hnd.
  - cbn. rewrite app_nil_r. repeat split; [set_solver | tauto].
  - apply NoDup_cons in Hnd. destruct Hnd as [Hj Hnd]. cbn [fold_left].
    destruct (decide (j ∈ processed)) as [Hp|Hp].
    { rewrite absorb_processed by assumption.
      destruct (IH group processed Hnd) as (Hg & Hr & Hsub & Horigin).
      rewrite !remaining_cons_processed by set_solver.
      split; [exact Hg|]. split; [exact Hr|]. split; [exact Hsub|].
      intros k Hk. destruct (Horigin k Hk); set_solver. }
    destruct (bindings !! j) as [bj|] eqn:Hbj.
    2:{ rewrite absorb_missing by assumption.
        destruct (IH group processed Hnd) as (Hg & Hr & Hsub & Horigin).
        rewrite !remaining_cons_missing by assumption.
        split; [exact Hg|]. split; [exact Hr|]. split; [exact Hsub|].
        intros k Hk. destruct (Horigin k Hk); set_solver. }
    rewrite (absorb_unprocessed seed group processed j bj) by assumption.
    rewrite (remaining_cons_unprocessed j bj js processed) by assumption.
    cbn [List.filter]. destruct (overlapping seed bj) eqn:Hov; cbn [negb].
    + destruct (IH (group ++ [bj]) ({[j]} ∪ processed) Hnd) as (Hg & Hr & Hsub & Horigin).
      rewrite remaining_processed_elsewhere in Hg, Hr by assumption.
      rewrite remaining_cons_processed by set_solver.
      split; [|split; [|split]].
      * rewrite Hg. now rewrite <- app_assoc.
      * exact Hr.
      * set_solver.
      * intros k Hk. destruct (Horigin k Hk); set_solver.
    + destruct (IH group processed Hnd) as (Hg & Hr & Hsub & Horigin).
      assert (Hnot : j ∉ snd (fold_left (absorb bindings seed) js (group, processed))).
      { intros Hk. destruct (Horigin j Hk); contradiction. }
      rewrite (remaining_cons_unprocessed j bj) by assumption.
      split; [exact Hg|]. split; [now rewrite Hr|]. split; [exact Hsub|].
      intros k Hk. destruct (Horigin k Hk); set_solver.
Qed.

Lemma seedAt_processed groups processed k :
  k ∈ processed -> seedAt bindings (groups, processed) k = (groups, processed).
Proof. intros Hk. unfold seedAt. now rewrite decide_True. Qed.

Lemma seedAt_missing groups processed k :
  bindings !! k = None -> seedAt bindings (groups, processed) k = (groups, processed).
Proof. intros Hk. unfold seedAt. rewrite Hk. now destruct (decide _). Qed.

Lemma seedAt_unprocessed groups processed k b :
  k ∉ processed -> bindings !! k = Some b ->
  seedAt bindings (groups, processed) k
  = (groups ++ [fst (fold_left (absorb bindings b)
                               (seq (S k) (length bindings - S k))
                               ([b], {[k]} ∪ processed))],
     snd (fold_left (absorb bindings b)
                    (seq (S k) (length bindings - S k))
                    ([b], {[k]} ∪ processed))).
Proof.
  intros Hk Hb. unfold seedAt. rewrite Hb. rewrite decide_False by assumption.
  now destruct (fold_left _ _ _).
Qed.

(** The outer loop from index [k] on: the groups seeded among the
    remaining bindings. *)
Lemma seedAt_fold m : forall k groups processed,
  (k + m = length bindings)%nat ->
  fst (fold_left (seedAt bindings) (seq k m) (groups, processed))
  = groups ++ clusterBy overlapping (remaining bindings (seq k m) processed).
Proof.
  induction m as [|m IH]; intros k groups processed Hkm.
  - cbn. simp clusterBy. now rewrite app_nil_r.
  - cbn [seq fold_left].
    destruct (decide (k ∈ processed)) as [Hp|Hp].
    { rewrite seedAt_processed, remaining_cons_processed by assumption. apply IH. lia. }
    destruct (bindings !! k) as [bk|] eqn:Hbk.
    2:{ rewrite seedAt_missing, remaining_cons_missing by assumption. apply IH. lia. }
    rewrite (seedAt_unprocessed groups processed k bk) by assumption.
    rewrite (remaining_cons_unprocessed k bk) by assumption.
    replace (length bindings - S k)%nat with m by lia.
    assert (Hnd : NoDup (seq (S k) m)) by apply NoDup_seq.
    assert (Hk : k ∉ seq (S k) m) by (rewrite elem_of_seq; lia).
    destruct (absorb_fold bk (seq (S k) m) [bk] ({[k]} ∪ processed) Hnd)
      as (Hg & Hr & _ & _).
    rewrite remaining_processed_elsewhere in Hg, Hr by assumption.
    rewrite IH by lia. rewrite Hr, Hg. simp clusterBy.
    now rewrite <- app_assoc.
Qed.

End Grouping.

Lemma remaining_all pre l :
  remaining (pre ++ l) (seq (length pre) (length l)) ∅ = l.
Proof.
  revert pre. induction l as [|b l IH]; intros pre; [reflexivity|].
  cbn [length seq remaining]. rewrite decide_False by set_solver.
  rewrite list_lookup_middle by reflexivity. f_equal.
  specialize (IH (pre ++ [b])). rewrite <- app_assoc, length_app in IH.
  cbn [length app] in IH. rewrite Nat.add_1_r in IH. exact IH.
Qed.

(** The index loops of [groupByContext] build the groups seeded in list
    order. *)
Lemma groupByContext_clusterBy bindings :
  groupByContext bindings = clusterBy overlapping bindings.
Proof.
  unfold groupByContext. rewrite seedAt_fold by reflexivity.
  pose proof (remaining_all [] bindings) as Hall. cbn [app length] in Hall.
  now rewrite Hall.
Qed.

Lemma JsMap_get_None {V} (k : string) (m : list (string * V)) :
  JsMap.get k m = None <-> Forall (fun e => String.eqb (fst e) k = false) m.
Proof.
  induction m as [|[k' v'] m IH]; cbn [JsMap.get].
  - split; [constructor | reflexivity].
  - rewrite Forall_cons. cbn [fst]. destruct (String.eqb k' k); [|tauto].
    split; [discriminate | intros [? _]; discriminate].
Qed.

Lemma JsMap_get_None_keys {V} (k : string) (m : list (string * V)) :
  JsMap.get k m = None -> k ∉ map fst m.
Proof.
  rewrite JsMap_get_None. intros Hall Hin. apply list_elem_of_fmap in Hin.
  destruct Hin as [e [-> He]]. rewrite Forall_forall in Hall.
  specialize (Hall e He). now rewrite String.eqb_refl in Hall.
Qed.

Lemma JsMap_set_fresh {V} (k : string) (v : V) (m : list (string * V)) :
  JsMap.get k m = None -> JsMap.set k v m = m ++ [(k, v)].
Proof.
  induction m as [|[k' v'] m IH]; cbn [JsMap.get JsMap.set app]; [reflexivity|].
  destruct (String.eqb k' k); [discriminate|]. intros Hm. now rewrite IH.
Qed.

Lemma JsMap_get_app_fresh {V} (k k' : string) (v : V) (m : list (string * V)) :
  JsMap.get k' (m ++ [(k, v)])
  = match JsMap.get k' m with
    | Some x => Some x
    | None => if String.eqb k k' then Some v else None
    end.
Proof.
  induction m as [|[k0 v0] m IH]; cbn [JsMap.get app]; [reflexivity|].
  now destruct (String.eqb k0 k').
Qed.

Lemma map_replace_absent {V} (k : string) (v : V) (m : list (string * V)) :
  Forall (fun e => String.eqb (fst e) k = false) m ->
  map (fun e => if String.eqb (fst e) k then (fst e, v) else e) m = m.
Proof.
  induction 1 as [|e m He Hm IHm]; [reflexivity|]. cbn [map]. now rewrite He, IHm.
Qed.

(** With distinct keys, [set] on a present key is a replacement of the
    value wherever the key is. *)
Lemma JsMap_set_present {V} (k : string) (v v0 : V) (m : list (string * V)) :
  NoDup (map fst m) ->
  JsMap.get k m = Some v0 ->
  JsMap.set k v m = map (fun e => if String.eqb (fst e) k then (fst e, v) else e) m
  /\ (forall e, e ∈ m -> String.eqb (fst e) k = true -> snd e = v0).
Proof.
  induction m as [|[k' v'] m IH]; [discriminate|].
  cbn [map fst JsMap.get JsMap.set]. intros Hnd. apply NoDup_cons in Hnd.
  destruct Hnd as [Hk' Hnd]. destruct (String.eqb k' k) eqn:Hkk.
  - intros [= ->]. apply String.eqb_eq in Hkk. subst k'.
    assert (Hrest : Forall (fun e => String.eqb (fst e) k = false) m).
    { apply Forall_forall. intros e He. apply String.eqb_neq. intros Heq.
      apply Hk'. apply list_elem_of_fmap. exists e. split; [now rewrite Heq | exact He]. }
    split.
    + f_equal. symmetry. now apply map_replace_absent.
    + intros e He Hek. apply elem_of_cons in He. destruct He as [-> | He]; [reflexivity|].
      rewrite Forall_forall in Hrest. rewrite (Hrest e He) in Hek. discriminate.
  - intros Hget. destruct (IH Hnd Hget) as [Hset Hval]. split.
    + now rewrite Hset.
    + intros e He Hek. apply elem_of_cons in He. destruct He as [-> | He].
      * cbn [fst] in Hek. congruence.
      * now apply Hval.
Qed.

Lemma filter_filter_implied {A} (p q : A -> bool) l :
  (forall x, p x = true -> q x = true) ->
  List.filter p (List.filter q l) = List.filter p l.
Proof.
  intros Hpq. induction l as [|x l IH]; [reflexivity|]. cbn [List.filter].
  destruct (q x) eqn:Hq; cbn [List.filter].
  - now rewrite IH.
  - destruct (p x) eqn:Hp; [|exact IH]. rewrite (Hpq x Hp) in Hq. discriminate.
Qed.

Lemma filter_filter_both {A} (p q : A -> bool) l :
  List.filter p (List.filter q l) = List.filter (fun x => q x && p x) l.
Proof.
  induction l as [|x l IH]; [reflexivity|]. cbn [List.filter].
  destruct (q x); cbn [List.filter andb]; now rewrite IH.
Qed.

Lemma map_extendBucket_nil m : map (extendBucket []) m = m.
Proof.
  induction m as [|[k bs] m IH]; [reflexivity|]. cbn [map]. rewrite IH.
  unfold extendBucket. cbn. now rewrite app_nil_r.
Qed.

(** The loop that fills the key map: the buckets it had grow by the
    bindings of their key, and the bindings of new keys form new buckets
    in the order in which their keys first occur. *)
Lemma addToKeyMap_fold l : forall keyMap,
  NoDup (map fst keyMap) ->
  fold_left addToKeyMap l keyMap
  = map (extendBucket l) keyMap
    ++ map labelled (clusterBy sameNormalizedKey (List.filter (isFresh keyMap) l)).
Proof.
  induction l as [|b l IH]; intros keyMap Hnd.
  - cbn [fold_left List.filter]. simp clusterBy. cbn [map].
    now rewrite app_nil_r, map_extendBucket_nil.
  - cbn [fold_left List.filter]. unfold addToKeyMap at 2. unfold isFresh at 1.
    fold (keyOf b). destruct (JsMap.get (keyOf b) keyMap) as [bs|] eqn:Hget.
    + cbn [default from_option id]. destruct (JsMap_set_present (keyOf b) (bs ++ [b]) bs keyMap Hnd Hget)
        as [Hset Hval].
      rewrite Hset. rewrite IH.
      2:{ rewrite map_map.
          erewrite map_ext; [exact Hnd|]. intros e. cbn. now destruct (String.eqb _ _). }
      f_equal.
      * rewrite map_map. apply map_ext_in. intros [k' bs'] He.
        apply list_elem_of_In in He. cbn [fst]. unfold extendBucket.
        destruct (String.eqb k' (keyOf b)) eqn:Hk; cbn [fst snd List.filter].
        -- unfold hasKey at 2. rewrite Hk.
           pose proof (Hval (k', bs') He Hk) as Hv. cbn [snd] in Hv. subst bs'.
           now rewrite <- app_assoc.
        -- unfold hasKey at 2. now rewrite Hk.
      * f_equal. f_equal. apply List.filter_ext. intros x. unfold isFresh.
        destruct (JsMap.get (keyOf x) keyMap) as [xs|] eqn:Hx.
        -- destruct (JsMap.get (keyOf x) (map _ keyMap)) eqn:Hx'; [reflexivity|].
           apply JsMap_get_None in Hx'. rewrite Forall_map in Hx'.
           assert (Hnone : JsMap.get (keyOf x) keyMap = None).
           { apply JsMap_get_None. eapply Forall_impl; [exact Hx'|].
             intros e. cbn. now destruct (String.eqb (fst e) (keyOf b)). }
           congruence.
        -- apply JsMap_get_None in Hx.
           assert (Hnone : JsMap.get (keyOf x) (map (fun e => if String.eqb (fst e) (keyOf b)
                                                      then (fst e, bs ++ [b]) else e) keyMap)
                           = None).
           { apply JsMap_get_None. rewrite Forall_map. eapply Forall_impl; [exact Hx|].
             intros e. cbn. now destruct (String.eqb (fst e) (keyOf b)). }
           now rewrite Hnone.
    + cbn [default from_option id app]. rewrite (JsMap_set_fresh _ _ _ Hget). rewrite IH.
      2:{ rewrite map_app. cbn [map fst]. apply NoDup_app. split; [exact Hnd|].
          split; [|apply NoDup_singleton].
          intros k Hk Hk'. apply list_elem_of_singleton in Hk'. subst k.
          now apply JsMap_get_None_keys in Hget. }
      rewrite map_app, <- app_assoc. f_equal.
      * apply map_ext_in. intros [k' bs'] He. unfold extendBucket. cbn [fst snd List.filter].
        unfold hasKey at 2. apply JsMap_get_None in Hget. rewrite Forall_forall in Hget.
        apply list_elem_of_In in He. specialize (Hget _ He). cbn [fst] in Hget.
        now rewrite Hget.
      * simp clusterBy. cbn [map app]. f_equal.
        -- unfold labelled, extendBucket. cbn [fst snd app]. f_equal. f_equal.
           rewrite filter_filter_implied; [reflexivity|].
           intros x Hx. unfold sameNormalizedKey in Hx. fold (keyOf b) (keyOf x) in Hx.
           apply String.eqb_eq in Hx. unfold isFresh. now rewrite <- Hx, Hget.
        -- f_equal. f_equal. rewrite filter_filter_both. apply List.filter_ext.
           intros x. unfold isFresh. rewrite JsMap_get_app_fresh.
           unfold sameNormalizedKey. fold (keyOf b) (keyOf x).
           destruct (JsMap.get (keyOf x) keyMap); [reflexivity|].
           now destruct (String.eqb (keyOf b) (keyOf x)).
Qed.

Lemma flat_map_map {A B C} (f : B -> list C) (g : A -> B) l :
  flat_map f (map g l) = flat_map (fun x => f (g x)) l.
Proof. induction l as [|x l IH]; [reflexivity|]. cbn. now rewrite IH. Qed.

Lemma filter_all {A} (p : A -> bool) l : (forall x, p x = true) -> List.filter p l = l.
Proof.
  intros Hp. induction l as [|x l IH]; [reflexivity|]. cbn. now rewrite Hp, IH.
Qed.

Lemma detectConflicts_refines userBindings extensionBindings :
  detectConflicts userBindings extensionBindings
  = detectConflicts_spec userBindings extensionBindings.
Proof.
  unfold detectConflicts, detectConflicts_spec.
  rewrite addToKeyMap_fold by constructor. cbn [map app].
  rewrite (filter_all (isFresh [])) by reflexivity.
  rewrite flat_map_map. apply flat_map_ext. intros bucket. cbn [labelled snd].
  unfold conflictsOfBucket. now rewrite groupByContext_clusterBy.
Qed.

(** C7.  [detectConflicts] is the construction of the specification:
    all bindings, those of the user first, are put into buckets by
    normalized key; in each bucket of two or more, groups are built by
    seeding on the first binding that is left and absorbing every
    remaining binding whose context overlaps the context of the seed; the
    groups of two or more are emitted.  A user binding and an extension
    binding on ctrl+k without contexts give one group, which involves a
    user binding; with the contexts editorTextFocus and !editorTextFocus
    they give no group.  Absorbed bindings are not compared with each
    other: behind a seed without context, two bindings with contradictory
    contexts end in one group; with one of them as the seed, they do
    not. *)
Theorem detectConflicts_by_seeding :
  (forall userBindings extensionBindings,
      detectConflicts userBindings extensionBindings
      = flat_map
          (fun bucket =>
             if (2 <=? length bucket)%nat then
               map conflictOf
                   (List.filter (fun group => (2 <=? length group)%nat)
                                (clusterBy overlapping bucket))
             else [])
          (clusterBy sameNormalizedKey (userBindings ++ extensionBindings)))
  /\ detectConflicts [userBinding "ctrl+k" "foo" None] [extBinding "ctrl+k" "bar" None]
     = [KeybindingConflict.mk "ctrl+k"
          [userBinding "ctrl+k" "foo" None; extBinding "ctrl+k" "bar" None] true]
  /\ detectConflicts [userBinding "ctrl+k" "foo" (Some "editorTextFocus")]
                     [extBinding "ctrl+k" "bar" (Some "!editorTextFocus")]
     = []
  /\ map KeybindingConflict.bindings
         (detectConflicts []
            [extBinding "Ctrl+K" "any" None;
             extBinding "ctrl+k" "on" (Some "editorTextFocus");
             extBinding "ctrl+k" "off" (Some "!editorTextFocus")])
     = [[extBinding "Ctrl+K" "any" None;
         extBinding "ctrl+k" "on" (Some "editorTextFocus");
         extBinding "ctrl+k" "off" (Some "!editorTextFocus")]]
  /\ map KeybindingConflict.bindings
         (detectConflicts []
            [extBinding "ctrl+k" "on" (Some "editorTextFocus");
             extBinding "Ctrl+K" "any" None;
             extBinding "ctrl+k" "off" (Some "!editorTextFocus")])
     = [[extBinding "ctrl+k" "on" (Some "editorTextFocus");
         extBinding "Ctrl+K" "any" None]].
Proof.
  split; [exact detectConflicts_refines|].
  repeat split; vm_compute; reflexivity.
Qed.

(** What the misreading costs: a deactivation applied to the second file
    reads the empty list and writes it back with the negation entry, and
    the binding of the user is gone from the file. *)
Lemma deactivateKeybinding_after_misread :
  RefJson.parse backslashUrlFile
  = Some (JArr [JObj [("key", JStr "ctrl+\"); ("command", JStr "open");
                      ("args", JStr "http://host/")]])
  /\ World.fileContent
       (snd (deactivateKeybinding (H := RefJson.builtins) "ctrl+k" "ext.run" None
                                  (worldWithFile backslashUrlFile)))
     = Some (RefJson.stringify (JArr [makeEntry "ctrl+k" "-ext.run" None])).
Proof. split; vm_compute; reflexivity. Qed.

(* --------------------------------------------------------------------- *)
(** ** More on the keybindings file                                       *)
(* --------------------------------------------------------------------- *)

Lemma strip_loop_no_slash rest : forall result inString prevChar,
  noSlash rest = true ->
  strip_loop (Strip.mk result inString false false) prevChar rest = rev result ++ rest.
Proof.
  induction rest as [|c rest IH]; intros result inString prevChar Hns.
  - cbn. now rewrite app_nil_r.
  - cbn [noSlash forallb] in Hns. apply andb_true_iff in Hns. destruct Hns as [Hc Hns].
    apply negb_true_iff in Hc. fold (noSlash rest) in Hns.
    cbn [strip_loop strip_step]. destruct inString.
    + rewrite IH by assumption. cbn [rev]. now rewrite <- app_assoc.
    + rewrite Hc. cbn [andb].
      destruct (Ascii.eqb c dquote); rewrite IH by assumption; cbn [rev];
        now rewrite <- app_assoc.
Qed.

(** X1.  A text without any slash passes the comment stripper unchanged,
    whatever its quotes and backslashes; such a file is read as exactly
    what [JSON.parse] makes of it (the empty list when that is no
    array). *)
Theorem stripJsonComments_no_slash `{JsonBuiltins} (content : string) :
  noSlash (chars content) = true ->
  stripJsonComments content = content
  /\ parseKeybindings content
     = match JSON_parse content with Some (JArr parsed) => parsed | _ => [] end.
Proof.
  intros Hns.
  assert (Hstrip : stripJsonComments content = content).
  { unfold stripJsonComments. rewrite strip_loop_no_slash by assumption.
    cbn [rev app]. apply string_of_list_ascii_of_string. }
  split; [exact Hstrip|]. unfold parseKeybindings. now rewrite Hstrip.
Qed.

Lemma stripJsonComments_no_slash_witness :
  stripJsonComments rebindExampleFile = rebindExampleFile
  /\ parseKeybindings (H := RefJson.builtins) rebindExampleFile
     = match RefJson.parse rebindExampleFile with Some (JArr parsed) => parsed | _ => [] end.
Proof. apply (stripJsonComments_no_slash (H := RefJson.builtins)). vm_compute. reflexivity. Defined.

Lemma stripJsonComments_without_backslash_witness :
  stripJsonComments remapExampleFile = stripJsonComments_ref remapExampleFile.
Proof. apply stripJsonComments_without_backslash. vm_compute. reflexivity. Defined.

Lemma findIndexFrom_firstIndex key negatedCommand when l : forall start,
  noNull l = true ->
  findIndexFrom (matchesNegation key negatedCommand when) l start
  = Val ((fun i => (start + i)%nat) <$> firstIndex (negationMatch key negatedCommand when) l).
Proof.
  induction l as [|kb l IH]; intros start Hn; [reflexivity|].
  apply noNull_cons in Hn. destruct Hn as [Hkb Hl].
  cbn [findIndexFrom firstIndex]. rewrite matchesNegation_not_null by assumption.
  destruct (negationMatch key negatedCommand when kb).
  - cbn. do 2 f_equal. lia.
  - rewrite IH by assumption. f_equal.
    destruct (firstIndex _ l) as [i|]; cbn; [|reflexivity]. f_equal. lia.
Qed.

Lemma firstIndex_Some {A} (p : A -> bool) l : forall i,
  firstIndex p l = Some i ->
  (exists x, l !! i = Some x /\ p x = true)
  /\ Forall (fun x => p x = false) (take i l).
Proof.
  induction l as [|x l IH]; intros i Hi; [discriminate|].
  cbn [firstIndex] in Hi. destruct (p x) eqn:Hx.
  - injection Hi as <-. split; [exists x; now split | constructor].
  - destruct (firstIndex p l) as [j|]; [|discriminate]. injection Hi as <-.
    destruct (IH j eq_refl) as [Hex Hbefore]. split; [exact Hex|].
    cbn [take]. now constructor.
Qed.

Lemma firstIndex_None {A} (p : A -> bool) l :
  firstIndex p l = None -> Forall (fun x => p x = false) l.
Proof.
  induction l as [|x l IH]; intros Hi; [constructor|].
  cbn [firstIndex] in Hi. destruct (p x) eqn:Hx; [discriminate|].
  destruct (firstIndex p l); [discriminate|]. constructor; auto.
Qed.

(** X3.  On a list of objects, [restoreKeybinding] removes the first
    entry that is the negation of the command on this key and context,
    and nothing else: the entries before it do not match, the list
    written is one shorter, and the answer is true.  When no entry
    matches, the answer is false and the file is not written at all. *)
Theorem restoreKeybinding_first_match `{JsonBuiltins} (w : World.t) (key command : string)
  (when : option string) :
  let L := readEntries w in
  let isNegation := negationMatch key ("-" +:+ command) when in
  noNull L = true ->
  match firstIndex isNegation L with
  | None =>
      restoreKeybinding key command when w = (Val false, w)
      /\ Forall (fun kb => isNegation kb = false) L
  | Some i =>
      restoreKeybinding key command when w
      = (Val true, World.set_fileContent (Some (JSON_stringify (JArr (delete i L)))) w)
      /\ (exists kb, L !! i = Some kb /\ isNegation kb = true)
      /\ Forall (fun kb => isNegation kb = false) (take i L)
      /\ S (length (delete i L)) = length L
  end.
Proof.
  intros L isNegation Hn.
  assert (Hrun : restoreKeybinding key command when w
                 = match firstIndex isNegation L with
                   | None => (Val false, w)
                   | Some i =>
                       (Val true,
                        World.set_fileContent (Some (JSON_stringify (JArr (delete i L)))) w)
                   end).
  { unfold restoreKeybinding, bind. rewrite read_run. fold L. unfold lift, findIndex.
    rewrite findIndexFrom_firstIndex by assumption. fold isNegation.
    destruct (firstIndex isNegation L); reflexivity. }
  destruct (firstIndex isNegation L) as [i|] eqn:Hi.
  - destruct (firstIndex_Some _ _ _ Hi) as [[kb [Hkb Hm]] Hbefore].
    split; [exact Hrun|]. split; [now exists kb|]. split; [exact Hbefore|].
    rewrite length_delete by (now exists kb).
    apply lookup_lt_Some in Hkb. lia.
  - split; [exact Hrun | now apply firstIndex_None].
Qed.

Lemma restoreKeybinding_first_match_witness :
  restoreKeybinding (H := RefJson.builtins) "ctrl+r" "ext.run" (Some "editorTextFocus")
                    (worldWithFile remapExampleFile)
  = (Val true,
     World.set_fileContent
       (Some (RefJson.stringify
                (JArr [JObj [("key", JStr "ctrl+k"); ("command", JStr "editor.fold")];
                       makeEntry "ctrl+l" "ext.run" (Some "editorTextFocus")])))
       (worldWithFile remapExampleFile)).
Proof.
  pose proof (restoreKeybinding_first_match (H := RefJson.builtins)
                (worldWithFile remapExampleFile) "ctrl+r" "ext.run" (Some "editorTextFocus")
                eq_refl) as Hrestore.
  exact (proj1 Hrestore).
Defined.

Lemma filter_shorter {A} (p : A -> bool) l :
  (length (List.filter p l) <? length l)%nat = negb (forallb p l).
Proof.
  induction l as [|x l IH]; [reflexivity|].
  pose proof (List.filter_length_le p l) as Hle.
  cbn [List.filter forallb length]. destruct (p x); cbn [length andb].
  - rewrite <- IH. destruct (Nat.ltb_spec (length (List.filter p l)) (length l));
      [apply Nat.ltb_lt | apply Nat.ltb_ge]; lia.
  - apply Nat.ltb_lt. lia.
Qed.

Lemma removeRemapEntries_run `{JsonBuiltins} command w :
  noNull (readEntries w) = true ->
  removeRemapEntries command w
  = if forallb (unrelated command) (readEntries w) then (Val false, w)
    else (Val true,
          World.set_fileContent
            (Some (JSON_stringify (JArr (List.filter (unrelated command) (readEntries w)))))
            w).
Proof.
  intros Hn. unfold removeRemapEntries, bind. rewrite read_run. unfold lift.
  rewrite filterO_unrelated by assumption. rewrite filter_shorter.
  now destruct (forallb (unrelated command) (readEntries w)).
Qed.

(** X4.  On a list of objects, [removeRemapEntries] answers whether some
    entry has the command or its negation.  If none has, the file is not
    written.  If one has, the list written holds no entry of the command
    or its negation, and every other entry in its place. *)
Theorem removeRemapEntries_spec `{JsonBuiltins} (w : World.t) (command : string) :
  let L := readEntries w in
  let kept := List.filter (unrelated command) L in
  noNull L = true ->
  (forallb (unrelated command) L = true -> removeRemapEntries command w = (Val false, w))
  /\ (forallb (unrelated command) L = false ->
      removeRemapEntries command w
      = (Val true, World.set_fileContent (Some (JSON_stringify (JArr kept))) w))
  /\ List.filter (commandIs command) kept = []
  /\ List.filter (commandIs ("-" +:+ command)) kept = []
  /\ (forall other, other <> command -> other <> "-" +:+ command ->
      List.filter (commandIs other) kept = List.filter (commandIs other) L).
Proof.
  intros L kept Hn. pose proof (removeRemapEntries_run command w Hn) as Hrun. fold L in Hrun.
  split; [intros Hall; now rewrite Hall in Hrun|].
  split; [intros Hsome; now rewrite Hsome in Hrun|].
  split; [apply filter_commandIs_unrelated; now left|].
  split; [apply filter_commandIs_unrelated; now right|].
  intros other Hc Hnc. unfold kept. clear Hn Hrun. induction L as [|kb L IH]; [reflexivity|].
  cbn [List.filter]. destruct (unrelated command kb) eqn:Hu.
  - cbn [List.filter]. now rewrite IH.
  - rewrite IH. assert (Hother : commandIs other kb = false); [|now rewrite Hother].
    unfold unrelated in Hu. apply andb_false_iff in Hu.
    unfold commandIs in *. destruct (propOf "command" kb) as [[| | |s| |]|]; try reflexivity.
    cbn [strict_eq_str] in *. apply String.eqb_neq. intros ->.
    destruct Hu as [Hu|Hu]; apply negb_false_iff, String.eqb_eq in Hu; congruence.
Qed.

Lemma removeRemapEntries_spec_witness :
  removeRemapEntries (H := RefJson.builtins) "ext.run" (worldWithFile remapExampleFile)
  = (Val true,
     World.set_fileContent
       (Some (RefJson.stringify
                (JArr [JObj [("key", JStr "ctrl+k"); ("command", JStr "editor.fold")]])))
       (worldWithFile remapExampleFile)).
Proof.
  pose proof (removeRemapEntries_spec (H := RefJson.builtins)
                (worldWithFile remapExampleFile) "ext.run" eq_refl) as Hspec.
  exact (proj1 (proj2 Hspec) eq_refl).
Defined.

(** X5.  Removing the remap entries right after a remap answers true and
    leaves the entries that have nothing to do with the command: the two
    appended entries are gone, and so are the entries of the command that
    the remap had removed.  (For a list of objects and a written text
    that reads back as the list written.) *)
Theorem removeRemapEntries_after_remap `{JsonBuiltins} (w : World.t)
  (originalKey newKey command : string) (when : option string) :
  let L := readEntries w in
  let w1 := World.set_fileContent
              (Some (JSON_stringify (JArr (remapped originalKey newKey command when L)))) w in
  noNull L = true ->
  readEntries w1 = remapped originalKey newKey command when L ->
  (remapKeybinding originalKey newKey command when ;;; removeRemapEntries command) w
  = (Val true,
     World.set_fileContent
       (Some (JSON_stringify (JArr (List.filter (unrelated command) L)))) w).
Proof.
  intros L w1 Hn Hback. unfold bind at 1. rewrite remapKeybinding_run by assumption.
  fold L. fold w1. rewrite removeRemapEntries_run by (rewrite Hback; now apply noNull_remapped).
  rewrite Hback. unfold remapped at 1. rewrite forallb_app. cbn [forallb].
  rewrite unrelated_negation, andb_false_r.
  unfold remapped. rewrite List.filter_app. cbn [List.filter].
  rewrite unrelated_negation, unrelated_positive, filter_unrelated_idem, app_nil_r.
  reflexivity.
Qed.

Lemma removeRemapEntries_after_remap_witness :
  (remapKeybinding (H := RefJson.builtins) "ctrl+r" "ctrl+alt+r" "ext.run" None ;;;
   removeRemapEntries (H := RefJson.builtins) "ext.run")
    (worldWithFile remapExampleFile)
  = (Val true,
     World.set_fileContent
       (Some (RefJson.stringify
                (JArr [JObj [("key", JStr "ctrl+k"); ("command", JStr "editor.fold")]])))
       (worldWithFile remapExampleFile)).
Proof.
  apply (removeRemapEntries_after_remap (H := RefJson.builtins)
           (worldWithFile remapExampleFile) "ctrl+r" "ctrl+alt+r" "ext.run" None).
  - reflexivity.
  - vm_compute. reflexivity.
Defined.

Lemma filterO_null command negatedCommand l :
  noNull l = false -> filterO (unrelatedTo command negatedCommand) l = Throw TypeError.
Proof.
  induction l as [|kb l IH]; intros Hn; [discriminate|].
  cbn [filterO]. destruct kb; try reflexivity;
    (cbn [noNull forallb isNull negb andb] in Hn; fold (noNull l) in Hn;
     rewrite (IH Hn); cbn; now destruct (getProp _ _) as [?|?] || reflexivity).
Qed.

(** X6.  A [null] among the elements of keybindings.json makes the two
    operations that filter by command throw a TypeError before anything
    is written; a remap decision stops there too, and records nothing.
    Deactivation does not look at the elements and goes through. *)
Theorem null_entry_stops_remap `{JsonBuiltins} (w : World.t) (kb : Keybinding.t)
  (newKey : string) :
  noNull (readEntries w) = false ->
  truthy (Some newKey) = true ->
  remapKeybinding (Keybinding.key kb) newKey (Keybinding.command kb) (Keybinding.when kb) w
  = (Throw TypeError, w)
  /\ removeRemapEntries (Keybinding.command kb) w = (Throw TypeError, w)
  /\ applyDecision kb ActionRemap (Some newKey) w = (Throw TypeError, w)
  /\ fst (applyDecision kb ActionDeactivate None w) = Val tt.
Proof.
  intros Hn Hkey.
  assert (Hremap : forall originalKey command when,
             remapKeybinding originalKey newKey command when w = (Throw TypeError, w)).
  { intros. unfold remapKeybinding, bind. rewrite read_run. unfold lift.
    now rewrite filterO_null. }
  split; [apply Hremap|]. split.
  - unfold removeRemapEntries, bind. rewrite read_run. unfold lift. now rewrite filterO_null.
  - split.
    + unfold applyDecision. rewrite Hkey. unfold bind at 1. cbn [default from_option id].
      now rewrite Hremap.
    + reflexivity.
Qed.

Lemma null_entry_stops_remap_witness :
  applyDecision (H := RefJson.builtins) (extBinding "ctrl+r" "ext.run" None) ActionRemap
                (Some "ctrl+alt+r") (worldWithFile nullEntryFile)
  = (Throw TypeError, worldWithFile nullEntryFile).
Proof.
  pose proof (null_entry_stops_remap (H := RefJson.builtins) (worldWithFile nullEntryFile)
                (extBinding "ctrl+r" "ext.run" None) "ctrl+alt+r" eq_refl eq_refl) as Hstop.
  exact (proj1 (proj2 (proj2 Hstop))).
Defined.

(* --------------------------------------------------------------------- *)
(** ** More on the snapshot history                                       *)
(* --------------------------------------------------------------------- *)

Lemma insert_by_sorted {A} (le : A -> A -> bool) x l :
  (forall a b, le a b = false -> le b a = true) ->
  Sorted (fun a b => le a b = true) l ->
  Sorted (fun a b => le a b = true) (insert_by le x l).
Proof.
  intros Htotal Hl. induction Hl as [|y l Hl IH Hy]; cbn [insert_by].
  - repeat constructor.
  - destruct (le x y) eqn:Hxy.
    + constructor; [now constructor | now constructor].
    + constructor; [exact IH|].
      destruct Hy as [|z l' Hz]; cbn [insert_by].
      * constructor. now apply Htotal.
      * destruct (le x z); constructor; [now apply Htotal | exact Hz].
Qed.

Lemma sort_by_sorted {A} (le : A -> A -> bool) l :
  (forall a b, le a b = false -> le b a = true) ->
  Sorted (fun a b => le a b = true) (sort_by le l).
Proof.
  intros Htotal. induction l as [|x l IH]; cbn; [constructor|].
  now apply insert_by_sorted.
Qed.

Lemma sort_by_of_sorted {A} (le : A -> A -> bool) l :
  Sorted (fun a b => le a b = true) l -> sort_by le l = l.
Proof.
  intros Hl. induction Hl as [|x l Hl IH Hx]; [reflexivity|].
  cbn [sort_by fold_right]. fold (sort_by le l). rewrite IH.
  destruct Hx as [|y l' Hy]; cbn [insert_by]; [reflexivity | now rewrite Hy].
Qed.

Lemma newestFirst_total a b : newestFirst a b = false -> newestFirst b a = true.
Proof. unfold newestFirst. intros Hab. apply Z.leb_gt in Hab. apply Z.leb_le. lia. Qed.

Lemma sort_by_newestFirst_idem l :
  sort_by newestFirst (sort_by newestFirst l) = sort_by newestFirst l.
Proof. apply sort_by_of_sorted, sort_by_sorted, newestFirst_total. Qed.

Lemma Sorted_notOlder l :
  Sorted (fun a b => newestFirst a b = true) l -> Sorted notOlder l.
Proof.
  intros Hl. induction Hl as [|x l Hl IH Hx]; constructor; [exact IH|].
  destruct Hx as [|y l' Hy]; constructor. now apply Z.leb_le in Hy.
Qed.

(** X7.  [getSnapshots] answers the stored snapshots from the newest to
    the oldest, none lost and none added, and leaves the store in that
    order; asking again gives the same list. *)
Theorem getSnapshots_newest_first (w : World.t) :
  exists sorted,
    getSnapshots w = (Val sorted, World.set_snapshots sorted w)
    /\ sorted ≡ₚ World.snapshots w
    /\ Sorted notOlder sorted
    /\ getSnapshots (World.set_snapshots sorted w) = (Val sorted, World.set_snapshots sorted w).
Proof.
  exists (sort_by newestFirst (World.snapshots w)).
  split; [apply getSnapshots_run|]. split; [apply sort_by_perm|].
  split; [apply Sorted_notOlder, sort_by_sorted, newestFirst_total|].
  rewrite getSnapshots_run. cbn [World.snapshots World.set_snapshots].
  now rewrite sort_by_newestFirst_idem.
Qed.

Lemma savedHistory_head snapshot sorted : head (savedHistory snapshot sorted) = Some snapshot.
Proof. unfold savedHistory. now destruct (list_find isBase sorted) as [[i b]|]. Qed.

Lemma savedHistory_submseteq snapshot sorted : savedHistory snapshot sorted ⊆+ snapshot :: sorted.
Proof.
  unfold savedHistory. destruct (list_find isBase sorted) as [[i b]|] eqn:Hb.
  - apply list_find_Some in Hb. destruct Hb as [Hb _].
    rewrite (delete_Permutation sorted i b Hb) at 2.
    transitivity ((snapshot :: delete i sorted) ++ [b]).
    + apply submseteq_app; [apply submseteq_take | reflexivity].
    + apply Permutation_submseteq. cbn [app]. constructor.
      rewrite <- Permutation_cons_append. reflexivity.
  - apply submseteq_take.
Qed.

Lemma savedHistory_room snapshot sorted :
  (length sorted < MAX_SNAPSHOTS)%nat -> savedHistory snapshot sorted ≡ₚ snapshot :: sorted.
Proof.
  unfold savedHistory, MAX_SNAPSHOTS. intros Hlen.
  destruct (list_find isBase sorted) as [[i b]|] eqn:Hb.
  - apply list_find_Some in Hb. destruct Hb as [Hb _].
    rewrite take_ge.
    + rewrite (delete_Permutation sorted i b Hb) at 2. cbn [app]. constructor.
      rewrite <- Permutation_cons_append. reflexivity.
    + cbn [length]. rewrite length_delete by (now exists b). lia.
  - rewrite take_ge; [reflexivity | cbn [length]; lia].
Qed.

Lemma savedHistory_last snapshot sorted i b :
  list_find isBase sorted = Some (i, b) -> last (savedHistory snapshot sorted) = Some b.
Proof. unfold savedHistory. intros ->. apply last_snoc. Qed.

(** X8.  Saving a snapshot never fails and puts the snapshot first.  The
    history afterwards has at most ten snapshots, all of them the new one
    or snapshots that were stored before; while fewer than ten were
    stored, none is dropped.  When the history has a snapshot named Base
    Snapshot, the newest of that name is kept and stands last. *)
Theorem saveSnapshot_history (w : World.t) (snapshot : Snapshot.t) :
  let before := World.snapshots w in
  let after := World.snapshots (snd (saveSnapshot snapshot w)) in
  fst (saveSnapshot snapshot w) = Val tt
  /\ head after = Some snapshot
  /\ (length after <= MAX_SNAPSHOTS)%nat
  /\ after ⊆+ snapshot :: before
  /\ ((length before < MAX_SNAPSHOTS)%nat -> after ≡ₚ snapshot :: before)
  /\ (forall i b, list_find isBase (sort_by newestFirst before) = Some (i, b) ->
                  last after = Some b).
Proof.
  intros before after. pose proof (saveSnapshot_at_most_ten snapshot w) as Hten.
  fold after in Hten. unfold after in *. clear after. rewrite saveSnapshot_run in *.
  cbn [fst snd World.snapshots World.set_snapshots] in *.
  split; [reflexivity|]. split; [apply savedHistory_head|]. split; [exact Hten|].
  split; [|split].
  - rewrite savedHistory_submseteq. now rewrite sort_by_perm.
  - intros Hlen. rewrite savedHistory_room.
    + now rewrite sort_by_perm.
    + now rewrite sort_by_perm.
  - intros i b. apply savedHistory_last.
Qed.

Lemma createSnapshot_exact name governanceState w :
  exists w',
    createSnapshot name governanceState w = (Val (nextSnapshot name governanceState w), w')
    /\ World.snapshots w'
       = savedHistory (nextSnapshot name governanceState w)
                      (sort_by newestFirst (World.snapshots w))
    /\ World.fileContent w' = World.fileContent w
    /\ World.state w' = World.state w
    /\ World.clockReads w' = S (S (World.clockReads w)).
Proof.
  eexists.
  unfold createSnapshot, bind, readRaw, gets, generateSnapshotId, bind,
    Date_now, Math_random_base36, ret.
  cbn [fst snd]. rewrite saveSnapshot_run. split; [reflexivity|].
  repeat split; reflexivity.
Qed.

(** X9.  [createBaseSnapshot] always answers a snapshot named Base
    Snapshot that is in the history.  Called again, with whatever state,
    it answers the same snapshot and creates nothing: the history holds
    the same snapshots and no time or id is drawn. *)
Theorem createBaseSnapshot_idempotent (w : World.t) (g g' : GovernanceState.t) :
  exists b w1,
    createBaseSnapshot g w = (Val b, w1)
    /\ isBase b
    /\ b ∈ World.snapshots w1
    /\ fst (createBaseSnapshot g' w1) = Val b
    /\ World.snapshots (snd (createBaseSnapshot g' w1)) ≡ₚ World.snapshots w1
    /\ World.clockReads (snd (createBaseSnapshot g' w1)) = World.clockReads w1
    /\ World.randomReads (snd (createBaseSnapshot g' w1)) = World.randomReads w1.
Proof.
  unfold createBaseSnapshot at 1. unfold bind. rewrite getSnapshots_run.
  set (sorted := sort_by newestFirst (World.snapshots w)).
  destruct (list_find isBase sorted) as [[i b]|] eqn:Hfind.
  - exists b, (World.set_snapshots sorted w). split; [reflexivity|].
    pose proof Hfind as Hb. apply list_find_Some in Hb. destruct Hb as [Hi [Hb _]].
    split; [exact Hb|]. split; [now apply list_elem_of_lookup_2 in Hi|].
    unfold createBaseSnapshot, bind. rewrite getSnapshots_run.
    cbn [World.snapshots World.set_snapshots].
    assert (Hidem : sort_by newestFirst sorted = sorted)
      by apply sort_by_newestFirst_idem.
    rewrite Hidem, Hfind. repeat split; reflexivity.
  - destruct (createSnapshot_exact "Base Snapshot" g (World.set_snapshots sorted w))
      as [w1 [Hrun [Hsnaps _]]].
    set (b := nextSnapshot "Base Snapshot" g (World.set_snapshots sorted w)) in *.
    cbn [World.snapshots World.set_snapshots] in Hsnaps. unfold sorted in Hsnaps.
    rewrite sort_by_newestFirst_idem in Hsnaps. fold sorted in Hsnaps.
    exists b, w1. split; [exact Hrun|]. split; [reflexivity|].
    assert (Hhead : head (World.snapshots w1) = Some b)
      by (rewrite Hsnaps; apply savedHistory_head).
    split.
    { destruct (World.snapshots w1) as [|x l]; [discriminate|].
      injection Hhead as ->. apply list_elem_of_here. }
    assert (Hone : filter isBase (World.snapshots w1) = [b]).
    { rewrite Hsnaps. unfold savedHistory. rewrite Hfind. unfold MAX_SNAPSHOTS.
      cbn [take]. rewrite filter_cons_True by reflexivity. f_equal.
      apply all_nonBase_filter. apply Forall_take. now apply list_find_None in Hfind. }
    apply sorted_base in Hone. destruct (find_the_base _ _ Hone) as [j [Hj _]].
    unfold createBaseSnapshot, bind. rewrite getSnapshots_run. rewrite Hj.
    cbn [fst snd World.snapshots World.set_snapshots World.clockReads World.randomReads].
    split; [reflexivity|]. split; [apply sort_by_perm|]. split; reflexivity.
Qed.

(** X10.  [deleteSnapshot] removes the newest snapshot that has the id
    and answers true, or answers false when none has it; every other
    snapshot stays.  With distinct ids no snapshot of that id is left.
    The name plays no part: the snapshot named Base Snapshot is removed
    like any other. *)
Theorem deleteSnapshot_spec (w : World.t) (snapshotId : string) :
  let sorted := sort_by newestFirst (World.snapshots w) in
  match list_find (fun s => Snapshot.id s = snapshotId) sorted with
  | None =>
      deleteSnapshot snapshotId w = (Val false, World.set_snapshots sorted w)
      /\ Forall (fun s => Snapshot.id s <> snapshotId) (World.snapshots w)
  | Some (i, s) =>
      deleteSnapshot snapshotId w = (Val true, World.set_snapshots (delete i sorted) w)
      /\ Snapshot.id s = snapshotId
      /\ s :: delete i sorted ≡ₚ World.snapshots w
      /\ (NoDup (Snapshot.id <$> World.snapshots w) ->
          Forall (fun s' => Snapshot.id s' <> snapshotId) (delete i sorted))
  end.
Proof.
  intros sorted. unfold deleteSnapshot, bind. rewrite getSnapshots_run. fold sorted.
  destruct (list_find _ sorted) as [[i s]|] eqn:Hfind.
  - apply list_find_Some in Hfind. destruct Hfind as [Hi [Hs _]].
    assert (Hperm : s :: delete i sorted ≡ₚ World.snapshots w).
    { rewrite <- (delete_Permutation sorted i s Hi). apply sort_by_perm. }
    split; [reflexivity|]. split; [exact Hs|]. split; [exact Hperm|].
    intros Hnd. rewrite <- Hperm in Hnd. rewrite fmap_cons in Hnd.
    apply NoDup_cons in Hnd. destruct Hnd as [Hnotin _].
    apply Forall_forall. intros s' Hs' Heq. apply Hnotin.
    rewrite Hs, <- Heq. now apply list_elem_of_fmap_2.
  - split; [reflexivity|]. apply list_find_None in Hfind.
    unfold sorted in Hfind. now rewrite sort_by_perm in Hfind.
Qed.

(** X11.  [renameSnapshot] changes the name of the newest snapshot that
    has the id, and nothing else: the history keeps its length and
    order, and every id, time, content and governance state.  It answers
    false when no snapshot has the id. *)
Theorem renameSnapshot_spec (w : World.t) (snapshotId newName : string) :
  let sorted := sort_by newestFirst (World.snapshots w) in
  match list_find (fun s => Snapshot.id s = snapshotId) sorted with
  | None => renameSnapshot snapshotId newName w = (Val false, World.set_snapshots sorted w)
  | Some (i, s) =>
      exists after,
        renameSnapshot snapshotId newName w = (Val true, World.set_snapshots after w)
        /\ after !! i = Some (withName newName s)
        /\ (forall j, j <> i -> after !! j = sorted !! j)
        /\ length after = length sorted
        /\ Snapshot.id <$> after = Snapshot.id <$> sorted
        /\ Snapshot.createdAt <$> after = Snapshot.createdAt <$> sorted
        /\ Snapshot.keybindingsContent <$> after = Snapshot.keybindingsContent <$> sorted
        /\ Snapshot.governanceState <$> after = Snapshot.governanceState <$> sorted
  end.
Proof.
  intros sorted. unfold renameSnapshot, bind. rewrite getSnapshots_run. fold sorted.
  destruct (list_find _ sorted) as [[i s]|] eqn:Hfind; [|reflexivity].
  apply list_find_Some in Hfind. destruct Hfind as [Hi _].
  exists (<[i := withName newName s]> sorted). split; [reflexivity|].
  split.
  { rewrite list_lookup_insert. apply lookup_lt_Some in Hi. now rewrite decide_True. }
  split; [intros j Hj; now apply list_lookup_insert_ne|].
  split; [apply length_insert|].
  repeat split; rewrite list_fmap_insert; cbn; apply list_insert_id;
    rewrite list_lookup_fmap, Hi; reflexivity.
Qed.

Lemma list_find_the_only {A} (P : A -> Prop) `{forall x, Decision (P x)} (l : list A) (x : A) :
  x ∈ l -> P x -> (forall y, y ∈ l -> P y -> y = x) ->
  exists i, list_find P l = Some (i, x).
Proof.
  intros Hx HPx Honly. destruct (list_find P l) as [[i y]|] eqn:Hfind.
  - exists i. apply list_find_Some in Hfind. destruct Hfind as [Hi [HPy _]].
    apply list_elem_of_lookup_2 in Hi. now rewrite (Honly y Hi HPy).
  - apply list_find_None in Hfind. rewrite Forall_forall in Hfind. now destruct (Hfind x Hx).
Qed.

(** X12.  A snapshot restored right after it was created gives back the
    governance state it was created with and writes the entries of the
    file it captured, provided the captured text is JSON and no stored
    snapshot has the id drawn for the new one. *)
Theorem restoreSnapshot_after_create `{JsonBuiltins} (w : World.t) (name : string)
  (governanceState : GovernanceState.t) (parsed : json) :
  Forall (fun s => Snapshot.id s <> nextSnapshotId w) (World.snapshots w) ->
  JSON_parse (default "[]" (World.fileContent w)) = Some parsed ->
  exists w',
    (created <- createSnapshot name governanceState ;;
     restoreSnapshot (Snapshot.id created)) w
    = (Val (Some governanceState), w')
    /\ World.fileContent w'
       = Some (JSON_stringify (JArr (match parsed with JArr items => items | _ => [] end)))
    /\ World.state w' = World.state w.
Proof.
  intros Hfresh Hparse. unfold bind at 1.
  destruct (createSnapshot_exact name governanceState w) as [w1 [Hrun [Hsnaps [Hfile [Hstate _]]]]].
  rewrite Hrun. set (s := nextSnapshot name governanceState w) in *.
  unfold restoreSnapshot, bind. rewrite getSnapshots_run.
  assert (Hin : s ∈ sort_by newestFirst (World.snapshots w1)).
  { rewrite sort_by_perm, Hsnaps. pose proof (savedHistory_head s (sort_by newestFirst (World.snapshots w))) as Hh.
    destruct (savedHistory _ _) as [|x l]; [discriminate|]. injection Hh as ->.
    apply list_elem_of_here. }
  assert (Honly : forall y, y ∈ sort_by newestFirst (World.snapshots w1) ->
                            Snapshot.id y = Snapshot.id s -> y = s).
  { intros y Hy Hid. rewrite sort_by_perm, Hsnaps in Hy.
    pose proof (elem_of_submseteq _ _ _ Hy (savedHistory_submseteq _ _)) as Hy'.
    apply elem_of_cons in Hy'. destruct Hy' as [->|Hy']; [reflexivity|].
    rewrite sort_by_perm in Hy'. rewrite Forall_forall in Hfresh.
    now destruct (Hfresh y Hy'). }
  destruct (list_find_the_only (fun x => Snapshot.id x = Snapshot.id s) _ s Hin eq_refl Honly)
    as [i Hfind].
  rewrite Hfind. cbn [Snapshot.keybindingsContent s nextSnapshot]. unfold s at 1.
  cbn [Snapshot.keybindingsContent nextSnapshot]. rewrite Hparse.
  eexists. split; [reflexivity|]. split; [reflexivity|].
  cbn. exact Hstate.
Qed.

Lemma restoreSnapshot_after_create_witness :
  exists w',
    (created <- createSnapshot "Before cleanup" emptyState ;;
     restoreSnapshot (H := RefJson.builtins) (Snapshot.id created))
      (worldWithFile rebindExampleFile)
    = (Val (Some emptyState), w')
    /\ World.fileContent w'
       = Some (RefJson.stringify (JArr [makeEntry "a" "-c" None; makeEntry "a" "c" None]))
    /\ World.state w' = emptyState.
Proof.
  apply (restoreSnapshot_after_create (H := RefJson.builtins) (worldWithFile rebindExampleFile)
           "Before cleanup" emptyState
           (JArr [makeEntry "a" "-c" None; makeEntry "a" "c" None])).
  - constructor.
  - vm_compute. reflexivity.
Defined.

(** When the stored text of the chosen snapshot is not JSON, the restore
    throws, and so does the command. *)
Lemma restoreSnapshot_unparsable `{JsonBuiltins} (w : World.t) (snapshotId : string)
  (i : nat) (snapshot : Snapshot.t) :
  let sorted := sort_by newestFirst (World.snapshots w) in
  list_find (fun s => Snapshot.id s = snapshotId) sorted = Some (i, snapshot) ->
  JSON_parse (Snapshot.keybindingsContent snapshot) = None ->
  restoreSnapshot snapshotId w = (Throw SyntaxError, World.set_snapshots sorted w)
  /\ restoreSnapshotCommand snapshotId w = (Throw SyntaxError, World.set_snapshots sorted w).
Proof.
  intros sorted Hfind Hparse.
  assert (Hidem : sort_by newestFirst sorted = sorted) by apply sort_by_newestFirst_idem.
  assert (Hsorted : sort_by newestFirst (World.snapshots w) = sorted) by reflexivity.
  clearbody sorted.
  assert (Hne : (length sorted =? 0)%nat = false).
  { apply Nat.eqb_neq. intros Hlen. apply nil_length_inv in Hlen. now rewrite Hlen in Hfind. }
  split.
  - unfold restoreSnapshot, bind. rewrite getSnapshots_run, Hsorted.
    now rewrite Hfind, Hparse.
  - unfold restoreSnapshotCommand, bind at 1. rewrite getSnapshots_run, Hsorted, Hne.
    unfold bind at 1. unfold restoreSnapshot, bind at 1. rewrite getSnapshots_run.
    cbn [World.snapshots World.set_snapshots]. rewrite Hidem, Hfind, Hparse.
    reflexivity.
Qed.

(** When it is JSON, the command goes through. *)
Lemma restoreSnapshotCommand_restores `{JsonBuiltins} (w : World.t) (snapshotId : string)
  (i : nat) (snapshot : Snapshot.t) (parsed : json) :
  let sorted := sort_by newestFirst (World.snapshots w) in
  list_find (fun s => Snapshot.id s = snapshotId) sorted = Some (i, snapshot) ->
  JSON_parse (Snapshot.keybindingsContent snapshot) = Some parsed ->
  exists w',
    restoreSnapshotCommand snapshotId w = (Val true, w')
    /\ World.fileContent w'
       = Some (JSON_stringify (JArr (match parsed with JArr items => items | _ => [] end)))
    /\ World.state w'
       = with_lastUpdated (World.clock w (World.clockReads w))
                          (Snapshot.governanceState snapshot)
    /\ World.snapshots w' = sorted.
Proof.
  intros sorted Hfind Hparse.
  assert (Hidem : sort_by newestFirst sorted = sorted) by apply sort_by_newestFirst_idem.
  assert (Hsorted : sort_by newestFirst (World.snapshots w) = sorted) by reflexivity.
  clearbody sorted.
  assert (Hne : (length sorted =? 0)%nat = false).
  { apply Nat.eqb_neq. intros Hlen. apply nil_length_inv in Hlen. now rewrite Hlen in Hfind. }
  unfold restoreSnapshotCommand, bind at 1. rewrite getSnapshots_run, Hsorted, Hne.
  unfold bind at 1. unfold restoreSnapshot, bind at 1.
  rewrite getSnapshots_run. cbn [World.snapshots World.set_snapshots].
  rewrite Hidem, Hfind, Hparse.
  unfold setState, saveState, getSnapshot, write, modify_state, modify, Date_now, bind, ret.
  rewrite getSnapshots_run.
  cbn [World.snapshots World.set_snapshots World.set_state World.set_fileContent
       World.set_clockReads World.state World.clock World.clockReads World.fileContent].
  rewrite Hidem. eexists. split; [reflexivity|].
  cbn [World.snapshots World.set_snapshots World.set_state World.set_fileContent
       World.set_clockReads World.state World.clock World.clockReads World.fileContent].
  repeat split; reflexivity.
Qed.

(** X13.  The restore command on a snapshot of the history.  When the
    stored text of the snapshot is not JSON (a file with comments, say),
    the restore throws a SyntaxError: the file is not written, and the
    command stops before it sets the governance state.  When it is
    JSON, the command writes its entries to the file and replaces the
    governance state by the one of the snapshot, stamped with the time
    of the restore. *)
Theorem restoreSnapshotCommand_spec `{JsonBuiltins} (w : World.t) (snapshotId : string)
  (i : nat) (snapshot : Snapshot.t) :
  let sorted := sort_by newestFirst (World.snapshots w) in
  list_find (fun s => Snapshot.id s = snapshotId) sorted = Some (i, snapshot) ->
  match JSON_parse (Snapshot.keybindingsContent snapshot) with
  | None =>
      restoreSnapshot snapshotId w = (Throw SyntaxError, World.set_snapshots sorted w)
      /\ restoreSnapshotCommand snapshotId w
         = (Throw SyntaxError, World.set_snapshots sorted w)
  | Some parsed =>
      exists w',
        restoreSnapshotCommand snapshotId w = (Val true, w')
        /\ World.fileContent w'
           = Some (JSON_stringify (JArr (match parsed with JArr items => items | _ => [] end)))
        /\ World.state w'
           = with_lastUpdated (World.clock w (World.clockReads w))
                              (Snapshot.governanceState snapshot)
        /\ World.snapshots w' = sorted
  end.
Proof.
  intros sorted Hfind.
  destruct (JSON_parse (Snapshot.keybindingsContent snapshot)) as [parsed|] eqn:Hparse.
  - now apply (restoreSnapshotCommand_restores w snapshotId i snapshot parsed).
  - now apply (restoreSnapshot_unparsable w snapshotId i snapshot).
Qed.

Lemma restoreSnapshotCommand_spec_witness :
  restoreSnapshotCommand (H := RefJson.builtins) "snapshot-900-aaaaaa" worldWithSnapshots
  = (Throw SyntaxError, worldWithSnapshots)
  /\ exists w',
       restoreSnapshotCommand (H := RefJson.builtins) "snapshot-950-bbbbbb" worldWithSnapshots
       = (Val true, w')
       /\ World.fileContent w' = Some (RefJson.stringify (JArr [makeEntry "a" "b" None]))
       /\ World.state w' = with_lastUpdated 1000 emptyState
       /\ World.snapshots w' = [compactSnapshot; commentedSnapshot].
Proof.
  split.
  - exact (proj2 (restoreSnapshotCommand_spec (H := RefJson.builtins) worldWithSnapshots
                    "snapshot-900-aaaaaa" 1%nat commentedSnapshot eq_refl)).
  - exact (restoreSnapshotCommand_spec (H := RefJson.builtins) worldWithSnapshots
             "snapshot-950-bbbbbb" 0%nat compactSnapshot eq_refl).
Defined.

(* --------------------------------------------------------------------- *)
(** ** More on the decisions                                              *)
(* --------------------------------------------------------------------- *)

Lemma getStatus_run id w : getStatus id w = (Val (statusOf w id), w).
Proof. reflexivity. Qed.

Lemma statusOf_state w w' id : World.state w' = World.state w -> statusOf w' id = statusOf w id.
Proof. unfold statusOf. now intros ->. Qed.

Lemma statusOf_recordDecision kb status remappedKey w id :
  statusOf (snd (recordDecision kb status remappedKey w)) id
  = if String.eqb id (Keybinding.id kb) then status else statusOf w id.
Proof.
  rewrite recordDecision_run. unfold statusOf.
  cbn [snd World.state World.set_state with_lastUpdated with_decisions
       GovernanceState.decisions].
  destruct (String.eqb_spec id (Keybinding.id kb)) as [->|Hne].
  - now rewrite lookup_insert_eq.
  - now rewrite lookup_insert_ne by congruence.
Qed.

Lemma statusOf_unapproveKeybinding kb w id :
  statusOf (snd (unapproveKeybinding kb w)) id
  = if String.eqb id (Keybinding.id kb) then Pending else statusOf w id.
Proof.
  rewrite unapproveKeybinding_run. unfold statusOf.
  cbn [snd World.state World.set_state with_lastUpdated with_decisions
       GovernanceState.decisions].
  destruct (String.eqb_spec id (Keybinding.id kb)) as [->|Hne].
  - now rewrite lookup_delete_eq.
  - now rewrite lookup_delete_ne by congruence.
Qed.

Lemma deactivateKeybinding_run `{JsonBuiltins} key command when w :
  deactivateKeybinding key command when w
  = (Val tt,
     World.set_fileContent
       (Some (JSON_stringify (JArr (readEntries w ++ [makeEntry key ("-" +:+ command) when]))))
       w).
Proof. reflexivity. Qed.

(** X14.  What the single actions do to the statuses: approving,
    skipping and deactivating a binding set the status of its identity
    to approved, skipped and deactivated; unapproving removes the
    decision, so the status is pending again.  Deactivating never
    fails.  No action changes the status of another identity. *)
Theorem actions_set_status `{JsonBuiltins} (w : World.t) (kb : Keybinding.t) (other : string) :
  String.eqb other (Keybinding.id kb) = false ->
  (statusOf (snd (approveKeybinding kb w)) (Keybinding.id kb) = Approved
   /\ statusOf (snd (approveKeybinding kb w)) other = statusOf w other)
  /\ (statusOf (snd (skipKeybinding kb w)) (Keybinding.id kb) = Skipped
      /\ statusOf (snd (skipKeybinding kb w)) other = statusOf w other)
  /\ (fst (applyDecision kb ActionDeactivate None w) = Val tt
      /\ statusOf (snd (applyDecision kb ActionDeactivate None w)) (Keybinding.id kb)
         = Deactivated
      /\ statusOf (snd (applyDecision kb ActionDeactivate None w)) other = statusOf w other)
  /\ (statusOf (snd (unapproveKeybinding kb w)) (Keybinding.id kb) = Pending
      /\ GovernanceState.decisions (World.state (snd (unapproveKeybinding kb w)))
           !! Keybinding.id kb = None
      /\ statusOf (snd (unapproveKeybinding kb w)) other = statusOf w other).
Proof.
  intros Hother. unfold approveKeybinding, skipKeybinding.
  rewrite !statusOf_recordDecision, !statusOf_unapproveKeybinding, Hother, String.eqb_refl.
  split; [now split|]. split; [now split|]. split.
  - unfold applyDecision, bind. rewrite deactivateKeybinding_run.
    rewrite !statusOf_recordDecision, Hother, String.eqb_refl.
    split; [now rewrite recordDecision_run|]. split; reflexivity.
  - split; [reflexivity|]. split; [|reflexivity].
    rewrite unapproveKeybinding_run.
    cbn [snd World.state World.set_state with_lastUpdated with_decisions
         GovernanceState.decisions].
    apply lookup_delete_eq.
Qed.

Lemma actions_set_status_witness :
  statusOf (snd (applyDecision (H := RefJson.builtins) (extBinding "ctrl+r" "ext.run" None)
                               ActionDeactivate None (worldWithFile remapExampleFile)))
           (Keybinding.id (extBinding "ctrl+r" "ext.run" None))
  = Deactivated.
Proof.
  pose proof (actions_set_status (H := RefJson.builtins) (worldWithFile remapExampleFile)
                (extBinding "ctrl+r" "ext.run" None) "00c0ffee" eq_refl) as Hactions.
  exact (proj1 (proj2 (proj1 (proj2 (proj2 Hactions))))).
Defined.

(** X15.  Unapproving after approving leaves the decisions as they were
    when the binding had no decision.  In general it does not bring back
    what was there: whatever decision the identity had is gone, and the
    status is pending. *)
Theorem unapprove_after_approve (w : World.t) (kb : Keybinding.t) :
  let after := snd ((approveKeybinding kb ;;; unapproveKeybinding kb) w) in
  fst ((approveKeybinding kb ;;; unapproveKeybinding kb) w) = Val tt
  /\ GovernanceState.decisions (World.state after)
     = delete (Keybinding.id kb) (GovernanceState.decisions (World.state w))
  /\ statusOf after (Keybinding.id kb) = Pending
  /\ (GovernanceState.decisions (World.state w) !! Keybinding.id kb = None ->
      GovernanceState.decisions (World.state after)
      = GovernanceState.decisions (World.state w)).
Proof.
  intros after.
  assert (Hdec : GovernanceState.decisions (World.state after)
                 = delete (Keybinding.id kb) (GovernanceState.decisions (World.state w))).
  { unfold after, approveKeybinding, bind. rewrite recordDecision_run, unapproveKeybinding_run.
    cbn [snd World.state World.set_state World.set_clockReads with_lastUpdated with_decisions
         GovernanceState.decisions].
    apply delete_insert_eq. }
  split; [|split; [exact Hdec|split]].
  - unfold approveKeybinding, bind. now rewrite recordDecision_run, unapproveKeybinding_run.
  - unfold statusOf. rewrite Hdec. now rewrite lookup_delete_eq.
  - intros Hnone. rewrite Hdec. now apply delete_id.
Qed.

Lemma keybindingsForExtension_same e w w' :
  World.extensions w' = World.extensions w ->
  World.platform w' = World.platform w ->
  keybindingsForExtension e w' = keybindingsForExtension e w.
Proof. unfold keybindingsForExtension, getExtension. now intros -> ->. Qed.

Lemma filterM_isPending l w :
  filterM isPending l w = (Val (List.filter (pendingIn w) l), w).
Proof.
  induction l as [|kb l IH]; [reflexivity|].
  cbn [filterM List.filter]. unfold bind at 1. unfold isPending at 1. unfold bind at 1.
  rewrite getStatus_run. unfold ret at 1. unfold bind. rewrite IH. reflexivity.
Qed.

Lemma batch_loop_nothing_wanted wanted act l : forall count w,
  Forall (fun kb => statusOf w (Keybinding.id kb) <> wanted) l ->
  forM l (batchBody wanted act) count w = (Val count, w).
Proof.
  induction l as [|kb l IH]; intros count w Hall; [reflexivity|].
  apply Forall_cons in Hall. destruct Hall as [Hkb Hl].
  cbn [forM]. unfold bind at 1. unfold batchBody at 1. unfold bind at 1.
  rewrite getStatus_run. rewrite bool_decide_false by assumption. unfold ret at 1.
  now apply IH.
Qed.

Lemma approve_loop l : forall count w,
  exists n w',
    forM l (batchBody Pending approveKeybinding) count w = (Val n, w')
    /\ World.extensions w' = World.extensions w
    /\ World.platform w' = World.platform w
    /\ World.fileContent w' = World.fileContent w
    /\ (count <= n <= count + length l)%nat
    /\ (forall id,
           statusOf w' id
           = if bool_decide (id ∈ map Keybinding.id l) && bool_decide (statusOf w id = Pending)
             then Approved else statusOf w id).
Proof.
  induction l as [|kb l IH]; intros count w.
  - exists count, w. repeat split; try reflexivity; cbn; lia.
  - cbn [forM]. unfold bind at 1. unfold batchBody at 1. unfold bind at 1.
    rewrite getStatus_run. destruct (bool_decide_reflect (statusOf w (Keybinding.id kb) = Pending))
      as [Hp|Hp].
    + unfold bind at 1. unfold approveKeybinding at 1.
      pose proof (statusOf_recordDecision kb Approved None w) as Hst.
      rewrite recordDecision_run in *. unfold ret at 1.
      match goal with |- context [forM l _ _ ?w1] => set (w1' := w1) in * end.
      destruct (IH (S count) w1') as [n [w' [Hrun [Hext [Hplat [Hfile [Hn Hstatus]]]]]]].
      exists n, w'. split; [exact Hrun|]. split; [now rewrite Hext|].
      split; [now rewrite Hplat|]. split; [now rewrite Hfile|].
      split; [cbn [length]; lia|].
      intros id. rewrite Hstatus. cbn [snd] in Hst. rewrite Hst. cbn [map].
      destruct (String.eqb_spec id (Keybinding.id kb)) as [->|Hne].
      * rewrite (bool_decide_false (Approved = Pending)) by discriminate.
        rewrite andb_false_r.
        rewrite (bool_decide_true (_ ∈ _ :: _)) by apply list_elem_of_here.
        now rewrite (bool_decide_true (statusOf w _ = Pending)) by assumption.
      * assert (Hin : bool_decide (id ∈ Keybinding.id kb :: map Keybinding.id l)
                      = bool_decide (id ∈ map Keybinding.id l)).
        { apply bool_decide_ext. rewrite elem_of_cons. tauto. }
        now rewrite Hin.
    + unfold ret at 1.
      destruct (IH count w) as [n [w' [Hrun [Hext [Hplat [Hfile [Hn Hstatus]]]]]]].
      exists n, w'. split; [exact Hrun|]. split; [exact Hext|].
      split; [exact Hplat|]. split; [exact Hfile|]. split; [cbn [length]; lia|].
      intros id. rewrite Hstatus. cbn [map].
      destruct (bool_decide_reflect (statusOf w id = Pending)) as [Hid|Hid];
        [|now rewrite !andb_false_r].
      rewrite !andb_true_r.
      assert (Hin : bool_decide (id ∈ Keybinding.id kb :: map Keybinding.id l)
                    = bool_decide (id ∈ map Keybinding.id l)); [|now rewrite Hin].
      apply bool_decide_ext. rewrite elem_of_cons.
      assert (id <> Keybinding.id kb) by congruence. tauto.
Qed.

(** X16.  Approving all shortcuts of an extension never fails and leaves
    none of them pending: each binding that was pending is approved, each
    other status stays, and so does every identity that is not of the
    extension; the file is not touched.  The answer counts at most the
    bindings of the extension.  A second run finds nothing to do and
    answers 0. *)
Theorem approveAllFromExtension_spec (w : World.t) (extensionId : string) :
  let bindings := keybindingsForExtension extensionId w in
  exists n w',
    approveAllFromExtension extensionId w = (Val n, w')
    /\ (n <= length bindings)%nat
    /\ World.fileContent w' = World.fileContent w
    /\ (forall id,
           statusOf w' id
           = if bool_decide (id ∈ map Keybinding.id bindings)
                && bool_decide (statusOf w id = Pending)
             then Approved else statusOf w id)
    /\ getPendingKeybindings bindings w' = (Val [], w')
    /\ approveAllFromExtension extensionId w' = (Val O, w').
Proof.
  intros bindings. unfold approveAllFromExtension, batchFromExtension.
  unfold bind at 1. unfold getKeybindingsForExtension at 1. unfold gets at 1.
  fold bindings.
  destruct (approve_loop bindings O w) as [n [w' [Hrun [Hext [Hplat [Hfile [Hn Hstatus]]]]]]].
  exists n, w'. split; [exact Hrun|]. split; [lia|]. split; [exact Hfile|].
  split; [exact Hstatus|].
  assert (Hnone : Forall (fun kb => statusOf w' (Keybinding.id kb) <> Pending) bindings).
  { apply Forall_forall. intros kb Hkb. rewrite Hstatus.
    rewrite (bool_decide_true (_ ∈ _)) by (now apply list_elem_of_fmap_2).
    cbn [andb]. destruct (bool_decide_reflect (statusOf w (Keybinding.id kb) = Pending));
      [discriminate | assumption]. }
  split.
  - unfold getPendingKeybindings. rewrite filterM_isPending. do 2 f_equal.
    clear -Hnone. induction Hnone as [|kb l Hkb Hl IH]; [reflexivity|].
    cbn [List.filter]. unfold pendingIn at 1. now rewrite bool_decide_false.
  - unfold bind. unfold getKeybindingsForExtension, gets.
    rewrite (keybindingsForExtension_same extensionId w w' Hext Hplat). fold bindings.
    now apply batch_loop_nothing_wanted.
Qed.


Lemma JsMap_set_keys {V} (k : string) (v : V) (m : list (string * V)) :
  NoDup (map fst m) -> NoDup (map fst (JsMap.set k v m)).
Proof.
  induction m as [|[k' v'] m IH]; intros Hnd; cbn [JsMap.set map fst].
  - repeat constructor. apply not_elem_of_nil.
  - cbn [map fst] in Hnd. apply NoDup_cons in Hnd. destruct Hnd as [Hk' Hnd].
    destruct (String.eqb_spec k' k) as [->|Hne]; cbn [map fst].
    + now apply NoDup_cons.
    + apply NoDup_cons. split; [|now apply IH].
      intros Hin. apply Hk'. clear -Hin Hne.
      induction m as [|[k2 v2] m IH]; cbn [JsMap.set map fst] in *.
      * apply list_elem_of_singleton in Hin. congruence.
      * destruct (String.eqb k2 k); cbn [map fst] in Hin.
        -- exact Hin.
        -- apply elem_of_cons in Hin. apply elem_of_cons.
           destruct Hin as [Hin|Hin]; [now left | right; now apply IH].
Qed.


Lemma JsMap_get_elem {V} (k : string) (v : V) (m : list (string * V)) :
  NoDup (map fst m) -> (k, v) ∈ m -> JsMap.get k m = Some v.
Proof.
  induction m as [|[k' v'] m IH]; intros Hnd Hin; [now apply elem_of_nil in Hin|].
  cbn [map fst] in Hnd. apply NoDup_cons in Hnd. destruct Hnd as [Hk' Hnd].
  cbn [JsMap.get]. apply elem_of_cons in Hin. destruct Hin as [[= <- <-]|Hin].
  - now rewrite String.eqb_refl.
  - destruct (String.eqb_spec k' k) as [->|Hne]; [|now apply IH].
    destruct Hk'. change k with (fst (k, v)). now apply list_elem_of_fmap_2.
Qed.




Lemma getNewOrUpdatedExtensions_run w :
  getNewOrUpdatedExtensions w
  = (Val (flat_map (versionChange (GovernanceState.extensionVersions (World.state w)))
                   (fold_left addVersion (World.extensions w) [])), w).
Proof. reflexivity. Qed.





Lemma resetAllDecisions_run w :
  resetAllDecisions w
  = (Val tt,
     World.set_state (freshState (World.clock w (S (World.clockReads w))))
                     (World.set_clockReads (S (S (World.clockReads w))) w)).
Proof. reflexivity. Qed.

Lemma versionChange_nothing_stored versions :
  flat_map (versionChange ∅) versions = map (fun e => (fst e, true)) versions.
Proof.
  induction versions as [|[k v] versions IH]; [reflexivity|].
  cbn [flat_map map fst]. rewrite IH. unfold versionChange. now rewrite lookup_empty.
Qed.

(** X18.  Resetting all decisions never fails.  Afterwards there is no
    decision, so every status is pending; no extension version is
    stored, so every installed extension with keybindings counts as new;
    and the service is in its first run again.  File and snapshots are
    not touched. *)
Theorem resetAllDecisions_spec (w : World.t) :
  exists w',
    resetAllDecisions w = (Val tt, w')
    /\ GovernanceState.decisions (World.state w') = ∅
    /\ (forall id, statusOf w' id = Pending)
    /\ isFirstRun w' = (Val true, w')
    /\ getNewOrUpdatedExtensions w'
       = (Val (map (fun e => (fst e, true)) (fold_left addVersion (World.extensions w) [])), w')
    /\ World.fileContent w' = World.fileContent w
    /\ World.snapshots w' = World.snapshots w.
Proof.
  eexists. split; [apply resetAllDecisions_run|].
  split; [reflexivity|]. split; [intros id; unfold statusOf; cbn; now rewrite lookup_empty|].
  split; [reflexivity|]. split; [|split; reflexivity].
  rewrite getNewOrUpdatedExtensions_run.
  cbn [World.state World.set_state World.extensions World.set_clockReads freshState
       GovernanceState.extensionVersions].
  now rewrite versionChange_nothing_stored.
Qed.

Lemma countStatus_partition decisions :
  length decisions
  = (countStatus Approved decisions + countStatus Deactivated decisions
     + countStatus Remapped decisions + countStatus Skipped decisions
     + countStatus Pending decisions)%nat.
Proof.
  unfold countStatus. induction decisions as [|d decisions IH]; [reflexivity|].
  cbn [List.filter length]. destruct (GovernanceDecision.status d);
    decide_status; cbn [length]; lia.
Qed.

(** X19.  In the statistics the total is the number of stored decisions
    and the pending count is always 0.  The four other counts add up to
    the total except for the stored decisions whose status is pending,
    which restoring a binding leaves behind: these are in the total and
    in no count. *)
Theorem getStatistics_counts (w : World.t) :
  let decisions := snd <$> map_to_list (GovernanceState.decisions (World.state w)) in
  exists statistics,
    getStatistics w = (Val statistics, w)
    /\ Statistics.pending statistics = O
    /\ Statistics.total statistics = size (GovernanceState.decisions (World.state w))
    /\ Statistics.total statistics
       = (Statistics.approved statistics + Statistics.deactivated statistics
          + Statistics.remapped statistics + Statistics.skipped statistics
          + countStatus Pending decisions)%nat.
Proof.
  intros decisions. eexists. split; [reflexivity|]. cbn [Statistics.pending Statistics.total
    Statistics.approved Statistics.deactivated Statistics.remapped Statistics.skipped].
  split; [reflexivity|]. split.
  - now rewrite length_fmap, length_map_to_list.
  - apply countStatus_partition.
Qed.

Lemma getAllExtensionKeybindings_run w :
  getAllExtensionKeybindings w = (Val (allExtensionBindings w), w).
Proof. reflexivity. Qed.

Lemma frames_forM {A B} (l : list B) (body : A -> B -> M A) :
  (forall a x, frames (body a x)) -> forall a, frames (forM l body a).
Proof.
  intros Hbody. induction l as [|x l IH]; intros a; cbn [forM].
  - apply frames_ret.
  - apply frames_bind; auto.
Qed.

Lemma frames_cleanupBody `{JsonBuiltins} count kb : frames (cleanupBody count kb).
Proof.
  unfold cleanupBody, getDecision. apply frames_bind; [apply frames_gets|].
  intros [d|]; cbn [fmap option_fmap option_map]; [|apply frames_ret].
  destruct (GovernanceDecision.status d); auto with frames.
Qed.

Lemma cleanup_loop_count `{JsonBuiltins} l : forall count w n w',
  forM l cleanupBody count w = (Val n, w') ->
  n = (count + length (List.filter (hasFileEntries w) l))%nat.
Proof.
  induction l as [|kb l IH]; intros count w n w' Hrun.
  - cbn in Hrun. injection Hrun as <- _. cbn. lia.
  - cbn [forM] in Hrun. unfold bind at 1 in Hrun.
    pose proof (frames_cleanupBody count kb w) as Hframe.
    destruct (cleanupBody count kb w) as [[count'|e] w1] eqn:Hbody; [|discriminate].
    cbn [snd] in Hframe.
    assert (Hcount : count' = (count + if hasFileEntries w kb then 1 else 0)%nat).
    { unfold cleanupBody, bind, getDecision, gets in Hbody.
      unfold hasFileEntries, statusOf.
      destruct (GovernanceState.decisions (World.state w) !! Keybinding.id kb) as [d|];
        cbn [fmap option_fmap option_map] in Hbody.
      - destruct (GovernanceDecision.status d); decide_status; cbn [orb].
        + injection Hbody as <- _. lia.
        + injection Hbody as <- _. lia.
        + destruct (restoreKeybinding _ _ _ w) as [[?|?] ?]; [|discriminate].
          injection Hbody as <- _. lia.
        + destruct (removeRemapEntries _ w) as [[?|?] ?]; [|discriminate].
          injection Hbody as <- _. lia.
        + injection Hbody as <- _. lia.
      - decide_status. injection Hbody as <- _. cbn. lia. }
    apply IH in Hrun. subst n count'. cbn [List.filter].
    assert (Hsame : List.filter (hasFileEntries w1) l = List.filter (hasFileEntries w) l).
    { apply List.filter_ext. intros x. unfold hasFileEntries.
      now rewrite !(statusOf_state w w1) by assumption. }
    rewrite Hsame. destruct (hasFileEntries w kb); cbn [length]; lia.
Qed.

(** X20.  Preparing for uninstall either throws while it cleans the
    file, and then the governance state is as it was before, or it
    answers the number of extension bindings whose decision is
    deactivated or remapped, counted whether or not the file had an
    entry to remove, and leaves the empty governance state. *)
Theorem prepareForUninstall_spec `{JsonBuiltins} (w : World.t) :
  match prepareForUninstall w with
  | (Val n, w') =>
      n = length (List.filter (hasFileEntries w) (allExtensionBindings w))
      /\ GovernanceState.decisions (World.state w') = ∅
      /\ GovernanceState.extensionVersions (World.state w') = ∅
      /\ GovernanceState.initialAuditComplete (World.state w') = false
  | (Throw _, w') => World.state w' = World.state w
  end.
Proof.
  unfold prepareForUninstall, bind at 1.
  pose proof (frames_forM (allExtensionBindings w) cleanupBody frames_cleanupBody O w)
    as Hframe.
  unfold cleanupKeybindingsFile, bind at 1.
  rewrite getAllExtensionKeybindings_run.
  destruct (forM _ cleanupBody O w) as [[n|e] w1] eqn:Hloop; cbn [snd] in Hframe.
  - apply cleanup_loop_count in Hloop. unfold bind. rewrite resetAllDecisions_run.
    unfold ret. split; [exact Hloop|]. repeat split; reflexivity.
  - exact Hframe.
Qed.

(* --------------------------------------------------------------------- *)
(** ** More on the conflicts                                              *)
(* --------------------------------------------------------------------- *)

Lemma addCondition_keys conditions part :
  NoDup (map fst conditions) -> NoDup (map fst (addCondition conditions part)).
Proof.
  intros Hnd. unfold addCondition. destruct (startsWith _ _); [now apply JsMap_set_keys|].
  destruct (includes2 _ _ _); [|now apply JsMap_set_keys].
  destruct (map trim _) as [|k [|v l]]; try assumption. now apply JsMap_set_keys.
Qed.

Lemma parseWhenConditions_keys when : NoDup (map fst (parseWhenConditions when)).
Proof.
  unfold parseWhenConditions.
  assert (Hfold : forall parts conditions,
             NoDup (map fst conditions) ->
             NoDup (map fst (fold_left addCondition parts conditions))).
  { induction parts as [|p parts IH]; intros conditions Hnd; [exact Hnd|].
    cbn [fold_left]. now apply IH, addCondition_keys. }
  apply Hfold. constructor.
Qed.

Lemma JsMap_get_Some_elem {V} (k : string) (v : V) (m : list (string * V)) :
  JsMap.get k m = Some v -> (k, v) ∈ m.
Proof.
  induction m as [|[k' v'] m IH]; [discriminate|]. cbn [JsMap.get].
  destruct (String.eqb_spec k' k) as [->|Hne].
  - intros [= ->]. apply list_elem_of_here.
  - intros Hget. apply list_elem_of_further. now apply IH.
Qed.

Lemma agrees_sym c1 c2 :
  NoDup (map fst c1) -> NoDup (map fst c2) -> agrees c1 c2 = true -> agrees c2 c1 = true.
Proof.
  intros Hnd1 Hnd2 Hagree. unfold agrees in *. rewrite forallb_forall in *.
  intros [k v'] Hin. cbn [fst snd]. destruct (JsMap.get k c1) as [v|] eqn:Hget; [|reflexivity].
  apply JsMap_get_Some_elem in Hget. apply list_elem_of_In in Hget.
  specialize (Hagree _ Hget). cbn [fst snd] in Hagree.
  apply list_elem_of_In in Hin. rewrite (JsMap_get_elem k v' c2 Hnd2 Hin) in Hagree.
  apply Bool.eqb_prop in Hagree. subst. apply Bool.eqb_reflx.
Qed.

Lemma agrees_refl c : NoDup (map fst c) -> agrees c c = true.
Proof.
  intros Hnd. unfold agrees. rewrite forallb_forall. intros [k v] Hin. cbn [fst snd].
  apply list_elem_of_In in Hin. rewrite (JsMap_get_elem k v c Hnd Hin). apply Bool.eqb_reflx.
Qed.

Lemma contextsOverlap_sym when1 when2 :
  contextsOverlap when1 when2 = contextsOverlap when2 when1.
Proof.
  unfold contextsOverlap. destruct (truthy when1), (truthy when2); try reflexivity.
  cbn [negb andb orb].
  set (c1 := parseWhenConditions (default "" when1)).
  set (c2 := parseWhenConditions (default "" when2)).
  change (agrees c1 c2 = agrees c2 c1).
  pose proof (parseWhenConditions_keys (default "" when1)) as Hnd1.
  pose proof (parseWhenConditions_keys (default "" when2)) as Hnd2.
  fold c1 in Hnd1. fold c2 in Hnd2.
  destruct (agrees c1 c2) eqn:H12.
  - symmetry. now apply agrees_sym.
  - destruct (agrees c2 c1) eqn:H21; [|reflexivity].
    apply agrees_sym in H21; [congruence | assumption | assumption].
Qed.

(** X21.  Whether two contexts can overlap does not depend on their
    order, every context overlaps itself, and an absent or empty context
    overlaps every context. *)
Theorem contextsOverlap_symmetric (when1 when2 : option string) :
  contextsOverlap when1 when2 = contextsOverlap when2 when1
  /\ contextsOverlap when1 when1 = true
  /\ (truthy when1 = false -> contextsOverlap when1 when2 = true).
Proof.
  split; [apply contextsOverlap_sym|]. split.
  - unfold contextsOverlap. destruct (truthy when1); [|reflexivity]. cbn [negb andb orb].
    apply agrees_refl, parseWhenConditions_keys.
  - intros Hfalsy. unfold contextsOverlap. rewrite Hfalsy. cbn [negb andb orb].
    now destruct (truthy when2).
Qed.

Lemma filter_partition_perm {A} (p : A -> bool) l :
  List.filter p l ++ List.filter (fun x => negb (p x)) l ≡ₚ l.
Proof.
  induction l as [|x l IH]; [reflexivity|]. cbn [List.filter].
  destruct (p x); cbn [negb app].
  - now constructor.
  - rewrite <- Permutation_middle. now constructor.
Qed.

Lemma clusterBy_shape {A} (related : A -> A -> bool) n : forall l,
  (length l <= n)%nat ->
  Forall (fun group =>
            exists seed rest,
              group = seed :: rest
              /\ Forall (fun x => related seed x = true) rest
              /\ (forall x, x ∈ group -> x ∈ l))
         (clusterBy related l).
Proof.
  induction n as [|n IH]; intros l Hlen.
  - destruct l; [|cbn in Hlen; lia]. simp clusterBy. constructor.
  - destruct l as [|seed rest]; simp clusterBy; [constructor|]. constructor.
    + exists seed, (List.filter (related seed) rest). split; [reflexivity|]. split.
      * apply Forall_forall. intros x Hx. apply list_elem_of_In, filter_In in Hx. tauto.
      * intros x Hx. apply elem_of_cons in Hx. apply elem_of_cons.
        destruct Hx as [Hx|Hx]; [now left|right].
        apply list_elem_of_In, filter_In in Hx. apply list_elem_of_In. tauto.
    + cbn [length] in Hlen.
      pose proof (List.filter_length_le (fun x => negb (related seed x)) rest) as Hle.
      eapply Forall_impl; [apply IH; lia|].
      intros group [s [r [Hgroup [Hrel Hsub]]]]. exists s, r. split; [exact Hgroup|].
      split; [exact Hrel|]. intros x Hx. apply Hsub in Hx.
      apply list_elem_of_In, filter_In in Hx. apply list_elem_of_further, list_elem_of_In. tauto.
Qed.

Lemma clusterBy_concat {A} (related : A -> A -> bool) n : forall l,
  (length l <= n)%nat -> concat (clusterBy related l) ≡ₚ l.
Proof.
  induction n as [|n IH]; intros l Hlen.
  - destruct l; [|cbn in Hlen; lia]. simp clusterBy. reflexivity.
  - destruct l as [|seed rest]; simp clusterBy; [reflexivity|].
    cbn [concat app]. constructor. cbn [length] in Hlen.
    pose proof (List.filter_length_le (fun x => negb (related seed x)) rest) as Hle.
    rewrite IH by lia. apply filter_partition_perm.
Qed.

Lemma concat_filter_submseteq {A} (p : list A -> bool) (groups : list (list A)) :
  concat (List.filter p groups) ⊆+ concat groups.
Proof.
  induction groups as [|g groups IH]; [reflexivity|]. cbn [List.filter concat].
  destruct (p g); cbn [concat].
  - now apply submseteq_app.
  - now apply submseteq_inserts_l.
Qed.

Lemma bindings_conflictOf groups :
  map KeybindingConflict.bindings (map conflictOf groups) = groups.
Proof. rewrite map_map. cbn. apply map_id. Qed.

Lemma detectConflicts_shape userBindings extensionBindings c :
  c ∈ detectConflicts userBindings extensionBindings ->
  exists seed rest,
    KeybindingConflict.bindings c = seed :: rest
    /\ rest <> []
    /\ KeybindingConflict.key c = Keybinding.key seed
    /\ KeybindingConflict.involvesUserBinding c = existsb isUserBinding (seed :: rest)
    /\ Forall (fun b => keyOf b = keyOf seed /\ overlapping seed b = true) rest
    /\ (forall b, b ∈ KeybindingConflict.bindings c -> b ∈ userBindings ++ extensionBindings).
Proof.
  rewrite detectConflicts_refines. unfold detectConflicts_spec.
  set (allBindings := userBindings ++ extensionBindings).
  intros Hc. apply list_elem_of_In, in_flat_map in Hc. destruct Hc as [bucket [Hbucket Hc]].
  destruct (2 <=? length bucket)%nat; [|destruct Hc].
  apply in_map_iff in Hc. destruct Hc as [group [<- Hgroup]].
  apply filter_In in Hgroup. destruct Hgroup as [Hgroup Hsize]. apply Nat.leb_le in Hsize.
  pose proof (clusterBy_shape sameNormalizedKey (length allBindings) allBindings (le_n _))
    as Hbuckets.
  rewrite Forall_forall in Hbuckets. apply list_elem_of_In in Hbucket.
  destruct (Hbuckets _ Hbucket) as [s0 [r0 [-> [Hsame Hin0]]]].
  pose proof (clusterBy_shape overlapping (length (s0 :: r0)) (s0 :: r0) (le_n _)) as Hgroups.
  rewrite Forall_forall in Hgroups. apply list_elem_of_In in Hgroup.
  destruct (Hgroups _ Hgroup) as [seed [rest [-> [Hoverlap Hin]]]].
  assert (Hkey : forall b, b ∈ s0 :: r0 -> keyOf b = keyOf s0).
  { intros b Hb. apply elem_of_cons in Hb. destruct Hb as [->|Hb]; [reflexivity|].
    rewrite Forall_forall in Hsame. specialize (Hsame _ Hb).
    unfold sameNormalizedKey in Hsame. apply String.eqb_eq in Hsame. now symmetry. }
  exists seed, rest. cbn [conflictOf KeybindingConflict.bindings KeybindingConflict.key
                          KeybindingConflict.involvesUserBinding].
  split; [reflexivity|]. split; [destruct rest; [cbn in Hsize; lia | discriminate]|].
  split; [reflexivity|]. split; [reflexivity|]. split.
  - apply Forall_forall. intros b Hb. split.
    + rewrite (Hkey b) by (apply Hin; now apply list_elem_of_further).
      rewrite (Hkey seed) by (apply Hin; apply list_elem_of_here). reflexivity.
    + rewrite Forall_forall in Hoverlap. now apply Hoverlap.
  - intros b Hb. now apply Hin0, Hin.
Qed.

Lemma detectConflicts_submseteq userBindings extensionBindings :
  concat (map KeybindingConflict.bindings (detectConflicts userBindings extensionBindings))
  ⊆+ userBindings ++ extensionBindings.
Proof.
  rewrite detectConflicts_refines. unfold detectConflicts_spec.
  set (allBindings := userBindings ++ extensionBindings).
  rewrite <- (clusterBy_concat sameNormalizedKey (length allBindings) allBindings (le_n _)) at 2.
  induction (clusterBy sameNormalizedKey allBindings) as [|bucket buckets IH]; [reflexivity|].
  cbn [flat_map concat]. rewrite map_app, concat_app. apply submseteq_app; [|exact IH].
  destruct (2 <=? length bucket)%nat; [|apply submseteq_nil_l].
  rewrite bindings_conflictOf, concat_filter_submseteq.
  now rewrite (clusterBy_concat overlapping (length bucket) bucket (le_n _)).
Qed.

(** X22.  Every conflict that [detectConflicts] reports has two or more
    bindings; its key is the key of the first binding, as written; every
    other binding has the same normalized key as the first and a context
    that overlaps the context of the first; the flag says whether one of
    them is a user binding.  The bindings of all conflicts together are
    bindings that were passed in, each taken at most as often as it was
    passed: no binding is in two conflicts. *)
Theorem detectConflicts_groups (userBindings extensionBindings : list Keybinding.t) :
  Forall (fun c =>
            exists seed rest,
              KeybindingConflict.bindings c = seed :: rest
              /\ rest <> []
              /\ KeybindingConflict.key c = Keybinding.key seed
              /\ KeybindingConflict.involvesUserBinding c = existsb isUserBinding (seed :: rest)
              /\ Forall (fun b => normalizeKey (Keybinding.key b)
                                  = normalizeKey (Keybinding.key seed)
                                  /\ contextsOverlap (Keybinding.when seed) (Keybinding.when b)
                                     = true)
                        rest)
         (detectConflicts userBindings extensionBindings)
  /\ concat (map KeybindingConflict.bindings (detectConflicts userBindings extensionBindings))
     ⊆+ userBindings ++ extensionBindings.
Proof.
  split; [|apply detectConflicts_submseteq].
  apply Forall_forall. intros c Hc.
  destruct (detectConflicts_shape _ _ _ Hc) as [seed [rest [Hb [Hne [Hk [Hu [Hrest _]]]]]]].
  exists seed, rest. repeat split; assumption.
Qed.

Lemma hasConflict_keys key conflicts :
  hasConflict key conflicts = true <-> normalizeKey key ∈ getConflictingKeys conflicts.
Proof.
  unfold hasConflict, getConflictingKeys. rewrite elem_of_list_to_set, existsb_exists.
  split.
  - intros [c [Hc Heq]]. apply String.eqb_eq in Heq. rewrite <- Heq.
    apply list_elem_of_In. apply in_map_iff. now exists c.
  - intros Hin. apply list_elem_of_In, in_map_iff in Hin. destruct Hin as [c [Heq Hc]].
    exists c. split; [exact Hc|]. now apply String.eqb_eq.
Qed.

(** X23.  The queries on the conflicts agree with the detection: for a
    binding of a detected conflict, [hasConflict] on its key is true, its
    normalized key is among the conflicting keys, and
    [getConflictsForBinding] gives back the conflict.  A key has a
    conflict exactly when its normalized form is a conflicting key. *)
Theorem conflict_queries (userBindings extensionBindings : list Keybinding.t)
  (i j : nat) (c : KeybindingConflict.t) (b : Keybinding.t) :
  detectConflicts userBindings extensionBindings !! i = Some c ->
  KeybindingConflict.bindings c !! j = Some b ->
  let conflicts := detectConflicts userBindings extensionBindings in
  hasConflict (Keybinding.key b) conflicts = true
  /\ normalizeKey (Keybinding.key b) ∈ getConflictingKeys conflicts
  /\ c ∈ getConflictsForBinding b conflicts
  /\ (forall key, hasConflict key conflicts = true
                  <-> normalizeKey key ∈ getConflictingKeys conflicts).
Proof.
  intros Hc Hb conflicts. apply list_elem_of_lookup_2 in Hc, Hb. fold conflicts in Hc.
  assert (Hhas : hasConflict (Keybinding.key b) conflicts = true).
  { destruct (detectConflicts_shape _ _ _ Hc) as [seed [rest [Hbs [_ [Hk [_ [Hrest _]]]]]]].
    unfold hasConflict. apply existsb_exists. exists c.
    split; [now apply list_elem_of_In|]. apply String.eqb_eq. rewrite Hk.
    rewrite Hbs in Hb. apply elem_of_cons in Hb. destruct Hb as [->|Hb]; [reflexivity|].
    rewrite Forall_forall in Hrest. destruct (Hrest _ Hb) as [Hkey _]. now symmetry. }
  split; [exact Hhas|]. split; [now apply hasConflict_keys|]. split.
  - unfold getConflictsForBinding. apply list_elem_of_In, filter_In.
    split; [now apply list_elem_of_In|]. apply existsb_exists. exists b.
    split; [now apply list_elem_of_In | apply String.eqb_refl].
  - intros key. apply hasConflict_keys.
Qed.

Lemma conflict_queries_witness :
  hasConflict "Ctrl+K"
              (detectConflicts [userBinding "ctrl+k" "foo" None]
                               [extBinding "Ctrl+K" "bar" None]) = true.
Proof.
  exact (proj1 (conflict_queries [userBinding "ctrl+k" "foo" None]
                  [extBinding "Ctrl+K" "bar" None] 0%nat 1%nat
                  (KeybindingConflict.mk "ctrl+k"
                     [userBinding "ctrl+k" "foo" None; extBinding "Ctrl+K" "bar" None] true)
                  (extBinding "Ctrl+K" "bar" None) eq_refl eq_refl)).
Defined.

Lemma filterM_isActive l w :
  filterM isActive l w = (Val (List.filter (activeIn w) l), w).
Proof.
  induction l as [|kb l IH]; [reflexivity|].
  cbn [filterM List.filter]. unfold bind at 1. unfold isActive at 1. unfold bind at 1.
  rewrite getStatus_run. unfold ret at 1. unfold bind. rewrite IH. reflexivity.
Qed.

(** X24.  The conflicts that the panel shows: each has an extension
    binding among its bindings, and each of its bindings is a user
    binding that was passed in or an extension binding that was passed
    in and is neither deactivated nor remapped.  When the user bindings
    have the source user, each conflict shown has such an extension
    binding.  Computing them changes nothing. *)
Theorem getAuditData_conflicts_spec (w : World.t) (user extension : list Keybinding.t) :
  exists conflicts,
    getAuditData_conflicts user extension w = (Val conflicts, w)
    /\ Forall
         (fun c =>
            (exists b, b ∈ KeybindingConflict.bindings c /\ Keybinding.source b = Extension)
            /\ (forall b, b ∈ KeybindingConflict.bindings c ->
                          b ∈ user
                          \/ (b ∈ extension
                              /\ statusOf w (Keybinding.id b) <> Deactivated
                              /\ statusOf w (Keybinding.id b) <> Remapped))
            /\ (Forall (fun u => Keybinding.source u = User) user ->
                exists b, b ∈ KeybindingConflict.bindings c
                          /\ b ∈ extension
                          /\ statusOf w (Keybinding.id b) <> Deactivated
                          /\ statusOf w (Keybinding.id b) <> Remapped))
         conflicts.
Proof.
  unfold getAuditData_conflicts, bind. rewrite filterM_isActive. unfold ret.
  eexists. split; [reflexivity|]. apply Forall_forall. intros c Hc.
  apply list_elem_of_In, filter_In in Hc. destruct Hc as [Hc Hext].
  apply list_elem_of_In in Hc.
  destruct (detectConflicts_shape _ _ _ Hc) as [_ [_ [_ [_ [_ [_ [_ Hin]]]]]]].
  assert (Hfrom : forall b, b ∈ KeybindingConflict.bindings c ->
                            b ∈ user
                            \/ (b ∈ extension
                                /\ statusOf w (Keybinding.id b) <> Deactivated
                                /\ statusOf w (Keybinding.id b) <> Remapped)).
  { intros b Hb. apply Hin, elem_of_app in Hb. destruct Hb as [Hb|Hb]; [now left|right].
    apply list_elem_of_In, filter_In in Hb. destruct Hb as [Hb Hactive].
    split; [now apply list_elem_of_In|]. unfold activeIn in Hactive.
    apply andb_true_iff in Hactive. destruct Hactive as [Hd Hr].
    apply negb_true_iff, bool_decide_eq_false in Hd, Hr. now split. }
  unfold hasExtensionBinding in Hext. apply existsb_exists in Hext.
  destruct Hext as [b [Hb Hsource]]. apply bool_decide_eq_true in Hsource.
  apply list_elem_of_In in Hb.
  split; [now exists b|]. split; [exact Hfrom|].
  intros Huser. exists b. split; [exact Hb|].
  destruct (Hfrom b Hb) as [Hu|Hactive]; [|exact Hactive].
  rewrite Forall_forall in Huser. specialize (Huser b Hu). congruence.
Qed.

(* --------------------------------------------------------------------- *)
(** ** More on the identities                                             *)
(* --------------------------------------------------------------------- *)

Lemma length_chars s : length (chars s) = String.length s.
Proof. induction s as [|c s IH]; [reflexivity|]. cbn. now rewrite IH. Qed.

Lemma length_str l : String.length (str l) = length l.
Proof. induction l as [|c l IH]; [reflexivity|]. cbn. now rewrite IH. Qed.

Lemma substring0_short n s : (String.length s <= n)%nat -> substring0 n s = s.
Proof.
  intros Hlen. unfold substring0. rewrite firstn_all2 by (now rewrite length_chars).
  apply string_of_list_ascii_of_string.
Qed.

Lemma padStart_long n c s : (n <= String.length s)%nat -> padStart n c s = s.
Proof.
  intros Hlen. unfold padStart. replace (n - String.length s)%nat with O by lia.
  cbn [repeat app]. apply string_of_list_ascii_of_string.
Qed.

Lemma length_padStart n c s : String.length (padStart n c s) = max n (String.length s).
Proof.
  unfold padStart. rewrite length_str, length_app, repeat_length, length_chars. lia.
Qed.

Lemma length_substring0 n s : String.length (substring0 n s) = min n (String.length s).
Proof. unfold substring0. now rewrite length_str, length_firstn, length_chars. Qed.

Lemma ids_differ_when_short key command when :
  (String.length (hashHex key command when) < 8)%nat ->
  generateKeybindingId key command when <> Panel_generateKeybindingId key command when.
Proof.
  intros Hshort Heq. apply (f_equal String.length) in Heq.
  unfold generateKeybindingId, Panel_generateKeybindingId in Heq.
  fold (hashHex key command when) in Heq.
  rewrite !length_substring0, length_padStart in Heq. lia.
Qed.

(** X25.  The identity function of the panel and the one of the types
    give the same identity exactly when the hexadecimal text of the hash
    has eight digits or more: the panel does not pad.  The identity of
    the types has eight characters at least, the one of the panel has as
    many as the text, up to sixteen. *)
Theorem panel_identity_agrees_iff (key command : string) (when : option string) :
  (generateKeybindingId key command when = Panel_generateKeybindingId key command when
   <-> (8 <= String.length (hashHex key command when))%nat)
  /\ String.length (generateKeybindingId key command when)
     = min 16 (max 8 (String.length (hashHex key command when)))
  /\ String.length (Panel_generateKeybindingId key command when)
     = min 16 (String.length (hashHex key command when)).
Proof.
  split; [|split].
  - split.
    + intros Heq. destruct (Nat.le_gt_cases 8 (String.length (hashHex key command when)))
        as [H8|H8]; [exact H8|]. now destruct (ids_differ_when_short key command when H8).
    + intros H8. unfold generateKeybindingId, Panel_generateKeybindingId.
      fold (hashHex key command when). now rewrite padStart_long.
  - unfold generateKeybindingId. fold (hashHex key command when).
    now rewrite length_substring0, length_padStart.
  - unfold Panel_generateKeybindingId. fold (hashHex key command when).
    apply length_substring0.
Qed.

Lemma importShortcuts_approved `{JsonBuiltins} key command when extensionId w :
  truthy (Some key) = true ->
  truthy (Some command) = true ->
  importShortcuts [approvedShortcut key command when extensionId] w
  = (Val (1%nat, 0%nat),
     snd (approveKeybinding
            (importedBinding (approvedShortcut key command when extensionId)) w)).
Proof.
  intros Hkey Hcommand. unfold importShortcuts. cbn [forM]. unfold bind at 1.
  unfold approvedShortcut at 1 2 3.
  cbn [ImportedShortcut.key ImportedShortcut.command ImportedShortcut.status
       ImportedShortcut.remappedKey].
  rewrite Hkey, Hcommand.
  cbn [truthy negb orb default from_option id andb].
  change ("approved" =? "deactivated")%string with false.
  change ("approved" =? "remapped")%string with false.
  change ("approved" =? "approved")%string with true.
  cbn [andb]. unfold bind at 1. unfold approveKeybinding. rewrite recordDecision_run.
  reflexivity.
Qed.

(** X26.  An approved entry of an import file is recorded under the
    identity that the panel computes.  When the hexadecimal text of the
    hash has fewer than eight digits, this is not the identity that the
    parser gives the binding: the status under the parser's identity,
    which every other operation reads, is as it was before the import.  *)
Theorem import_approves_panel_identity `{JsonBuiltins} (w : World.t) (key command : string)
  (when extensionId : option string) :
  truthy (Some key) = true ->
  truthy (Some command) = true ->
  let shortcut := approvedShortcut key command when extensionId in
  let w' := snd (importShortcuts [shortcut] w) in
  fst (importShortcuts [shortcut] w) = Val (1%nat, 0%nat)
  /\ statusOf w' (Panel_generateKeybindingId key command when) = Approved
  /\ ((String.length (hashHex key command when) < 8)%nat ->
      statusOf w' (generateKeybindingId key command when)
      = statusOf w (generateKeybindingId key command when)).
Proof.
  intros Hkey Hcommand shortcut w'. unfold w', shortcut.
  rewrite importShortcuts_approved by assumption. cbn [fst snd].
  unfold approveKeybinding. rewrite !statusOf_recordDecision.
  change (Keybinding.id (importedBinding (approvedShortcut key command when extensionId)))
    with (Panel_generateKeybindingId key command when).
  rewrite String.eqb_refl. split; [reflexivity|]. split; [reflexivity|].
  intros Hshort. apply ids_differ_when_short in Hshort.
  apply String.eqb_neq in Hshort. now rewrite Hshort.
Qed.

Lemma import_approves_panel_identity_witness :
  statusOf (snd (importShortcuts (H := RefJson.builtins)
                   [approvedShortcut "a" "b" None (Some "publisher.ext")] world0))
           (Panel_generateKeybindingId "a" "b" None) = Approved
  /\ statusOf (snd (importShortcuts (H := RefJson.builtins)
                      [approvedShortcut "a" "b" None (Some "publisher.ext")] world0))
              (generateKeybindingId "a" "b" None) = Pending.
Proof.
  pose proof (import_approves_panel_identity (H := RefJson.builtins) world0 "a" "b" None
                (Some "publisher.ext") eq_refl eq_refl) as Himport.
  split; [exact (proj1 (proj2 Himport))|].
  rewrite (proj2 (proj2 Himport)); [reflexivity | vm_compute; lia].
Defined.

(* --------------------------------------------------------------------- *)
(** ** More on the extensions                                             *)
(* --------------------------------------------------------------------- *)

Lemma keybindingsForExtension_in_all extensionId w kb :
  kb ∈ keybindingsForExtension extensionId w -> kb ∈ allExtensionBindings w.
Proof.
  unfold keybindingsForExtension, getExtension, allExtensionBindings.
  destruct (list_find _ (World.extensions w)) as [[i extension]|] eqn:Hfind;
    cbn [fmap option_fmap option_map snd]; [|intros Hkb; now apply elem_of_nil in Hkb].
  apply list_find_Some in Hfind. destruct Hfind as [Hi _].
  apply list_elem_of_lookup_2 in Hi.
  destruct (InstalledExtension.keybindings extension) as [rawBindings|] eqn:Hraw;
    [|intros Hkb; now apply elem_of_nil in Hkb].
  intros Hkb. apply list_elem_of_In, in_flat_map.
  destruct rawBindings as [|raw rawBindings]; [now apply elem_of_nil in Hkb|].
  eexists. split.
  - apply list_elem_of_In, list_elem_of_omap. exists extension. split; [exact Hi|].
    unfold extensionGroup. rewrite Hraw. reflexivity.
  - cbn [ExtensionKeybindings.keybindings]. now apply list_elem_of_In.
Qed.

Lemma NoDup_fmap_same {A B} (f : A -> B) (l : list A) x y :
  NoDup (f <$> l) -> x ∈ l -> y ∈ l -> f x = f y -> x = y.
Proof.
  induction l as [|z l IH]; intros Hnd Hx Hy Heq; [now apply elem_of_nil in Hx|].
  rewrite fmap_cons in Hnd. apply NoDup_cons in Hnd. destruct Hnd as [Hz Hnd].
  apply elem_of_cons in Hx, Hy. destruct Hx as [->|Hx], Hy as [->|Hy].
  - reflexivity.
  - destruct Hz. rewrite Heq. now apply list_elem_of_fmap_2.
  - destruct Hz. rewrite <- Heq. now apply list_elem_of_fmap_2.
  - now apply IH.
Qed.

Lemma all_in_keybindingsForExtension w kb :
  NoDup (InstalledExtension.id <$> World.extensions w) ->
  kb ∈ allExtensionBindings w ->
  exists extensionId,
    Keybinding.extensionId kb = Some extensionId
    /\ Keybinding.source kb = Extension
    /\ kb ∈ keybindingsForExtension extensionId w.
Proof.
  intros Hnd Hkb. unfold allExtensionBindings in Hkb.
  apply list_elem_of_In, in_flat_map in Hkb. destruct Hkb as [group [Hgroup Hkb]].
  apply list_elem_of_In, list_elem_of_omap in Hgroup.
  destruct Hgroup as [extension [Hext Hgroup]]. unfold extensionGroup in Hgroup.
  destruct (InstalledExtension.keybindings extension) as [[|raw rawBindings]|] eqn:Hraw;
    try discriminate.
  injection Hgroup as <-. cbn [ExtensionKeybindings.keybindings] in Hkb.
  exists (InstalledExtension.id extension).
  assert (Hfind : getExtension (InstalledExtension.id extension) w = Some extension).
  { unfold getExtension.
    destruct (list_find_the_only
                (fun e => InstalledExtension.id e = InstalledExtension.id extension)
                (World.extensions w) extension Hext eq_refl) as [i Hi].
    - intros y Hy Hid. now apply (NoDup_fmap_same InstalledExtension.id (World.extensions w)).
    - now rewrite Hi. }
  change (In kb (map (extensionBinding (World.platform w) extension) (raw :: rawBindings)))
    in Hkb.
  apply in_map_iff in Hkb. destruct Hkb as [raw' [<- Hraw']].
  split; [reflexivity|]. split; [reflexivity|].
  unfold keybindingsForExtension. rewrite Hfind, Hraw.
  apply list_elem_of_In, in_map_iff. now exists raw'.
Qed.

(** X27.  The bindings that the parser gives for one extension are among
    the bindings it gives for all extensions.  With distinct extension
    ids the converse holds: every binding of the audit names its
    extension, and looking it up by its identity in that extension, as
    the panel does for each action, finds an extension binding of that
    identity and that extension. *)
Theorem findKeybinding_finds (w : World.t) (i : nat) (kb : Keybinding.t) :
  NoDup (InstalledExtension.id <$> World.extensions w) ->
  allExtensionBindings w !! i = Some kb ->
  (forall extensionId kb',
      kb' ∈ keybindingsForExtension extensionId w -> kb' ∈ allExtensionBindings w)
  /\ exists extensionId found,
       Keybinding.extensionId kb = Some extensionId
       /\ findKeybinding (Keybinding.id kb) extensionId w = (Val (Some found), w)
       /\ Keybinding.id found = Keybinding.id kb
       /\ Keybinding.extensionId found = Some extensionId
       /\ Keybinding.source found = Extension
       /\ found ∈ allExtensionBindings w.
Proof.
  intros Hnd Hkb. apply list_elem_of_lookup_2 in Hkb.
  split; [intros e kb'; apply keybindingsForExtension_in_all|].
  destruct (all_in_keybindingsForExtension w kb Hnd Hkb) as [e [He [_ Hin]]].
  exists e. unfold findKeybinding, bind, getKeybindingsForExtension, gets, ret.
  destruct (find _ (keybindingsForExtension e w)) as [found|] eqn:Hfind.
  - apply find_some in Hfind. destruct Hfind as [Hfound Hid].
    apply String.eqb_eq in Hid. apply list_elem_of_In in Hfound.
    pose proof (keybindingsForExtension_in_all e w found Hfound) as Hall.
    exists found. split; [exact He|]. split; [reflexivity|]. split; [exact Hid|].
    pose proof (keybindingsForExtension_source e w) as Hsource.
    rewrite Forall_forall in Hsource. split; [|split; [now apply Hsource | exact Hall]].
    unfold keybindingsForExtension in Hfound.
    destruct (getExtension e w) as [extension|] eqn:Hext; [|now apply elem_of_nil in Hfound].
    destruct (InstalledExtension.keybindings extension); [|now apply elem_of_nil in Hfound].
    apply list_elem_of_In, in_map_iff in Hfound. destruct Hfound as [raw [<- _]].
    cbn [Keybinding.extensionId extensionBinding]. f_equal.
    unfold getExtension in Hext.
    destruct (list_find _ (World.extensions w)) as [[j x]|] eqn:Hj; [|discriminate].
    injection Hext as ->. apply list_find_Some in Hj. tauto.
  - exfalso. apply list_elem_of_In in Hin.
    pose proof (find_none _ _ Hfind kb Hin) as Hnone. cbn in Hnone.
    now rewrite String.eqb_refl in Hnone.
Qed.

Lemma findKeybinding_finds_witness :
  exists extensionId found,
    Keybinding.extensionId (extensionBinding Linux sampleExtension
                              (RawExtensionKeybinding.mk "ctrl+k" "ext.fold" None
                                                         (Some "cmd+k") None None None))
    = Some extensionId
    /\ findKeybinding "7e0fd11d" extensionId worldWithExtension
       = (Val (Some found), worldWithExtension)
    /\ Keybinding.id found = "7e0fd11d"
    /\ Keybinding.extensionId found = Some extensionId
    /\ Keybinding.source found = Extension
    /\ found ∈ allExtensionBindings worldWithExtension.
Proof.
  assert (Hids : NoDup (InstalledExtension.id <$> World.extensions worldWithExtension))
    by (simpl; apply NoDup_singleton).
  exact (proj2 (findKeybinding_finds worldWithExtension 1%nat
                  (extensionBinding Linux sampleExtension
                     (RawExtensionKeybinding.mk "ctrl+k" "ext.fold" None
                                                (Some "cmd+k") None None None))
                  Hids eq_refl)).
Defined.

(* --------------------------------------------------------------------- *)
(** ** Activation                                                         *)
(* --------------------------------------------------------------------- *)





(* --------------------------------------------------------------------- *)
(** ** Deactivating all conflicting shortcuts                             *)
(* --------------------------------------------------------------------- *)

Section Equivalence.
Context {A : Type} (same : A -> A -> bool).
Hypothesis same_refl : forall x, same x x = true.
Hypothesis same_sym : forall x y, same x y = same y x.
Hypothesis same_trans : forall x y z, same x y = true -> same y z = true -> same x z = true.

Lemma same_class x y z : same x y = true -> same x z = same y z.
Proof.
  intros Hxy. destruct (same y z) eqn:Hyz.
  - now apply (same_trans x y z).
  - destruct (same x z) eqn:Hxz; [|reflexivity].
    rewrite <- Hyz. symmetry. apply (same_trans y x z); [now rewrite same_sym | exact Hxz].
Qed.

Lemma filter_class_rest s s' rest :
  same s s' = false ->
  List.filter (same s') (List.filter (fun x => negb (same s x)) rest)
  = List.filter (same s') (s :: rest).
Proof.
  intros Hss'. cbn [List.filter]. rewrite same_sym, Hss'.
  induction rest as [|x rest IH]; [reflexivity|]. cbn [List.filter].
  destruct (same s x) eqn:Hsx; cbn [negb List.filter].
  - rewrite IH. destruct (same s' x) eqn:Hs'x; [|reflexivity].
    rewrite (same_class s x s' Hsx) in Hss'. rewrite same_sym in Hs'x. congruence.
  - now rewrite IH.
Qed.

(** For an equivalence, the clusters are the classes of the elements. *)
Lemma clusterBy_classes n : forall l g,
  (length l <= n)%nat ->
  g ∈ clusterBy same l <-> exists s, s ∈ l /\ g = List.filter (same s) l.
Proof.
  induction n as [|n IH]; intros l g Hlen.
  - destruct l; [|cbn in Hlen; lia]. simp clusterBy. split.
    + intros Hg. now apply elem_of_nil in Hg.
    + intros [s [Hs _]]. now apply elem_of_nil in Hs.
  - destruct l as [|s rest]; simp clusterBy.
    { split; [intros Hg; now apply elem_of_nil in Hg
             | intros [s [Hs _]]; now apply elem_of_nil in Hs]. }
    cbn [length] in Hlen.
    pose proof (List.filter_length_le (fun x => negb (same s x)) rest) as Hle.
    rewrite elem_of_cons, IH by lia. split.
    + intros [->|[s' [Hs' ->]]].
      * exists s. split; [apply list_elem_of_here|]. cbn [List.filter]. now rewrite same_refl.
      * apply list_elem_of_In, filter_In in Hs'. destruct Hs' as [Hs' Hne].
        apply negb_true_iff in Hne. exists s'.
        split; [apply list_elem_of_further; now apply list_elem_of_In|].
        now apply filter_class_rest.
    + intros [s' [Hs' ->]]. destruct (same s s') eqn:Hss'.
      * left. cbn [List.filter]. rewrite same_sym, Hss'. f_equal.
        apply List.filter_ext. intros x. symmetry. now apply same_class.
      * right. exists s'. split; [|symmetry; now apply filter_class_rest].
        apply elem_of_cons in Hs'. destruct Hs' as [->|Hs'];
          [rewrite same_refl in Hss'; discriminate|].
        apply list_elem_of_In, filter_In. split; [now apply list_elem_of_In|].
        now rewrite Hss'.
Qed.

End Equivalence.

Lemma filter_comm {A} (p q : A -> bool) l :
  List.filter p (List.filter q l) = List.filter q (List.filter p l).
Proof.
  induction l as [|x l IH]; [reflexivity|]. cbn [List.filter].
  destruct (p x) eqn:Hp, (q x) eqn:Hq; cbn [List.filter]; rewrite ?Hp, ?Hq, IH; reflexivity.
Qed.

Lemma filter_and {A} (p q : A -> bool) l :
  List.filter (fun x => p x && q x) l = List.filter q (List.filter p l).
Proof.
  induction l as [|x l IH]; [reflexivity|]. cbn [List.filter].
  destruct (p x); cbn [andb List.filter]; rewrite IH; [|reflexivity].
  now destruct (q x).
Qed.

Lemma filter_nothing {A} (p : A -> bool) l :
  (forall x, x ∈ l -> p x = false) -> List.filter p l = [].
Proof.
  induction l as [|x l IH]; intros Hall; [reflexivity|]. cbn [List.filter].
  rewrite (Hall x) by apply list_elem_of_here. apply IH.
  intros y Hy. apply Hall. now apply list_elem_of_further.
Qed.

Lemma filter_everything {A} (p : A -> bool) l :
  (forall x, x ∈ l -> p x = true) -> List.filter p l = l.
Proof.
  induction l as [|x l IH]; intros Hall; [reflexivity|]. cbn [List.filter].
  rewrite (Hall x) by apply list_elem_of_here. f_equal. apply IH.
  intros y Hy. apply Hall. now apply list_elem_of_further.
Qed.

Lemma filter_none_negated {A} (p : A -> bool) l :
  List.filter p l = [] -> List.filter (fun x => negb (p x)) l = l.
Proof.
  induction l as [|x l IH]; [reflexivity|]. cbn [List.filter].
  destruct (p x); [discriminate|]. intros Hl. cbn [negb]. f_equal. now apply IH.
Qed.

Lemma extensionsLast_all l : forallb isExt l = true -> extensionsLast l = true.
Proof.
  induction l as [|x l IH]; [reflexivity|]. cbn [forallb extensionsLast].
  intros Hall. apply andb_true_iff in Hall. destruct Hall as [Hx Hl]. now rewrite Hx.
Qed.

Lemma forallb_filter {A} (p q : A -> bool) l :
  forallb p l = true -> forallb p (List.filter q l) = true.
Proof.
  induction l as [|x l IH]; [reflexivity|]. cbn [forallb List.filter].
  intros Hall. apply andb_true_iff in Hall. destruct Hall as [Hx Hl].
  destruct (q x); cbn [forallb]; [rewrite Hx|]; now apply IH.
Qed.

Lemma extensionsLast_filter q l :
  extensionsLast l = true -> extensionsLast (List.filter q l) = true.
Proof.
  induction l as [|x l IH]; [reflexivity|]. cbn [extensionsLast List.filter].
  destruct (isExt x) eqn:Hx.
  - intros Hall. apply extensionsLast_all.
    destruct (q x); cbn [forallb]; [rewrite Hx|]; now apply forallb_filter.
  - intros Hl. destruct (q x); cbn [extensionsLast]; [rewrite Hx|]; now apply IH.
Qed.

Lemma extensionsLast_app users extensions :
  Forall (fun u => Keybinding.source u <> Extension) users ->
  Forall (fun e => Keybinding.source e = Extension) extensions ->
  extensionsLast (users ++ extensions) = true.
Proof.
  intros Husers Hext. induction Husers as [|u users Hu Husers IH]; cbn [app].
  - apply extensionsLast_all. apply forallb_forall. intros x Hx.
    rewrite Forall_forall in Hext. apply bool_decide_eq_true. apply Hext.
    now apply list_elem_of_In.
  - cbn [extensionsLast]. unfold isExt at 1. now rewrite bool_decide_false.
Qed.

(** The heart of the matter: when the bindings that stay are those of
    other sources and extension bindings that stood alone, each
    extension binding stands alone again. *)
Lemma kept_extensions_alone (keep : Keybinding.t -> bool)
  (related : Keybinding.t -> Keybinding.t -> bool) n : forall l,
  (length l <= n)%nat ->
  (forall x, isExt x = false -> keep x = true) ->
  extensionsLast l = true ->
  (forall g x, g ∈ clusterBy related l -> x ∈ g -> isExt x = true -> keep x = true ->
               g = [x]) ->
  forall g', g' ∈ clusterBy related (List.filter keep l) ->
             (2 <= length g')%nat ->
             Forall (fun x => isExt x = false) g'.
Proof.
  induction n as [|n IH]; intros l Hlen Hkeep Hlast Halone g' Hg' Hsize.
  - destruct l; [|cbn in Hlen; lia]. cbn in Hg'. simp clusterBy in Hg'.
    now apply elem_of_nil in Hg'.
  - destruct l as [|s rest].
    { cbn in Hg'. simp clusterBy in Hg'. now apply elem_of_nil in Hg'. }
    cbn [length] in Hlen.
    pose proof (List.filter_length_le (fun x => negb (related s x)) rest) as Hle.
    assert (Htail : forall g x, g ∈ clusterBy related (List.filter (fun x => negb (related s x)) rest)
                                -> x ∈ g -> isExt x = true -> keep x = true -> g = [x]).
    { intros g x Hg. apply Halone. simp clusterBy. now apply list_elem_of_further. }
    assert (Hhead : forall x, x ∈ s :: List.filter (related s) rest ->
                              isExt x = true -> keep x = true ->
                              s :: List.filter (related s) rest = [x]).
    { intros x. apply Halone. simp clusterBy. apply list_elem_of_here. }
    cbn [extensionsLast] in Hlast. cbn [List.filter] in Hg'.
    destruct (isExt s) eqn:Hs.
    + assert (Hrest : extensionsLast (List.filter (fun x => negb (related s x)) rest) = true)
        by (apply extensionsLast_all; now apply forallb_filter).
      destruct (keep s) eqn:Hks.
      * pose proof (Hhead s (list_elem_of_here _ _) Hs Hks) as Hsingle.
        injection Hsingle as Hnone.
        simp clusterBy in Hg'. rewrite filter_comm, Hnone in Hg'. cbn [List.filter] in Hg'.
        apply elem_of_cons in Hg'. destruct Hg' as [->|Hg']; [cbn in Hsize; lia|].
        rewrite filter_comm in Hg'. now apply (IH (List.filter (fun x => negb (related s x)) rest) ltac:(lia) Hkeep Hrest
                        Htail g').
      * assert (Hsame : List.filter keep rest
                        = List.filter keep (List.filter (fun x => negb (related s x)) rest)).
        { rewrite filter_comm, <- filter_and. apply List.filter_ext_in. intros x Hx.
          destruct (keep x) eqn:Hkx; [|reflexivity]. cbn [andb].
          destruct (related s x) eqn:Hrx; [|reflexivity]. exfalso.
          assert (Hin : x ∈ s :: List.filter (related s) rest).
          { apply list_elem_of_further, list_elem_of_In, filter_In. now split. }
          assert (Hx' : isExt x = true).
          { rewrite forallb_forall in Hlast. now apply Hlast. }
          pose proof (Hhead x Hin Hx' Hkx) as Hsingle. injection Hsingle as -> Hnone.
          rewrite Hnone in Hin. apply elem_of_cons in Hin.
          destruct Hin as [Hin|Hin]; [|now apply elem_of_nil in Hin].
          congruence. }
        rewrite Hsame in Hg'. now apply (IH (List.filter (fun x => negb (related s x)) rest) ltac:(lia) Hkeep Hrest
                        Htail g').
    + rewrite (Hkeep s Hs) in Hg'. simp clusterBy in Hg'.
      assert (Hrest : extensionsLast (List.filter (fun x => negb (related s x)) rest) = true)
        by (now apply extensionsLast_filter).
      apply elem_of_cons in Hg'. destruct Hg' as [->|Hg'].
      * constructor; [exact Hs|]. apply Forall_forall. intros x Hx.
        apply list_elem_of_In, filter_In in Hx. destruct Hx as [Hx Hrx].
        apply filter_In in Hx. destruct Hx as [Hx Hkx].
        destruct (isExt x) eqn:Hx'; [|reflexivity]. exfalso.
        assert (Hin : x ∈ s :: List.filter (related s) rest).
        { apply list_elem_of_further, list_elem_of_In, filter_In. now split. }
        pose proof (Hhead x Hin Hx' Hkx) as Hsingle. injection Hsingle as -> _. congruence.
      * rewrite filter_comm in Hg'. now apply (IH (List.filter (fun x => negb (related s x)) rest) ltac:(lia) Hkeep Hrest
                        Htail g').
Qed.

Lemma applyDecision_deactivate `{JsonBuiltins} kb w :
  exists w1,
    applyDecision kb ActionDeactivate None w = (Val tt, w1)
    /\ forall id, statusOf w1 id
                  = if String.eqb id (Keybinding.id kb) then Deactivated else statusOf w id.
Proof.
  unfold applyDecision, bind. rewrite deactivateKeybinding_run.
  match goal with |- context [recordDecision kb Deactivated None ?w0] => set (w1 := w0) end.
  exists (snd (recordDecision kb Deactivated None w1)). split.
  - now rewrite recordDecision_run.
  - intros id. rewrite statusOf_recordDecision.
    destruct (String.eqb id (Keybinding.id kb)); [reflexivity|]. now apply statusOf_state.
Qed.

Lemma filter_isExt_cons b l :
  List.filter isExt (b :: l)
  = if bool_decide (Keybinding.source b = Extension)
    then b :: List.filter isExt l else List.filter isExt l.
Proof. reflexivity. Qed.

Lemma deactivate_bindings_loop `{JsonBuiltins} l : forall w,
  exists w',
    forM l (fun _ binding =>
              if bool_decide (Keybinding.source binding = Extension)
              then applyDecision binding ActionDeactivate None
              else ret tt) tt w = (Val tt, w')
    /\ forall id,
         statusOf w' id
         = if bool_decide (id ∈ map Keybinding.id (List.filter isExt l))
           then Deactivated else statusOf w id.
Proof.
  induction l as [|b l IH]; intros w.
  - exists w. split; [reflexivity|]. intros id. cbn [List.filter map].
    rewrite bool_decide_false; [reflexivity | apply not_elem_of_nil].
  - cbn [forM]. unfold bind at 1.
    destruct (bool_decide (Keybinding.source b = Extension)) eqn:Hb.
    + rewrite (filter_isExt_cons b l), Hb.
      destruct (applyDecision_deactivate b w) as [w1 [Hrun Hst]]. rewrite Hrun.
      destruct (IH w1) as [w' [Hloop Hst']]. exists w'. split; [exact Hloop|].
      intros id. rewrite Hst', Hst. cbn [map].
      destruct (String.eqb_spec id (Keybinding.id b)) as [->|Hne].
      * rewrite (bool_decide_true (_ ∈ _ :: _)) by apply list_elem_of_here.
        destruct (bool_decide (Keybinding.id b ∈ map Keybinding.id (List.filter isExt l)));
          reflexivity.
      * assert (Hin : bool_decide (id ∈ Keybinding.id b
                                      :: map Keybinding.id (List.filter isExt l))
                      = bool_decide (id ∈ map Keybinding.id (List.filter isExt l)));
          [|now rewrite Hin].
        apply bool_decide_ext. rewrite elem_of_cons. tauto.
    + rewrite (filter_isExt_cons b l), Hb. unfold ret at 1. apply IH.
Qed.

Lemma deactivateConflicting_run `{JsonBuiltins} conflicts : forall w,
  exists w',
    deactivateConflicting conflicts w = (Val tt, w')
    /\ forall id,
         statusOf w' id
         = if bool_decide (id ∈ conflictingIds conflicts) then Deactivated else statusOf w id.
Proof.
  unfold deactivateConflicting.
  induction conflicts as [|c conflicts IH]; intros w.
  - exists w. split; [reflexivity|]. intros id.
    rewrite bool_decide_false; [reflexivity | apply not_elem_of_nil].
  - cbn [forM]. unfold bind at 1.
    destruct (deactivate_bindings_loop (KeybindingConflict.bindings c) w) as [w1 [Hrun Hst]].
    rewrite Hrun. destruct (IH w1) as [w' [Hloop Hst']]. exists w'. split; [exact Hloop|].
    intros id. rewrite Hst', Hst. unfold conflictingIds. cbn [map concat].
    rewrite List.filter_app, map_app.
    repeat case_bool_decide; try reflexivity; exfalso;
      match goal with Hn : ~ _ ∈ _ ++ _ |- _ => apply Hn; apply elem_of_app; tauto
                 | Hin : _ ∈ _ ++ _ |- _ => apply elem_of_app in Hin; tauto end.
Qed.

Lemma length_group_le {A} (group : list A) (groups : list (list A)) :
  group ∈ groups -> (length group <= length (concat groups))%nat.
Proof.
  induction groups as [|g groups IH]; intros Hin; [now apply elem_of_nil in Hin|].
  cbn [concat]. rewrite length_app. apply elem_of_cons in Hin.
  destruct Hin as [->|Hin]; [lia|]. specialize (IH Hin). lia.
Qed.

Lemma sameNormalizedKey_refl x : sameNormalizedKey x x = true.
Proof. apply String.eqb_refl. Qed.

Lemma sameNormalizedKey_sym x y : sameNormalizedKey x y = sameNormalizedKey y x.
Proof. apply String.eqb_sym. Qed.

Lemma sameNormalizedKey_trans x y z :
  sameNormalizedKey x y = true -> sameNormalizedKey y z = true -> sameNormalizedKey x z = true.
Proof.
  unfold sameNormalizedKey. rewrite !String.eqb_eq. congruence.
Qed.

Lemma conflict_of_group userBindings extensionBindings bucket group :
  bucket ∈ clusterBy sameNormalizedKey (userBindings ++ extensionBindings) ->
  group ∈ clusterBy overlapping bucket ->
  (2 <= length group)%nat ->
  conflictOf group ∈ detectConflicts userBindings extensionBindings.
Proof.
  intros Hbucket Hgroup Hsize. rewrite detectConflicts_refines. unfold detectConflicts_spec.
  apply list_elem_of_In, in_flat_map. exists bucket. split; [now apply list_elem_of_In|].
  assert (Hlen : (2 <= length bucket)%nat).
  { pose proof (length_group_le group _ Hgroup) as Hle.
    rewrite (clusterBy_concat overlapping (length bucket) bucket (le_n _)) in Hle. lia. }
  apply Nat.leb_le in Hlen. rewrite Hlen. apply in_map, filter_In.
  split; [now apply list_elem_of_In | now apply Nat.leb_le].
Qed.

Lemma group_of_conflict userBindings extensionBindings c :
  c ∈ detectConflicts userBindings extensionBindings ->
  exists bucket group,
    c = conflictOf group
    /\ bucket ∈ clusterBy sameNormalizedKey (userBindings ++ extensionBindings)
    /\ group ∈ clusterBy overlapping bucket
    /\ (2 <= length group)%nat.
Proof.
  rewrite detectConflicts_refines. unfold detectConflicts_spec. intros Hc.
  apply list_elem_of_In, in_flat_map in Hc. destruct Hc as [bucket [Hbucket Hc]].
  destruct (2 <=? length bucket)%nat; [|destruct Hc].
  apply in_map_iff in Hc. destruct Hc as [group [<- Hgroup]].
  apply filter_In in Hgroup. destruct Hgroup as [Hgroup Hsize].
  exists bucket, group. split; [reflexivity|]. split; [now apply list_elem_of_In|].
  split; [now apply list_elem_of_In | now apply Nat.leb_le].
Qed.

(** X29.  Deactivating all conflicting shortcuts does what it says: for
    user bindings and extension bindings with the sources the parser
    gives them, it never fails, and afterwards the conflicts that the
    panel computes from the same bindings are none.  Each status is as
    it was before or deactivated. *)
Theorem deactivateAllConflicting_resolves `{JsonBuiltins} (w : World.t)
  (user extension : list Keybinding.t) :
  Forall (fun u => Keybinding.source u <> Extension) user ->
  Forall (fun e => Keybinding.source e = Extension) extension ->
  exists w',
    deactivateAllConflicting user extension w = (Val tt, w')
    /\ getAuditData_conflicts user extension w' = (Val [], w')
    /\ (forall id, statusOf w' id = statusOf w id \/ statusOf w' id = Deactivated).
Proof.
  intros Huser Hext. unfold deactivateAllConflicting, bind. rewrite filterM_isActive.
  set (active := List.filter (activeIn w) extension).
  set (ids := conflictingIds (detectConflicts user active)).
  destruct (deactivateConflicting_run (detectConflicts user active) w) as [w' [Hrun Hst]].
  fold ids in Hst. exists w'. split; [exact Hrun|]. split.
  2:{ intros id. rewrite Hst. destruct (bool_decide _); [now right | now left]. }
  unfold getAuditData_conflicts, bind. rewrite filterM_isActive. unfold ret.
  assert (Hactive : Forall (fun e => Keybinding.source e = Extension) active).
  { apply Forall_forall. intros x Hx. apply list_elem_of_In, filter_In in Hx.
    rewrite Forall_forall in Hext. apply Hext. now apply list_elem_of_In. }
  assert (Hafter : user ++ List.filter (activeIn w') extension
                   = List.filter (keptAfter ids) (user ++ active)).
  { rewrite List.filter_app. f_equal.
    - symmetry. apply filter_everything. intros x Hx. rewrite Forall_forall in Huser.
      unfold keptAfter, isExt. now rewrite (bool_decide_false _ (Huser x Hx)).
    - unfold active. rewrite <- filter_and. apply List.filter_ext_in. intros x Hx.
      rewrite Forall_forall in Hext. apply list_elem_of_In in Hx.
      unfold keptAfter, isExt. rewrite (bool_decide_true _ (Hext x Hx)). cbn [negb orb].
      unfold activeIn. rewrite !Hst.
      destruct (bool_decide (Keybinding.id x ∈ ids)); [|now rewrite andb_true_r].
      decide_status. cbn [negb andb]. now rewrite andb_false_r. }
  assert (Hnone : List.filter hasExtensionBinding
                    (detectConflicts user (List.filter (activeIn w') extension)) = []);
    [|now rewrite Hnone].
  apply filter_nothing. intros c Hc.
  destruct (group_of_conflict _ _ _ Hc) as [bucket' [group [-> [Hbucket' [Hgroup Hsize]]]]].
  rewrite Hafter in Hbucket'.
  apply (clusterBy_classes sameNormalizedKey sameNormalizedKey_refl sameNormalizedKey_sym
           sameNormalizedKey_trans _ _ _ (le_n _)) in Hbucket'.
  destruct Hbucket' as [s [Hs ->]].
  apply list_elem_of_In, filter_In in Hs. destruct Hs as [Hs _]. apply list_elem_of_In in Hs.
  set (bucket := List.filter (sameNormalizedKey s) (user ++ active)).
  assert (Hbucket : bucket ∈ clusterBy sameNormalizedKey (user ++ active)).
  { apply (clusterBy_classes sameNormalizedKey sameNormalizedKey_refl sameNormalizedKey_sym
             sameNormalizedKey_trans _ _ _ (le_n _)). now exists s. }
  rewrite filter_comm in Hgroup. fold bucket in Hgroup.
  assert (Halone : Forall (fun x => isExt x = false) group).
  { apply (kept_extensions_alone (keptAfter ids) overlapping (length bucket) bucket (le_n _));
      [| |  | exact Hgroup | exact Hsize].
    - intros x Hx. unfold keptAfter. now rewrite Hx.
    - apply extensionsLast_filter. now apply extensionsLast_app.
    - intros g x Hg Hx Hisext Hkept.
      destruct (Nat.le_gt_cases 2 (length g)) as [Hbig|Hsmall].
      + exfalso. pose proof (conflict_of_group user active bucket g Hbucket Hg Hbig) as Hconflict.
        assert (Hid : Keybinding.id x ∈ ids).
        { unfold ids, conflictingIds. apply list_elem_of_fmap_2.
          apply list_elem_of_In, filter_In. split; [|exact Hisext].
          apply in_concat. exists g. split; [|now apply list_elem_of_In].
          apply in_map_iff. exists (conflictOf g). split; [reflexivity|].
          now apply list_elem_of_In. }
        unfold keptAfter in Hkept. rewrite Hisext, (bool_decide_true _ Hid) in Hkept.
        discriminate.
      + destruct g as [|y [|z g]]; [now apply elem_of_nil in Hx | | cbn in Hsmall; lia].
        apply list_elem_of_singleton in Hx. now subst. }
  unfold hasExtensionBinding. cbn [conflictOf KeybindingConflict.bindings].
  clear -Halone. induction Halone as [|x g Hx Hg IH]; [reflexivity|].
  cbn [existsb]. unfold isExt in Hx. now rewrite Hx.
Qed.

Lemma deactivateAllConflicting_resolves_witness :
  exists w',
    deactivateAllConflicting (H := RefJson.builtins)
      [userBinding "ctrl+k" "foo" None]
      [extBinding "Ctrl+K" "bar" None; extBinding "ctrl+l" "baz" None]
      (worldWithFile remapExampleFile)
    = (Val tt, w')
    /\ getAuditData_conflicts
         [userBinding "ctrl+k" "foo" None]
         [extBinding "Ctrl+K" "bar" None; extBinding "ctrl+l" "baz" None] w'
       = (Val [], w')
    /\ (forall id, statusOf w' id = statusOf (worldWithFile remapExampleFile) id
                   \/ statusOf w' id = Deactivated).
Proof.
  apply (deactivateAllConflicting_resolves (H := RefJson.builtins)).
  - repeat constructor. simpl. discriminate.
  - repeat constructor.
Defined.


(* --------------------------------------------------------------------- *)
(** ** Normalized keys                                                    *)
(* --------------------------------------------------------------------- *)

Lemma N_of_ascii_inj a b : N_of_ascii a = N_of_ascii b -> a = b.
Proof.
  intros Hab. rewrite <- (ascii_N_embedding a), <- (ascii_N_embedding b). now rewrite Hab.
Qed.

Lemma String_leb_trans s1 : forall s2 s3,
  String.leb s1 s2 = true -> String.leb s2 s3 = true -> String.leb s1 s3 = true.
Proof.
  unfold String.leb. induction s1 as [|c1 s1 IH]; intros [|c2 s2] [|c3 s3];
    cbn [String.compare]; try (intros; reflexivity); try (intros; discriminate).
  unfold Ascii.compare.
  destruct (N.compare_spec (N_of_ascii c1) (N_of_ascii c2)) as [H12|H12|H12];
    destruct (N.compare_spec (N_of_ascii c2) (N_of_ascii c3)) as [H23|H23|H23];
    destruct (N.compare_spec (N_of_ascii c1) (N_of_ascii c3)) as [H13|H13|H13];
    intros Hle12 Hle23; try discriminate; try reflexivity; try lia.
  now apply (IH s2 s3).
Qed.

Lemma String_leb_transitive : Transitive (fun a b => String.leb a b = true).
Proof. intros a b c. apply String_leb_trans. Qed.

Lemma String_leb_antisymmetric : AntiSymm eq (fun a b => String.leb a b = true).
Proof. intros a b. apply String.leb_antisym. Qed.

Lemma String_leb_other a b : String.leb a b = false -> String.leb b a = true.
Proof. intros Hab. destruct (String.leb_total a b) as [H|H]; [congruence | exact H]. Qed.

Lemma sort_by_leb_perm l1 l2 :
  l1 ≡ₚ l2 -> sort_by String.leb l1 = sort_by String.leb l2.
Proof.
  intros Hperm.
  apply (@Sorted_unique _ (fun a b => String.leb a b = true)
                        String_leb_transitive String_leb_antisymmetric).
  - apply sort_by_sorted, String_leb_other.
  - apply sort_by_sorted, String_leb_other.
  - now rewrite !sort_by_perm.
Qed.

Lemma chars_append a b : chars (a +:+ b) = chars a ++ chars b.
Proof.
  induction a as [|x a IH]; [reflexivity|].
  change (x :: chars (a +:+ b) = x :: (chars a ++ chars b)). now rewrite IH.
Qed.

Lemma chars_join parts : chars (join "+" parts) = joinChars (map chars parts).
Proof.
  induction parts as [|p parts IH]; [reflexivity|].
  destruct parts as [|q parts]; [reflexivity|].
  change (chars (p +:+ "+" +:+ join "+" (q :: parts))
          = chars p ++ "+"%char :: joinChars (map chars (q :: parts))).
  rewrite !chars_append, IH. reflexivity.
Qed.

Lemma lower_char_plus c : Ascii.eqb (lower_char c) "+" = Ascii.eqb c "+".
Proof.
  destruct c as [b0 b1 b2 b3 b4 b5 b6 b7].
  destruct b0, b1, b2, b3, b4, b5, b6, b7; vm_compute; reflexivity.
Qed.

Lemma lower_char_idem c : lower_char (lower_char c) = lower_char c.
Proof.
  destruct c as [b0 b1 b2 b3 b4 b5 b6 b7].
  destruct b0, b1, b2, b3, b4, b5, b6, b7; vm_compute; reflexivity.
Qed.

Lemma map_lower_joinChars parts :
  map lower_char (joinChars parts) = joinChars (map (map lower_char) parts).
Proof.
  induction parts as [|p parts IH]; [reflexivity|].
  destruct parts as [|q parts]; [reflexivity|].
  change (map lower_char (p ++ "+"%char :: joinChars (q :: parts))
          = map lower_char p ++ "+"%char :: joinChars (map (map lower_char) (q :: parts))).
  rewrite map_app. cbn [map] in *. now rewrite IH.
Qed.

Lemma split1_no_sep sep l : forall cur,
  forallb (fun c => negb (Ascii.eqb c sep)) l = true ->
  split1 sep cur l = [rev cur ++ l].
Proof.
  induction l as [|c l IH]; intros cur Hno; cbn [split1].
  - now rewrite app_nil_r.
  - cbn [forallb] in Hno. apply andb_true_iff in Hno. destruct Hno as [Hc Hl].
    apply negb_true_iff in Hc. rewrite Hc, IH by assumption. cbn [rev].
    now rewrite <- app_assoc.
Qed.

Lemma split1_to_sep sep l rest : forall cur,
  forallb (fun c => negb (Ascii.eqb c sep)) l = true ->
  split1 sep cur (l ++ sep :: rest) = (rev cur ++ l) :: split1 sep [] rest.
Proof.
  induction l as [|c l IH]; intros cur Hno; cbn [split1 app].
  - now rewrite Ascii.eqb_refl, app_nil_r.
  - cbn [forallb] in Hno. apply andb_true_iff in Hno. destruct Hno as [Hc Hl].
    apply negb_true_iff in Hc. rewrite Hc, IH by assumption. cbn [rev].
    now rewrite <- app_assoc.
Qed.

Lemma split1_joinChars parts :
  parts <> [] ->
  Forall (fun p => forallb (fun c => negb (Ascii.eqb c "+")) p = true) parts ->
  split1 "+" [] (joinChars parts) = parts.
Proof.
  intros Hne Hall. induction Hall as [|p parts Hp Hparts IH]; [congruence|].
  destruct parts as [|q parts].
  - cbn [joinChars]. now rewrite split1_no_sep.
  - change (split1 "+" [] (p ++ "+"%char :: joinChars (q :: parts)) = p :: q :: parts).
    rewrite split1_to_sep by assumption. cbn [rev app]. f_equal. now apply IH.
Qed.

Lemma split_lowered_join parts :
  parts <> [] ->
  forallb noPlus parts = true ->
  split_char "+" (toLowerCase (join "+" parts)) = map toLowerCase parts.
Proof.
  intros Hne Hall. unfold split_char, toLowerCase at 1.
  rewrite list_ascii_of_string_of_list_ascii, chars_join, map_lower_joinChars.
  rewrite split1_joinChars.
  - rewrite !map_map. reflexivity.
  - destruct parts; [congruence | discriminate].
  - rewrite forallb_forall in Hall. apply Forall_forall. intros p Hp.
    apply list_elem_of_In, in_map_iff in Hp. destruct Hp as [q [<- Hq]].
    apply in_map_iff in Hq. destruct Hq as [part [<- Hpart]].
    specialize (Hall part Hpart). unfold noPlus in Hall.
    rewrite forallb_forall in *. intros c Hc. apply in_map_iff in Hc.
    destruct Hc as [d [<- Hd]]. rewrite lower_char_plus. now apply Hall.
Qed.

Lemma normalizeKey_join parts :
  forallb noPlus parts = true ->
  normalizeKey (join "+" parts)
  = join "+" (sort_by String.leb (map (fun p => trim (toLowerCase p)) parts)).
Proof.
  intros Hall. destruct parts as [|p parts]; [reflexivity|].
  unfold normalizeKey. rewrite split_lowered_join by (assumption || discriminate).
  now rewrite map_map.
Qed.

Lemma toLowerCase_idem key : toLowerCase (toLowerCase key) = toLowerCase key.
Proof.
  unfold toLowerCase. rewrite list_ascii_of_string_of_list_ascii, map_map. f_equal.
  apply map_ext. intros c. apply lower_char_idem.
Qed.

(** X30.  The normalized key does not depend on the order of the parts
    of a key nor on their case: a key made of parts without plus sign,
    joined by plus signs, normalizes to the lower-case, trimmed parts in
    ascending order, so two keys with the same parts in another order
    have one normalized key; and a key and its lower-case form have one
    normalized key.  Such keys fall into one bucket of the conflict
    detection. *)
Theorem normalizeKey_order_insensitive (parts1 parts2 : list string) :
  parts1 ≡ₚ parts2 ->
  forallb noPlus parts1 = true ->
  normalizeKey (join "+" parts1) = normalizeKey (join "+" parts2)
  /\ normalizeKey (join "+" parts1)
     = join "+" (sort_by String.leb (map (fun p => trim (toLowerCase p)) parts1))
  /\ (forall key, normalizeKey (toLowerCase key) = normalizeKey key).
Proof.
  intros Hperm Hall.
  assert (Hall2 : forallb noPlus parts2 = true).
  { rewrite forallb_forall in *. intros p Hp. apply Hall.
    apply list_elem_of_In. rewrite Hperm. now apply list_elem_of_In. }
  split; [|split].
  - rewrite !normalizeKey_join by assumption. f_equal. apply sort_by_leb_perm.
    now apply Permutation_map.
  - now apply normalizeKey_join.
  - intros key. unfold normalizeKey. now rewrite toLowerCase_idem.
Qed.

Lemma normalizeKey_order_insensitive_witness :
  normalizeKey "Ctrl+Shift+K" = normalizeKey "Shift+Ctrl+K"
  /\ normalizeKey "Ctrl+Shift+K" = "ctrl+k+shift".
Proof.
  pose proof (normalizeKey_order_insensitive ["Ctrl"; "Shift"; "K"] ["Shift"; "Ctrl"; "K"]
                (perm_swap _ _ _) eq_refl) as Horder.
  split; [exact (proj1 Horder)|].
  change (normalizeKey (join "+" ["Ctrl"; "Shift"; "K"]) = "ctrl+k+shift").
  rewrite (proj1 (proj2 Horder)). vm_compute. reflexivity.
Defined.
